(** * Embedding app: document-to-chunk pipeline and retrieval with fallback

    A shallow embedding of the TypeScript sources

    - [src/utils/index.ts] ([sanitizeText], [splitIntoChunks], the page
      renderer of [extractPdfTextInReadingOrder], [extractTextFromFile]),
    - [src/app/api/ask-question/route.tsx] ([retrieveWithFallback]),
    - [src/app/api/ingest-worker/route.ts] (the ingest worker [POST]) and the
      variant of the same worker that imports its helpers from [@/utils],

    together with the properties the specification states about them.

    JavaScript strings are sequences of UTF-16 code units; they are modelled
    as [list Z].  The coordinates of the text of a PDF page are JavaScript
    numbers, IEEE 754 doubles, whose differences are rounded: they are
    modelled by the Standard Library's specification of binary64
    arithmetic.  Similarity thresholds, which are only handed on, are
    rationals [Q]; lengths and sizes are [Z]. *)

From Stdlib Require Import ZArith QArith Qabs Qpower Lia Lqa List Bool Sorting.Sorted Sorting.Permutation.
From Stdlib Require Import Floats.SpecFloat.
From stdpp Require Import base list strings gmap.

Local Open Scope Z_scope.

(** ** JavaScript strings *)

Module JsString.

(** A string is its sequence of UTF-16 code units. *)
Definition js_string : Type := list Z.

(** Code units of an ASCII literal, used to write examples. *)
Definition lit (s : string) : js_string :=
  List.map (fun a => Z.of_nat (Ascii.nat_of_ascii a)) (String.list_ascii_of_string s).

(** [s.length] *)
Definition len (s : js_string) : Z := Z.of_nat (length s).

(** ECMAScript [WhiteSpace] and [LineTerminator] code points: the set that
    [String.prototype.trim] strips and that [\s] matches. *)
Definition is_white_space (c : Z) : bool :=
  (c =? 9) || (c =? 10) || (c =? 11) || (c =? 12) || (c =? 13) || (c =? 32)
  || (c =? 0xA0) || (c =? 0x1680) || ((0x2000 <=? c) && (c <=? 0x200A))
  || (c =? 0x2028) || (c =? 0x2029) || (c =? 0x202F) || (c =? 0x205F)
  || (c =? 0x3000) || (c =? 0xFEFF).

Fixpoint trimStart (s : js_string) : js_string :=
  match s with
  | [] => []
  | c :: t => if is_white_space c then trimStart t else s
  end.

Fixpoint trimEnd (s : js_string) : js_string :=
  match s with
  | [] => []
  | c :: t =>
      match trimEnd t with
      | [] => if is_white_space c then [] else [c]
      | t' => c :: t'
      end
  end.

(** [s.trim()] *)
Definition trim (s : js_string) : js_string := trimEnd (trimStart s).

(** [parts.join(sep)] *)
Fixpoint join (sep : js_string) (parts : list js_string) : js_string :=
  match parts with
  | [] => []
  | [p] => p
  | p :: rest => p ++ sep ++ join sep rest
  end.

Definition SPACE : Z := 32.
Definition LF : Z := 10.
Definition CR : Z := 13.

(** A string carries no white space at either end. *)
Definition trimmed (s : js_string) : Prop :=
  (forall c, head s = Some c -> is_white_space c = false) /\
  (forall c, last s = Some c -> is_white_space c = false).

End JsString.

Import JsString.

(** ** Text normalizer: [sanitizeText] *)

Module Normalizer.

Definition is_high_surrogate (c : Z) : bool := (0xD800 <=? c) && (c <=? 0xDBFF).
Definition is_low_surrogate (c : Z) : bool := (0xDC00 <=? c) && (c <=? 0xDFFF).

(** [Array.from(input)]: the string iterator yields one string per code
    point, pairing a high surrogate with the low surrogate that follows. *)
Fixpoint array_from (s : js_string) : list js_string :=
  match s with
  | [] => []
  | h :: t =>
      match t with
      | l :: t' =>
          if is_high_surrogate h && is_low_surrogate l
          then [h; l] :: array_from t'
          else [h] :: array_from t
      | [] => [[h]]
      end
  end.

(** [char.codePointAt(0)]; [None] is [undefined]. *)
Definition codePointAt0 (char : js_string) : option Z :=
  match char with
  | [] => None
  | h :: l :: _ =>
      if is_high_surrogate h && is_low_surrogate l
      then Some ((h - 0xD800) * 0x400 + (l - 0xDC00) + 0x10000)
      else Some h
  | [h] => Some h
  end.

(** The callback passed to [map] in [sanitizeText]. *)
Definition sanitize_char (char : js_string) : js_string :=
  match codePointAt0 char with
  | None => []
  | Some codePoint =>
      if ((codePoint <=? 31) && negb (codePoint =? 9) && negb (codePoint =? 10)
          && negb (codePoint =? 13))
         || ((0x7f <=? codePoint) && (codePoint <=? 0x9f))
      then [SPACE]
      else char
  end.

(** [.replace(/\uFFFD/g, " ")]: every U+FFFD code unit becomes a space. *)
Definition replace_fffd (s : js_string) : js_string :=
  List.map (fun c => if c =? 0xFFFD then SPACE else c) s.

Definition sanitizeText (input : js_string) : js_string :=
  match input with
  | [] => []
  | _ =>
      let cleaned := replace_fffd (join [] (List.map sanitize_char (array_from input))) in
      trim cleaned
  end.

(** The normalizer as the specification words it: the control characters
    are removed, U+FFFD becomes a space, the result is trimmed. *)
Definition spec_removed (c : Z) : bool :=
  ((0 <=? c) && (c <=? 31) && negb (c =? 9) && negb (c =? 10) && negb (c =? 13))
  || ((0x80 <=? c) && (c <=? 0x9f)).

Definition spec_normalize (raw : js_string) : js_string :=
  trim (replace_fffd (List.filter (fun c => negb (spec_removed c)) raw)).

(** The controls that [sanitize_char] blanks, on one code unit. *)
Definition control (c : Z) : bool :=
  ((c <=? 31) && negb (c =? 9) && negb (c =? 10) && negb (c =? 13))
  || ((0x7f <=? c) && (c <=? 0x9f)).

(** What the code does to one code unit: the C0 controls other than tab,
    line feed and carriage return, DEL and the C1 controls, and U+FFFD all
    become a space. *)
Definition blanked (c : Z) : bool :=
  ((c <=? 31) && negb (c =? 9) && negb (c =? 10) && negb (c =? 13))
  || ((0x7f <=? c) && (c <=? 0x9f))
  || (c =? 0xFFFD).

Definition scrub (c : Z) : Z := if blanked c then SPACE else c.

End Normalizer.

Import Normalizer.

(** ** Chunker: [splitIntoChunks] *)

Module Chunker.

(** [text.replace(/\r\n?/g, "\n")] *)
Fixpoint normalizeLineEndings (s : js_string) : js_string :=
  match s with
  | [] => []
  | c :: t =>
      if c =? CR then
        LF :: match t with
              | l :: t' => if l =? LF then normalizeLineEndings t' else normalizeLineEndings t
              | [] => []
              end
      else c :: normalizeLineEndings t
  end.

(** Prepend a code unit to the piece under construction (the head of the
    list of pieces). *)
Definition push_head (c : Z) (pieces : list js_string) : list js_string :=
  match pieces with
  | [] => [[c]]
  | p :: rest => (c :: p) :: rest
  end.

(** [s.split(/\n+/)]: the pieces between maximal runs of line feeds;
    [in_run] holds while the scan is inside a separator. *)
Fixpoint split_newlines_from (in_run : bool) (s : js_string) : list js_string :=
  match s with
  | [] => [[]]
  | c :: t =>
      if c =? LF then
        if in_run then split_newlines_from true t
        else [] :: split_newlines_from true t
      else push_head c (split_newlines_from false t)
  end.

Definition split_newlines (s : js_string) : list js_string :=
  split_newlines_from false s.

Definition is_terminal (c : Z) : bool := (c =? 46) || (c =? 33) || (c =? 63).

(** [p.split(/(?<=[.!?])\s+/)]: a separator is a maximal run of white
    space whose first unit directly follows [.], [!] or [?];
    [after_terminal] records the look-behind, [in_run] that the scan is
    inside a separator. *)
Fixpoint split_sentences_from (after_terminal in_run : bool) (s : js_string)
  : list js_string :=
  match s with
  | [] => [[]]
  | c :: t =>
      if is_white_space c then
        if in_run then split_sentences_from false true t
        else if after_terminal then [] :: split_sentences_from false true t
        else push_head c (split_sentences_from false false t)
      else push_head c (split_sentences_from (is_terminal c) false t)
  end.

Definition split_sentences (p : js_string) : list js_string :=
  split_sentences_from false false p.

Definition nonempty (s : js_string) : bool :=
  match s with [] => false | _ => true end.

(** The sentence stream: [paragraphs.flatMap(...)]. *)
Definition sentences_of (text : js_string) : list js_string :=
  let paragraphs := split_newlines (normalizeLineEndings text) in
  flat_map (fun p => List.filter nonempty (List.map trim (split_sentences p))) paragraphs.

(** One iteration of the packing loop on the state [(chunks, current)]. *)
Definition pack_step (maxChunkSize : Z) (st : list js_string * js_string)
  (sentence : js_string) : list js_string * js_string :=
  let '(chunks, current) := st in
  if len current =? 0 then (chunks, sentence)
  else if len current + 1 + len sentence <=? maxChunkSize
       then (chunks, current ++ [SPACE] ++ sentence)
       else (chunks ++ [current], sentence).

Definition pack (maxChunkSize : Z) (sentences : list js_string)
  : list js_string * js_string :=
  fold_left (pack_step maxChunkSize) sentences ([], []).

Definition finish (st : list js_string * js_string) : list js_string :=
  let '(chunks, current) := st in
  if len (trim current) =? 0 then chunks else chunks ++ [current].

Definition splitIntoChunks (text : js_string) (maxChunkSize : Z) : list js_string :=
  finish (pack maxChunkSize (sentences_of text)).

(** The default value of the parameter [maxChunkSize]. *)
Definition DEFAULT_MAX_CHUNK_SIZE : Z := 300.

(** Sentences merged into one chunk are joined by single spaces. *)
Definition join_space (group : list js_string) : js_string := join [SPACE] group.

(** A sentence of the stream: not empty, no white space at either end. *)
Definition proper_sentence (s : js_string) : Prop := s <> [] /\ trimmed s.

(** A group of merged sentences respects the budget, unless it is one
    sentence on its own. *)
Definition within_budget (maxChunkSize : Z) (group : list js_string) : Prop :=
  (exists s, group = [s]) \/ len (join_space group) <= maxChunkSize.

End Chunker.

Import Chunker.

(** ** Control flow: a computation returns or throws *)

Module Js.

Inductive Outcome (A : Type) : Type :=
| Return (a : A)
| Throw (message : string).
Arguments Return {A} a.
Arguments Throw {A} message.

(** The error object of the Supabase client. *)
Record PostgrestError := { message : string }.

(** [a || b] on strings: the first operand unless it is empty. *)
Definition or_else (a b : string) : string :=
  if String.eqb a "" then b else a.

End Js.

Import Js.

(** ** Numbers: IEEE 754 doubles *)

Module Double.

(** A JavaScript number is a binary64 value: 53 bits of precision and
    exponents below 1024.  The operations are those of the Standard
    Library's specification of IEEE 754 arithmetic, which rounds to nearest,
    ties to even. *)
Definition prec : Z := 53.
Definition emax : Z := 1024.

Definition double : Type := spec_float.

Definition NaN : double := S754_nan.
Definition zero : double := S754_zero false.

(** [a - b] *)
Definition sub (a b : double) : double := SFsub prec emax a b.

(** [Math.abs(a)] *)
Definition abs (a : double) : double := SFabs a.

(** [a <= b] and [a < b]; both are false when an operand is NaN. *)
Definition leb (a b : double) : bool := SFleb a b.
Definition ltb (a b : double) : bool := SFltb a b.

(** Truthiness of a number: [0], [-0] and [NaN] are falsy. *)
Definition truthy (a : double) : bool :=
  match a with
  | S754_zero _ | S754_nan => false
  | _ => true
  end.

(** [a || b] on numbers *)
Definition first_truthy (a b : double) : double := if truthy a then a else b.

(** The double nearest to [m * 2 ^ e], and the double of an integer. *)
Definition of_dyadic (m e : Z) : double := binary_normalize prec emax m e false.
Definition of_Z (n : Z) : double := of_dyadic n 0.

(** Zeros, subnormal and normal numbers: what is neither NaN nor infinite. *)
Definition is_finite (a : double) : bool :=
  match a with
  | S754_zero _ => true
  | S754_finite _ m e => bounded prec emax m e
  | _ => false
  end.

(** The exact value of a finite double. *)
Definition value (a : double) : Q :=
  match a with
  | S754_finite s m e => inject_Z (cond_Zopp s (Zpos m)) * Qpower 2 e
  | _ => 0
  end.

(** The same value counted in units of [2 ^ -1074], the smallest positive
    double: an integer. *)
Definition scaled (a : double) : Z :=
  match a with
  | S754_finite s m e => cond_Zopp s (Zpos m * 2 ^ (e + 1074))
  | _ => 0
  end.

(** [R] is a rounding of the positive quantity [S0] (in units of
    [2 ^ -1074]) with the sign [s]: a multiple of the spacing [2 ^ k] of
    the doubles around [S0] that is next to [S0], and [S0] itself when that
    is such a multiple; or an infinity when that multiple is out of range. *)
Definition rounded (S0 : Z) (s : bool) (R : double) : Prop :=
  exists r,
    S0 / 2 ^ Z.max (Z.log2 S0 - 52) 0 <= r <= S0 / 2 ^ Z.max (Z.log2 S0 - 52) 0 + 1
    /\ (S0 mod 2 ^ Z.max (Z.log2 S0 - 52) 0 = 0 -> r = S0 / 2 ^ Z.max (Z.log2 S0 - 52) 0)
    /\ match R with
       | S754_finite s' m e =>
           s' = s /\ bounded prec emax m e = true
           /\ Zpos m * 2 ^ (e + 1074) = r * 2 ^ Z.max (Z.log2 S0 - 52) 0
       | S754_infinity s' => s' = s /\ 2 ^ 2098 <= r * 2 ^ Z.max (Z.log2 S0 - 52) 0
       | _ => False
       end.

End Double.

(** ** PDF page renderer: reading-order reconstruction *)

Module PdfReadingOrder.

(** Coordinates are JavaScript numbers. *)
Record TextItem := { str : js_string; transform : list Double.double }.

Record Row := { x : Double.double; y : Double.double; text : js_string }.

(** [const [, , , , x, y] = item.transform]; an entry that is missing is
    [undefined], which each subtraction below turns into NaN. *)
Definition row_of (item : TextItem) : Row :=
  {| x := nth 4 (transform item) Double.NaN;
     y := nth 5 (transform item) Double.NaN;
     text := trim (str item) |}.

(** [Array.prototype.sort] is stable: an element is placed before the
    first one it does not compare greater than.  A comparator result that
    is NaN counts as 0. *)
Fixpoint insert_by {A : Type} (cmp : A -> A -> Double.double) (a : A) (l : list A)
  : list A :=
  match l with
  | [] => [a]
  | b :: l' =>
      if Double.ltb Double.zero (cmp a b) then b :: insert_by cmp a l' else a :: l
  end.

Definition sort_by {A : Type} (cmp : A -> A -> Double.double) (l : list A) : list A :=
  fold_right (insert_by cmp) [] l.

(** [(a, b) => b.y - a.y || a.x - b.x] *)
Definition compare_rows (a b : Row) : Double.double :=
  Double.first_truthy (Double.sub (y b) (y a)) (Double.sub (x a) (x b)).

Record Part := { part_x : Double.double; part_text : js_string }.
Record Line := { line_y : Double.double; parts : list Part }.

(** [const lineTol = 2.5] *)
Definition lineTol : Double.double := Double.of_dyadic 5 (-1).

(** [Math.abs(candidate.y - row.y) <= lineTol] *)
Definition near (row : Row) (candidate : Line) : bool :=
  Double.leb (Double.abs (Double.sub (line_y candidate) (y row))) lineTol.

Definition part_of (row : Row) : Part := {| part_x := x row; part_text := text row |}.

(** The body of the loop over the rows: [lines.find] returns the first
    line within the tolerance, which is extended in place; without such a
    line a new one is pushed. *)
Definition place_row (lines : list Line) (row : Row) : list Line :=
  match list_find (fun candidate => Is_true (near row candidate)) lines with
  | Some (i, line) =>
      <[ i := {| line_y := line_y line; parts := parts line ++ [part_of row] |} ]> lines
  | None => lines ++ [ {| line_y := y row; parts := [part_of row] |} ]
  end.

Definition group_lines (rows : list Row) : list Line :=
  fold_left place_row rows [].

(** [(a, b) => a.x - b.x] *)
Definition compare_parts (a b : Part) : Double.double :=
  Double.sub (part_x a) (part_x b).

Definition render_line (line : Line) : js_string :=
  join [SPACE] (List.map part_text (sort_by compare_parts (parts line))).

Definition render_lines (lines : list Line) : js_string :=
  join [LF] (List.map render_line lines).

Definition reading_order (items : list TextItem) : js_string :=
  render_lines (group_lines (sort_by compare_rows (List.map row_of items))).

(** The [pagerender] callback; [None] is a page whose [getTextContent]
    fails, which the [catch] turns into the empty string. *)
Definition pagerender (content : option (list TextItem)) : js_string :=
  match content with
  | Some items => reading_order items
  | None => []
  end.

(** The line that a row joins, extended by the row; the line that a row
    starts. *)
Definition extend_line (line : Line) (row : Row) : Line :=
  {| line_y := line_y line; parts := parts line ++ [part_of row] |}.

Definition new_line (row : Row) : Line :=
  {| line_y := y row; parts := [part_of row] |}.

(** Both coordinates of a row are finite numbers, as the coordinates of
    the text of a page are. *)
Definition finite_position (row : Row) : bool :=
  Double.is_finite (x row) && Double.is_finite (y row).

Definition finite_positions (rows : list Row) : bool := forallb finite_position rows.

(** An item at the point [(px, py)] of the page. *)
Definition item_at (px py : Double.double) (s : string) : TextItem :=
  {| str := lit s;
     transform := [Double.of_Z 1; Double.of_Z 0; Double.of_Z 0; Double.of_Z 1; px; py] |}.

(** The items of the example in the specification. *)
Definition item (px py : Z) (s : string) : TextItem :=
  item_at (Double.of_Z px) (Double.of_Z py) s.

Definition example_items : list TextItem :=
  [item 50 100 "World"; item 0 100 "Hello"; item 0 50 "Second"].

(** Two items whose heights, 2.5 and [- 2 ^ -60], lie more than 2.5 apart;
    their difference rounds to 2.5. *)
Definition upper_item : TextItem := item_at (Double.of_Z 0) (Double.of_dyadic 5 (-1)) "upper".
Definition lower_item : TextItem :=
  item_at (Double.of_Z 10) (Double.of_dyadic (-1) (-60)) "lower".

End PdfReadingOrder.

(** ** The reconstruction in the words of the specification *)

Module ReadingOrderSpec.

(** Top of the page first, and from left to right at the same height:
    descending [y], then ascending [x]. *)
Definition in_reading_order (a b : PdfReadingOrder.Row) : Prop :=
  (Double.value (PdfReadingOrder.y b) < Double.value (PdfReadingOrder.y a))%Q
  \/ ((Double.value (PdfReadingOrder.y a) == Double.value (PdfReadingOrder.y b))%Q
      /\ (Double.value (PdfReadingOrder.x a) <= Double.value (PdfReadingOrder.x b))%Q).

(** Ascending [x]. *)
Definition left_to_right (a b : PdfReadingOrder.Row) : Prop :=
  (Double.value (PdfReadingOrder.x a) <= Double.value (PdfReadingOrder.x b))%Q.

(** The tolerance of 2.5 units. *)
Definition TOLERANCE : Double.double := Double.of_dyadic 5 (-1).

(** A height is within the tolerance of the representative height of a
    line: their difference, a double, is at most 2.5 in absolute value. *)
Definition within_tolerance (representative height : Double.double) : bool :=
  Double.leb (Double.abs (Double.sub representative height)) TOLERANCE.

(** A line: its representative height and its members. *)
Record TextLine := { representative : Double.double; members : list PdfReadingOrder.Row }.

(** The lines formed from the rows taken one after the other: a row joins
    the first line so far whose representative height is within the
    tolerance of its own, and it starts a new line, of which its height is
    the representative, exactly when there is no such line. *)
Inductive grouped : list PdfReadingOrder.Row -> list TextLine -> Prop :=
| grouped_none : grouped [] []
| grouped_joins rows lines i line row :
    grouped rows lines ->
    lines !! i = Some line ->
    within_tolerance (representative line) (PdfReadingOrder.y row) = true ->
    (forall j l, lines !! j = Some l -> (j < i)%nat ->
       within_tolerance (representative l) (PdfReadingOrder.y row) = false) ->
    grouped (rows ++ [row])
      (<[ i := {| representative := representative line;
                  members := members line ++ [row] |} ]> lines)
| grouped_starts rows lines row :
    grouped rows lines ->
    (forall l, In l lines ->
       within_tolerance (representative l) (PdfReadingOrder.y row) = false) ->
    grouped (rows ++ [row])
      (lines ++ [ {| representative := PdfReadingOrder.y row; members := [row] |} ]).

(** The text of a line: the texts of its members from left to right, with
    single spaces between them. *)
Definition line_text (line : TextLine) (s : js_string) : Prop :=
  exists ps,
    Permutation ps (members line)
    /\ StronglySorted left_to_right ps
    /\ s = join [SPACE] (List.map PdfReadingOrder.text ps).

(** The line of the renderer that stands for a line. *)
Definition rendered (line : TextLine) : PdfReadingOrder.Line :=
  {| PdfReadingOrder.line_y := representative line;
     PdfReadingOrder.parts := List.map PdfReadingOrder.part_of (members line) |}.

End ReadingOrderSpec.

(** ** Retrieval engine: [retrieveWithFallback] *)

Module Retrieval.

Record DocumentSectionMatch := {
  id : Z;
  document_id : Z;
  section_content : js_string;
  similarity : Q;
  meta : gmap string string
}.

Record TryCfg := { topK : Z; threshold : option Q }.

Definition DEFAULT_TRIES : list TryCfg :=
  [ {| topK := 8; threshold := None |};
    {| topK := 12; threshold := Some (3 # 10) |};
    {| topK := 20; threshold := Some (2 # 10) |} ].

(** The argument object of the remote procedure call. *)
Inductive RpcArgs :=
| TopkArgs (query_embedding : list Q) (top_k : Z)
| FilteredArgs (query_embedding : list Q) (match_threshold : Q) (match_count : Z).

Record PostgrestResponse := {
  data : option (list DocumentSectionMatch);
  error : option PostgrestError
}.

(** [supabase.rpc]: the search collaborator, with its own state. *)
Definition SupabaseClient (World : Type) : Type :=
  string -> RpcArgs -> World -> PostgrestResponse * World.

Definition rpc_name (t : TryCfg) : string :=
  match threshold t with
  | None => "match_document_sections_topk"
  | Some _ => "match_filtered_document_sections"
  end.

Definition rpc_args (queryEmbedding : list Q) (t : TryCfg) : RpcArgs :=
  match threshold t with
  | None => TopkArgs queryEmbedding (topK t)
  | Some th => FilteredArgs queryEmbedding th (topK t)
  end.

Fixpoint retrieveWithFallback {World : Type} (queryEmbedding : list Q)
    (supabase : SupabaseClient World) (tries : list TryCfg) (w : World)
  : Outcome (list DocumentSectionMatch) * World :=
  match tries with
  | [] => (Return [], w)
  | t :: rest =>
      let rpc := rpc_name t in
      let args := rpc_args queryEmbedding t in
      let '(response, w') := supabase rpc args w in
      match error response with
      | Some e => (Throw ("RPC error (" +:+ rpc +:+ "): " +:+ message e)%string, w')
      | None =>
          match data response with
          | Some (m :: ms) => (Return (m :: ms), w')
          | _ => retrieveWithFallback queryEmbedding supabase rest w'
          end
      end
  end.

(** A call as the search backend sees it, with the answer it gave. *)
Record Call := { call_rpc : string; call_args : RpcArgs; call_response : PostgrestResponse }.

(** A client that keeps the list of the calls it received. *)
Definition recording {World : Type} (supabase : SupabaseClient World)
  : SupabaseClient (list Call * World) :=
  fun rpc args st =>
    let '(response, w') := supabase rpc args (snd st) in
    (response,
     (fst st ++ [ {| call_rpc := rpc; call_args := args; call_response := response |} ], w')).

(** The request that a tier stands for. *)
Definition request_of (queryEmbedding : list Q) (t : TryCfg) : string * RpcArgs :=
  (rpc_name t, rpc_args queryEmbedding t).

Definition call_request (c : Call) : string * RpcArgs := (call_rpc c, call_args c).

(** The answer carries no match and no error. *)
Definition came_back_empty (r : PostgrestResponse) : Prop :=
  error r = None /\ (data r = None \/ data r = Some []).

(** The run against a recording client that starts with an empty record:
    what the caller gets, and the calls the backend received. *)
Definition outcome_of {World : Type} (queryEmbedding : list Q)
    (supabase : SupabaseClient World) (tries : list TryCfg) (w : World)
  : Outcome (list DocumentSectionMatch) :=
  fst (retrieveWithFallback queryEmbedding (recording supabase) tries ([], w)).

Definition calls_of {World : Type} (queryEmbedding : list Q)
    (supabase : SupabaseClient World) (tries : list TryCfg) (w : World)
  : list Call :=
  fst (snd (retrieveWithFallback queryEmbedding (recording supabase) tries ([], w))).

Definition rpc_error_message (rpc : string) (e : PostgrestError) : string :=
  "RPC error (" +:+ rpc +:+ "): " +:+ message e.

(** How the recorded calls account for the outcome: an empty result means
    that every tier was asked and came back empty; a non-empty result is
    the answer to the last call made, all calls before it having come back
    empty; an error is raised for the answer to the last call made. *)
Definition explains (queryEmbedding : list Q) (tries : list TryCfg)
    (calls : list Call) (out : Outcome (list DocumentSectionMatch)) : Prop :=
  match out with
  | Return [] =>
      List.map call_request calls = List.map (request_of queryEmbedding) tries
      /\ List.Forall (fun c => came_back_empty (call_response c)) calls
  | Return found =>
      exists before last,
        calls = before ++ [last]
        /\ List.Forall (fun c => came_back_empty (call_response c)) before
        /\ error (call_response last) = None
        /\ data (call_response last) = Some found
  | Throw msg =>
      exists before last e,
        calls = before ++ [last]
        /\ List.Forall (fun c => came_back_empty (call_response c)) before
        /\ error (call_response last) = Some e
        /\ msg = rpc_error_message (call_rpc last) e
  end.

(** The three requests of the default tiers. *)
Definition default_requests (queryEmbedding : list Q) : list (string * RpcArgs) :=
  [ ("match_document_sections_topk", TopkArgs queryEmbedding 8);
    ("match_filtered_document_sections", FilteredArgs queryEmbedding (3 # 10) 12);
    ("match_filtered_document_sections", FilteredArgs queryEmbedding (2 # 10) 20) ].

(** Backends for the examples.  The state counts the calls received. *)
Definition a_match : DocumentSectionMatch :=
  {| id := 1; document_id := 7; section_content := lit "Open daily.";
     similarity := 9 # 10; meta := ∅ |}.

Definition found (ms : list DocumentSectionMatch) : PostgrestResponse :=
  {| data := Some ms; error := None |}.

Definition failed (m : string) : PostgrestResponse :=
  {| data := None; error := Some {| message := m |} |}.

(** Answers by position of the call; past the script, nothing is found. *)
Definition scripted (script : list PostgrestResponse) : SupabaseClient nat :=
  fun _ _ n => (nth n script (found []), S n).

(** A backend that finds nothing in tier 1 and fails in tier 2, and the
    two calls it receives. *)
Definition flaky_backend : SupabaseClient nat :=
  scripted [found []; failed "timeout"].

Definition first_call : Call :=
  {| call_rpc := "match_document_sections_topk";
     call_args := TopkArgs [] 8;
     call_response := found [] |}.

Definition second_call : Call :=
  {| call_rpc := "match_filtered_document_sections";
     call_args := FilteredArgs [] (3 # 10) 12;
     call_response := failed "timeout" |}.

End Retrieval.

(** ** Extractors and the ingest worker *)

Module Ingest.

Definition Buffer : Type := list Z.
Definition Embedding : Type := list Q.

Definition PDF_MIME : string := "application/pdf".
Definition DOCX_MIME : string :=
  "application/vnd.openxmlformats-officedocument.wordprocessingml.document".

(** Rows of the two tables, with the columns the worker writes. *)
Record DocumentRow := { status : string; error_message : option string }.

Record SectionRow := {
  document_id : Z;
  section_order : Z;
  section_content : js_string;
  embedding : Embedding;
  meta_source : string
}.

Record Db := { documents : gmap Z DocumentRow; document_sections : list SectionRow }.

(** The object passed to [update] on the table [documents]. *)
Inductive DocumentPatch :=
| PatchError (message : string)   (* { status: "error", error_message } *)
| PatchReady.                     (* { status: "ready" } *)

Definition patch_row (p : DocumentPatch) (row : DocumentRow) : DocumentRow :=
  match p with
  | PatchError m => {| status := "error"; error_message := Some m |}
  | PatchReady => {| status := "ready"; error_message := error_message row |}
  end.

(** The collaborators of one run.  The answers of the embedding provider
    and of the section store are indexed by the position of the chunk,
    which the loop visits once. *)
Record Collaborators := {
  storage_download : string -> option Buffer;
  pdfParse : Buffer -> option (option (list PdfReadingOrder.TextItem) -> js_string)
             -> Outcome (option js_string);
  mammoth_extractRawText : option (Buffer -> Outcome (option js_string));
  embeddings_create : nat -> js_string -> Outcome (list Embedding);
  sections_insert : nat -> SectionRow -> option PostgrestError;
  documents_update : Z -> DocumentPatch -> option PostgrestError
}.

Record Request := { documentId : Z; storagePath : string; mimetype : string }.

Inductive NextResponse :=
| Stored (documentId : Z)   (* status 200, "Document stored successfully." *)
| NotOk.                    (* status 500, { ok: false } *)

Definition status_code (r : NextResponse) : Z :=
  match r with Stored _ => 200 | NotOk => 500 end.

(** Computations over the database that return or throw. *)
Definition Eff (A : Type) : Type := Db -> Outcome A * Db.

Definition ret {A : Type} (a : A) : Eff A := fun db => (Return a, db).
Definition throw {A : Type} (m : string) : Eff A := fun db => (Throw m, db).
Definition lift {A : Type} (o : Outcome A) : Eff A := fun db => (o, db).
Definition bind {A B : Type} (m : Eff A) (k : A -> Eff B) : Eff B :=
  fun db =>
    match m db with
    | (Return a, db') => k a db'
    | (Throw e, db') => (Throw e, db')
    end.

Notation "'await' x <- m ; k" := (bind m (fun x => k))
  (at level 10, x name, m at level 100, k at level 200).

(** [supabase.from("document_sections").insert([row])] *)
Definition insert_section (c : Collaborators) (index : nat) (row : SectionRow)
  : Eff (option PostgrestError) :=
  fun db =>
    match sections_insert c index row with
    | Some e => (Return (Some e), db)
    | None =>
        (Return None,
         {| documents := documents db;
            document_sections := document_sections db ++ [row] |})
    end.

(** [supabase.from("documents").update(patch).eq("id", documentId)] *)
Definition update_document (c : Collaborators) (documentId : Z) (p : DocumentPatch)
  : Eff (option PostgrestError) :=
  fun db =>
    match documents_update c documentId p with
    | Some e => (Return (Some e), db)
    | None =>
        (Return None,
         {| documents := alter (patch_row p) documentId (documents db);
            document_sections := document_sections db |})
    end.

Definition STORE_SECTIONS_MESSAGE : string := "We could not store the vectorized sections.".

(** The row inserted for the chunk at position [index]. *)
Definition section_row (documentId : Z) (index : nat) (chunk : js_string)
    (embedding : Embedding) : SectionRow :=
  {| document_id := documentId;
     section_order := Z.of_nat index + 1;
     section_content := chunk;
     embedding := embedding;
     meta_source := "upload" |}.

(** The loop over the chunks, from position [index] on. *)
Fixpoint process_chunks (c : Collaborators) (documentId : Z) (index : nat)
    (chunks : list js_string) : Eff unit :=
  match chunks with
  | [] => ret tt
  | chunk :: rest =>
      await data <- lift (embeddings_create c index chunk);
      match head data with
      | None => process_chunks c documentId (S index) rest
      | Some embedding =>
          await sectionError <-
            insert_section c index (section_row documentId index chunk embedding);
          match sectionError with
          | Some e => throw (or_else (message e) STORE_SECTIONS_MESSAGE)
          | None => process_chunks c documentId (S index) rest
          end
      end
  end.

(** The message of the [TypeError] raised by [file!.arrayBuffer()] when
    the download returned no file. *)
Definition NULL_FILE_MESSAGE : string :=
  "Cannot read properties of null (reading 'arrayBuffer')".

(** The [catch] around the extraction: a failure counts as empty text. *)
Definition text_or_empty (o : Outcome js_string) : js_string :=
  match o with
  | Return t => t
  | Throw _ => []
  end.

Definition from_option (o : option js_string) : js_string :=
  match o with Some t => t | None => [] end.

(** The [catch] of the worker: the status update, whose own result is not
    looked at, and the 500 response. *)
Definition respond (c : Collaborators) (documentId : Z) (run : Eff unit)
  : Db -> NextResponse * Db :=
  fun db =>
    match run db with
    | (Return _, db') => (Stored documentId, db')
    | (Throw m, db') => (NotOk, snd (update_document c documentId (PatchError m) db'))
    end.

(** [src/app/api/ingest-worker/route.ts] *)
Module Worker.

Definition extractTextFromFile (c : Collaborators) (buffer : Buffer) (mimeType : string)
  : Outcome js_string :=
  if String.eqb mimeType PDF_MIME then
    match pdfParse c buffer None with
    | Return text => Return (sanitizeText (from_option text))
    | Throw m => Throw m
    end
  else if String.eqb mimeType DOCX_MIME then
    match mammoth_extractRawText c with
    | None => Return []
    | Some extract =>
        match extract buffer with
        | Return value => Return (sanitizeText (from_option value))
        | Throw m => Throw m
        end
    end
  else Return [].

Definition run (c : Collaborators) (req : Request) : Eff unit :=
  match storage_download c (storagePath req) with
  | None => throw NULL_FILE_MESSAGE
  | Some buffer =>
      let extractedText := text_or_empty (extractTextFromFile c buffer (mimetype req)) in
      if negb (len (trim extractedText) =? 0) then
        process_chunks c (documentId req) 0
          (splitIntoChunks extractedText DEFAULT_MAX_CHUNK_SIZE)
      else ret tt
  end.

Definition POST (c : Collaborators) (req : Request) : Db -> NextResponse * Db :=
  respond c (documentId req) (run c req).

End Worker.

(** The worker that imports [extractTextFromFile] and [splitIntoChunks]
    from [src/utils/index.ts]. *)
Module UtilsWorker.

Definition extractPdfTextInReadingOrder (c : Collaborators) (buffer : Buffer)
  : Outcome js_string :=
  match pdfParse c buffer (Some PdfReadingOrder.pagerender) with
  | Return text => Return (from_option text)
  | Throw m => Throw m
  end.

Definition extractTextFromFile (c : Collaborators) (buffer : Buffer) (mimeType : string)
  : Outcome js_string :=
  if String.eqb mimeType PDF_MIME then
    match extractPdfTextInReadingOrder c buffer with
    | Return text => Return (sanitizeText text)
    | Throw m => Throw m
    end
  else if String.eqb mimeType DOCX_MIME then
    match mammoth_extractRawText c with
    | None => Return []
    | Some extract =>
        match extract buffer with
        | Return value => Return (sanitizeText (from_option value))
        | Throw m => Throw m
        end
    end
  else Return [].

Definition run (c : Collaborators) (req : Request) : Eff unit :=
  match storage_download c (storagePath req) with
  | None => throw NULL_FILE_MESSAGE
  | Some buffer =>
      let extractedText := text_or_empty (extractTextFromFile c buffer (mimetype req)) in
      await done <- (if negb (len (trim extractedText) =? 0) then
              process_chunks c (documentId req) 0
                (splitIntoChunks extractedText DEFAULT_MAX_CHUNK_SIZE)
            else throw STORE_SECTIONS_MESSAGE);
      await errorUpdate <- update_document c (documentId req) PatchReady;
      match errorUpdate with
      | Some _ => throw "Can't update document status"
      | None => ret tt
      end
  end.

Definition POST (c : Collaborators) (req : Request) : Db -> NextResponse * Db :=
  respond c (documentId req) (run c req).

End UtilsWorker.

(** Status of a document in the table, if it is there. *)
Definition status_of (db : Db) (documentId : Z) : option string :=
  status <$> documents db !! documentId.

Definition error_message_of (db : Db) (documentId : Z) : option string :=
  documents db !! documentId ≫= error_message.

(** The chunk at position [index] is embedded without an exception and,
    when an embedding comes back, its section is stored; and so on for the
    chunks after it. *)
Fixpoint go_through (c : Collaborators) (documentId : Z) (index : nat)
    (chunks : list js_string) : bool :=
  match chunks with
  | [] => true
  | chunk :: rest =>
      match embeddings_create c index chunk with
      | Throw _ => false
      | Return data =>
          match head data with
          | None => true
          | Some embedding =>
              match sections_insert c index (section_row documentId index chunk embedding) with
              | None => true
              | Some _ => false
              end
          end
      end && go_through c documentId (S index) rest
  end.

(** The rows of the chunks for which an embedding comes back. *)
Fixpoint rows_for (c : Collaborators) (documentId : Z) (index : nat)
    (chunks : list js_string) : list SectionRow :=
  match chunks with
  | [] => []
  | chunk :: rest =>
      match embeddings_create c index chunk with
      | Return (embedding :: _) =>
          section_row documentId index chunk embedding
          :: rows_for c documentId (S index) rest
      | _ => rows_for c documentId (S index) rest
      end
  end.

(** The database with [rows] appended to the table of sections. *)
Definition with_sections (db : Db) (rows : list SectionRow) : Db :=
  {| documents := documents db; document_sections := document_sections db ++ rows |}.

(** The message that the specification gives for a document without
    text. *)
Definition SPEC_NO_TEXT_MESSAGE : string := "no extractable text".

(** Collaborators for the examples: a Word document whose raw text is
    [raw], an embedding for every chunk, a section store that fails as
    [insert_error] says, a document store that applies every update. *)
Definition docx_collaborators (raw : js_string)
    (insert_error : nat -> option PostgrestError) : Collaborators :=
  {| storage_download := fun _ => Some [];
     pdfParse := fun _ _ => Return (Some raw);
     mammoth_extractRawText := Some (fun _ => Return (Some raw));
     embeddings_create := fun _ _ => Return [[1 # 2]%Q];
     sections_insert := fun index _ => insert_error index;
     documents_update := fun _ _ => None |}.

Definition docx_request : Request :=
  {| documentId := 7; storagePath := "uploads/menu.docx"; mimetype := DOCX_MIME |}.

Definition queued_db : Db :=
  {| documents := {[ 7 := {| status := "queued"; error_message := None |} ]};
     document_sections := [] |}.

(** A sentence of 201 code units, and a text of three of them, which makes
    three chunks under the default budget of 300. *)
Definition long_sentence : js_string := repeat 97 200 ++ [46].

Definition three_sentences : js_string :=
  long_sentence ++ [SPACE] ++ long_sentence ++ [SPACE] ++ long_sentence.

(** The section store refuses the second chunk. *)
Definition second_insert_fails (index : nat) : option PostgrestError :=
  if Nat.eqb index 1 then Some {| message := "duplicate key" |} else None.

(** Three runs: a document of three chunks whose second section is
    refused, a document whose text is white space, a document of one
    chunk that is stored. *)
Definition failing_docx : Collaborators :=
  docx_collaborators three_sentences second_insert_fails.

Definition blank_docx : Collaborators :=
  docx_collaborators (lit "  ") (fun _ => None).

Definition hello_docx : Collaborators :=
  docx_collaborators (lit "Hello world.") (fun _ => None).

End Ingest.

Import Ingest.

(** ** Notions for the further properties of the text functions *)

Module Content.

(** The code units of a string that are not white space, in their order. *)
Definition visible (s : js_string) : js_string :=
  List.filter (fun c => negb (is_white_space c)) s.

(** The string is empty or holds white space only. *)
Definition blank (s : js_string) : bool := forallb is_white_space s.

(** No group could have taken the first sentence of the group after it. *)
Fixpoint tight (maxChunkSize : Z) (groups : list (list js_string)) : Prop :=
  match groups with
  | [] => True
  | g :: rest =>
      match rest with
      | [] => True
      | h :: _ =>
          (forall s, head h = Some s -> maxChunkSize < len (join_space g) + 1 + len s)
          /\ tight maxChunkSize rest
      end
  end.

(** The text of the chunker examples. *)
Definition five_sentences : js_string :=
  lit "One. Two!  Three? four
Five.".

End Content.

Import Content.

(** ** Notions for the further properties of the page renderer *)

Module PageLayout.

(** Two rows sit at the same point of the page. *)
Definition same_position (a b : PdfReadingOrder.Row) : bool :=
  Qeq_bool (Double.value (PdfReadingOrder.x a)) (Double.value (PdfReadingOrder.x b))
  && Qeq_bool (Double.value (PdfReadingOrder.y a)) (Double.value (PdfReadingOrder.y b)).

(** No two rows of the list sit at the same point. *)
Fixpoint distinct_positions (rows : list PdfReadingOrder.Row) : bool :=
  match rows with
  | [] => true
  | r :: rest =>
      forallb (fun r' => negb (same_position r r')) rest && distinct_positions rest
  end.

(** The second height lies below the first by more than the tolerance. *)
Definition clearly_below (upper lower : Double.double) : Prop :=
  (Double.value lower < Double.value upper - (5 # 2))%Q.


(** The lines that the renderer forms for the items of a page. *)
Definition page_lines (items : list PdfReadingOrder.TextItem) : list PdfReadingOrder.Line :=
  PdfReadingOrder.group_lines
    (PdfReadingOrder.sort_by PdfReadingOrder.compare_rows
       (List.map PdfReadingOrder.row_of items)).

End PageLayout.

(** ** The question endpoint: [POST] of [src/app/api/ask-question/route.tsx] *)

Module AskQuestion.

Record ChatMessage := { role : string; content : js_string }.

Record ChatRequest := {
  model : string;
  temperature : Z;
  max_completion_tokens : Z;
  messages : list ChatMessage
}.

(** The collaborators of one request: the embedding provider (the [data]
    of its answer), the search backend, and the chat completion (the
    [message.content] of each of its [choices]). *)
Record Collaborators (World : Type) := {
  embeddings_create : js_string -> Outcome (list (list Q));
  supabase : Retrieval.SupabaseClient World;
  chat_completions_create : ChatRequest -> Outcome (list (option js_string))
}.
Arguments embeddings_create {World} _ _.
Arguments supabase {World} _ _ _ _.
Arguments chat_completions_create {World} _ _.

Inductive Body :=
| MessageBody (answer : option js_string)   (* { message: answer } *)
| ErrorBody (error : string).               (* { error: ... } *)

(** [NextResponse.json(body, { status })] *)
Record JsonResponse := { status : Z; body : Body }.

(** [matchingSections.map((section) => section.section_content).join("\n\n")] *)
Definition context_of (matchingSections : list Retrieval.DocumentSectionMatch) : js_string :=
  join [LF; LF] (List.map Retrieval.section_content matchingSections).

Definition SYSTEM_PROMPT : js_string :=
  lit "Please use the context to improve your ability to answer the question".

(** The template literal of the user message, with its line breaks and
    indentation. *)
Definition user_prompt (context message : js_string) : js_string :=
  [LF] ++ repeat SPACE 16
  ++ lit "Using the following informtion please answer the question: "
  ++ [LF] ++ repeat SPACE 16 ++ lit "Context: " ++ context
  ++ [LF] ++ repeat SPACE 16 ++ lit "Question: " ++ message
  ++ [LF] ++ repeat SPACE 12.

Definition chat_request (context message : js_string) : ChatRequest :=
  {| model := "gpt-4o-mini";
     temperature := 1;
     max_completion_tokens := 100;
     messages := [ {| role := "system"; content := SYSTEM_PROMPT |};
                   {| role := "user"; content := user_prompt context message |} ] |}.

(** Messages of the [TypeError] raised by [data[0].embedding] and by
    [choices[0].message] on an empty array. *)
Definition NO_EMBEDDING_MESSAGE : string :=
  "Cannot read properties of undefined (reading 'embedding')".
Definition NO_CHOICE_MESSAGE : string :=
  "Cannot read properties of undefined (reading 'message')".

(** The body of the [try]; [request] is the outcome of
    [request.json()], reduced to its field [message]. *)
Definition answer_question {World : Type} (c : Collaborators World)
    (request : Outcome js_string) (w : World) : Outcome JsonResponse * World :=
  match request with
  | Throw m => (Throw m, w)
  | Return message =>
      match embeddings_create c message with
      | Throw m => (Throw m, w)
      | Return [] => (Throw NO_EMBEDDING_MESSAGE, w)
      | Return (questionEmbedding :: _) =>
          match Retrieval.retrieveWithFallback questionEmbedding (supabase c)
                  Retrieval.DEFAULT_TRIES w with
          | (Throw m, w') => (Throw m, w')
          | (Return matchingSections, w') =>
              match chat_completions_create c
                      (chat_request (context_of matchingSections) message) with
              | Throw m => (Throw m, w')
              | Return [] => (Throw NO_CHOICE_MESSAGE, w')
              | Return (answer :: _) =>
                  (Return {| status := 200; body := MessageBody answer |}, w')
              end
          end
      end
  end.

(** The response that the [catch] builds. *)
Definition error_response (m : string) : JsonResponse :=
  {| status := 500; body := ErrorBody (or_else m "Failed to store message") |}.

(** The handler: the [catch] builds its response without returning it, so
    the handler returns [undefined] ([None]) there. *)
Definition POST {World : Type} (c : Collaborators World)
    (request : Outcome js_string) (w : World) : option JsonResponse * World :=
  match answer_question c request w with
  | (Return response, w') => (Some response, w')
  | (Throw m, w') => let built := error_response m in (None, w')
  end.

(** A run for the examples: the search backend fails in tier 2. *)
Definition flaky_search : Collaborators nat :=
  {| embeddings_create := fun _ => Return [[1 # 2]%Q];
     supabase := Retrieval.flaky_backend;
     chat_completions_create := fun _ => Return [Some (lit "We open at nine.")] |}.

(** A run where tier 2 finds one section. *)
Definition helpful_search : Collaborators nat :=
  {| embeddings_create := fun _ => Return [[1 # 2]%Q];
     supabase := Retrieval.scripted [Retrieval.found []; Retrieval.found [Retrieval.a_match]];
     chat_completions_create :=
       fun r => match messages r with
                | [_; u] => Return [Some (content u)]
                | _ => Return []
                end |}.

End AskQuestion.

(** ** Runs of the ingest worker for the examples *)

Module IngestRuns.

(** The storage has no file under the path. *)
Definition no_file : Collaborators :=
  {| storage_download := fun _ => None;
     pdfParse := fun _ _ => Return None;
     mammoth_extractRawText := None;
     embeddings_create := fun _ _ => Return [[1 # 2]%Q];
     sections_insert := fun _ _ => None;
     documents_update := fun _ _ => None |}.

(** The Word library fails on the file. *)
Definition corrupt_docx : Collaborators :=
  {| storage_download := fun _ => Some [];
     pdfParse := fun _ _ => Throw "bad XRef";
     mammoth_extractRawText := Some (fun _ => Throw "not a zip file");
     embeddings_create := fun _ _ => Return [[1 # 2]%Q];
     sections_insert := fun _ _ => None;
     documents_update := fun _ _ => None |}.

(** Three chunks; the embedding provider fails on the second. *)
Definition throttled_docx : Collaborators :=
  {| storage_download := fun _ => Some [];
     pdfParse := fun _ _ => Return (Some three_sentences);
     mammoth_extractRawText := Some (fun _ => Return (Some three_sentences));
     embeddings_create :=
       fun index _ => if Nat.eqb index 1 then Throw "rate limit" else Return [[1 # 2]%Q];
     sections_insert := fun _ _ => None;
     documents_update := fun _ _ => None |}.

(** Three chunks, all stored. *)
Definition stored_docx : Collaborators :=
  docx_collaborators three_sentences (fun _ => None).

(** Three chunks, all stored; the document store refuses the update to
    [ready] and takes the one to [error]. *)
Definition locked_docx : Collaborators :=
  {| storage_download := fun _ => Some [];
     pdfParse := fun _ _ => Return (Some three_sentences);
     mammoth_extractRawText := Some (fun _ => Return (Some three_sentences));
     embeddings_create := fun _ _ => Return [[1 # 2]%Q];
     sections_insert := fun _ _ => None;
     documents_update :=
       fun _ p => match p with
                  | PatchReady => Some {| message := "row is locked" |}
                  | PatchError _ => None
                  end |}.

(** Three chunks; the embedding provider returns no embedding for any. *)
Definition mute_docx : Collaborators :=
  {| storage_download := fun _ => Some [];
     pdfParse := fun _ _ => Return (Some three_sentences);
     mammoth_extractRawText := Some (fun _ => Return (Some three_sentences));
     embeddings_create := fun _ _ => Return [];
     sections_insert := fun _ _ => None;
     documents_update := fun _ _ => None |}.

Definition queued_row : DocumentRow := {| status := "queued"; error_message := None |}.

(** Rows of one document in strictly increasing [section_order], from 1
    on. *)
Definition well_formed (id : Z) (rows : list SectionRow) : Prop :=
  StronglySorted (fun a b => section_order a < section_order b) rows
  /\ List.Forall (fun r => document_id r = id /\ 1 <= section_order r) rows.

End IngestRuns.

(** ** Storage paths: [slugify] and [buildStoragePath] of the upload routes *)

Module StoragePath.

Definition HYPHEN : Z := 45.
Definition DOT : Z := 46.
Definition UNDERSCORE : Z := 95.

(** [\w] without the unicode flag: ASCII letters, digits and underscore. *)
Definition is_word (c : Z) : bool :=
  ((48 <=? c) && (c <=? 57)) || ((65 <=? c) && (c <=? 90))
  || ((97 <=? c) && (c <=? 122)) || (c =? UNDERSCORE).

(** [[\w\s-]], the class whose complement the first [replace] deletes. *)
Definition kept (c : Z) : bool := is_word c || is_white_space c || (c =? HYPHEN).

(** [[\s_-]], the class of the separators. *)
Definition is_separator (c : Z) : bool :=
  is_white_space c || (c =? UNDERSCORE) || (c =? HYPHEN).

(** [.replace(/[\s_-]+/g, "-")]: every maximal run of separators becomes
    one hyphen; [in_run] holds inside a run. *)
Fixpoint collapse_separators (in_run : bool) (s : js_string) : js_string :=
  match s with
  | [] => []
  | c :: t =>
      if is_separator c then
        if in_run then collapse_separators true t
        else HYPHEN :: collapse_separators true t
      else c :: collapse_separators false t
  end.

(** [.replace(/^-+|-+$/g, "")]: the hyphens at the start and at the end
    go. *)
Fixpoint strip_start_hyphens (s : js_string) : js_string :=
  match s with
  | [] => []
  | c :: t => if c =? HYPHEN then strip_start_hyphens t else s
  end.

Fixpoint strip_end_hyphens (s : js_string) : js_string :=
  match s with
  | [] => []
  | c :: t =>
      match strip_end_hyphens t with
      | [] => if c =? HYPHEN then [] else [c]
      | t' => c :: t'
      end
  end.

(** Lower case of an ASCII code unit. *)
Definition to_lower_ascii (c : Z) : Z :=
  if (65 <=? c) && (c <=? 90) then c + 32 else c.

(** [s.lastIndexOf(c)]: the index of the last occurrence, or -1. *)
Fixpoint lastIndexOf (c : Z) (s : js_string) : Z :=
  match s with
  | [] => -1
  | h :: t =>
      let r := lastIndexOf c t in
      if 0 <=? r then r + 1 else if h =? c then 0 else -1
  end.

(** [s.slice(i)] and [s.slice(0, i)] for an index [0 <= i <= s.length]. *)
Definition slice_from (s : js_string) (i : Z) : js_string := skipn (Z.to_nat i) s.
Definition slice_to (s : js_string) (i : Z) : js_string := firstn (Z.to_nat i) s.

Section Builtins.

(** The built-ins [String.prototype.normalize("NFKD")] and
    [String.prototype.toLowerCase], and the value of [randomUUID()]. *)
Variable nfkd : js_string -> js_string.
Variable toLowerCase : js_string -> js_string.
Variable uuid : js_string.

Definition slugify (value : js_string) : js_string :=
  let slug :=
    strip_end_hyphens
      (strip_start_hyphens
         (collapse_separators false
            (toLowerCase (trim (List.filter kept (nfkd value)))))) in
  match slug with
  | [] => lit "document"
  | _ => slug
  end.

Definition buildStoragePath (filename : js_string) : js_string :=
  let dotIndex := lastIndexOf DOT filename in
  let extension :=
    if 0 <=? dotIndex then toLowerCase (slice_from filename dotIndex) else [] in
  let baseName := if 0 <=? dotIndex then slice_to filename dotIndex else filename in
  let safeName := slugify baseName in
  lit "uploads/" ++ uuid ++ [HYPHEN] ++ safeName ++ extension.

End Builtins.

(** A lower-case letter, a digit or a hyphen. *)
Definition slug_char (c : Z) : bool :=
  ((48 <=? c) && (c <=? 57)) || ((97 <=? c) && (c <=? 122)) || (c =? HYPHEN).

Fixpoint no_double_hyphen (s : js_string) : bool :=
  match s with
  | [] => true
  | c :: t =>
      match t with
      | [] => true
      | d :: _ => negb ((c =? HYPHEN) && (d =? HYPHEN)) && no_double_hyphen t
      end
  end.

(** Words of lower-case letters and digits, joined by single hyphens. *)
Definition slug_shaped (s : js_string) : Prop :=
  s <> []
  /\ List.Forall (fun c => slug_char c = true) s
  /\ head s <> Some HYPHEN
  /\ last s <> Some HYPHEN
  /\ no_double_hyphen s = true.

(** What is assumed of [toLowerCase]: on a string of ASCII word characters,
    white space and hyphens it lowers the letters A to Z and changes
    nothing else. *)
Definition lowers_ascii (toLowerCase : js_string -> js_string) : Prop :=
  forall s, forallb kept s = true -> toLowerCase s = List.map to_lower_ascii s.

(** Stand-ins for the examples: no decomposition, ASCII lower case. *)
Definition ascii_lower (s : js_string) : js_string := List.map to_lower_ascii s.
Definition no_decomposition (s : js_string) : js_string := s.
Definition a_uuid : js_string := lit "3f2a".

End StoragePath.

(** ** The upload routes: [POST] of the send-file route and of
    [app/api/enqueue-ingest/route.ts] *)

Module Upload.

Definition MAX_FILE_SIZE_BYTES : Z := 15 * 1024 * 1024.

(** [SUPPORTED_MIME_TYPES.has(type)] *)
Definition supported (type : string) : bool :=
  String.eqb type PDF_MIME || String.eqb type DOCX_MIME.

Record File := { name : js_string; size : Z; type : string; content : Buffer }.

(** [FormDataEntryValue | null] *)
Inductive FormDataEntryValue :=
| NoEntry
| TextEntry (text : js_string)
| FileEntry (file : File).

(** The three entries that the route reads from the form. *)
Record FormData := {
  title_entry : FormDataEntryValue;
  file_entry : FormDataEntryValue;
  metadata_entry : FormDataEntryValue
}.

(** The metadata object: [{}], or what [JSON.parse] and the schema make of
    the given text. *)
Inductive Metadata :=
| EmptyObject
| ParsedObject (json : js_string).

(** The row inserted into [documents]. *)
Record NewDocument := {
  title : js_string;
  filename : js_string;
  mimetype : string;
  storage_path : js_string;
  bytes : Z;
  source : string;
  metadata : Metadata;
  status : string
}.

(** The body of the job for the ingest worker. *)
Record Job := { documentId : Z; storagePath : js_string; job_mimetype : string }.

(** Calls made to the collaborators, in their order. *)
Inductive Call :=
| Upload (path : js_string) (content : Buffer) (contentType : string)
| Insert (row : NewDocument)
| Publish (url : js_string) (body : Job).

(** What the insert with [.select(...).single()] gives back. *)
Inductive Inserted :=
| InsertedRow (id : Z) (storage_path : js_string) (mimetype : string)
| InsertFailed (error : PostgrestError).

(** The platform of one request: the built-ins and the environment, and
    the answers of storage, database and queue. *)
Record Platform := {
  nfkd : js_string -> js_string;
  toLowerCase : js_string -> js_string;
  randomUUID : js_string;
  NEXT_PUBLIC_BASE_URL : option js_string;
  VERCEL_URL : option js_string;
  is_json_object : js_string -> bool;
  storage_upload : js_string -> Buffer -> string -> option PostgrestError;
  documents_insert : NewDocument -> Inserted;
  publishJSON : js_string -> Job -> option string
}.

Inductive Body :=
| ErrorBody (error : string)
| QueuedBody (documentId : Z).   (* { documentId, status: "queued" } *)

Record JsonResponse := { status_code : Z; body : Body }.

Definition bad_request (m : string) : JsonResponse :=
  {| status_code := 400; body := ErrorBody m |}.
Definition server_error (m : string) : JsonResponse :=
  {| status_code := 500; body := ErrorBody m |}.
Definition accepted (id : Z) : JsonResponse :=
  {| status_code := 202; body := QueuedBody id |}.

Definition METADATA_MESSAGE : string := "Metadata must be a valid JSON object.".

(** [parseMetadata]: an absent, non-text or blank entry is [{}]. *)
Definition parseMetadata (p : Platform) (value : FormDataEntryValue) : Outcome Metadata :=
  match value with
  | TextEntry text =>
      if len text =? 0 then Return EmptyObject
      else if len (trim text) =? 0 then Return EmptyObject
      else if is_json_object p text then Return (ParsedObject text)
      else Throw METADATA_MESSAGE
  | _ => Return EmptyObject
  end.

Definition worker_url (base : js_string) : js_string := base ++ lit "/api/ingest-worker".

(** An environment variable inside a template literal: an unset one reads
    as the text undefined. *)
Definition interpolated (variable : option js_string) : js_string :=
  match variable with
  | Some value => value
  | None => lit "undefined"
  end.

(** The send-file route that hands the ingestion to the queue.
    [request.formData()] is the first step inside the [try]: for a body
    that is no form it throws, and the [catch] answers 500 with the
    message of the error. *)
Module SendFile.

Definition POST (p : Platform) (request : Outcome FormData) : JsonResponse * list Call :=
  match request with
  | Throw message => (server_error message, [])
  | Return form =>
  match title_entry form with
  | TextEntry titleField =>
      if len (trim titleField) =? 0
      then (bad_request "The document title is required.", [])
      else
        match file_entry form with
        | FileEntry fileField =>
            if MAX_FILE_SIZE_BYTES <? size fileField
            then (bad_request "The file exceeds the 15 MB limit.", [])
            else if negb (supported (type fileField))
            then (bad_request "Unsupported file type. Use PDF or Word (.docx).", [])
            else
              match parseMetadata p (metadata_entry form) with
              | Throw message => (bad_request message, [])
              | Return metadata =>
                  let fileBuffer := content fileField in
                  let storagePath :=
                    StoragePath.buildStoragePath (nfkd p) (toLowerCase p) (randomUUID p)
                      (name fileField) in
                  let upload := Upload storagePath fileBuffer (type fileField) in
                  match storage_upload p storagePath fileBuffer (type fileField) with
                  | Some uploadError =>
                      (server_error
                         (or_else (message uploadError)
                            "We could not store the file in Supabase storage."),
                       [upload])
                  | None =>
                      let row :=
                        {| title := trim titleField;
                           filename := name fileField;
                           mimetype := type fileField;
                           storage_path := storagePath;
                           bytes := size fileField;
                           source := "upload";
                           metadata := metadata;
                           status := "queued" |} in
                      match documents_insert p row with
                      | InsertFailed documentError =>
                          (server_error
                             (or_else (message documentError)
                                "We could not register the document in the database."),
                           [upload; Insert row])
                      | InsertedRow documentId _ _ =>
                          let url :=
                            worker_url (interpolated (NEXT_PUBLIC_BASE_URL p)) in
                          let job :=
                            {| documentId := documentId;
                               storagePath := storagePath;
                               job_mimetype := type fileField |} in
                          match publishJSON p url job with
                          | Some message =>
                              (server_error message, [upload; Insert row; Publish url job])
                          | None =>
                              (accepted documentId, [upload; Insert row; Publish url job])
                          end
                      end
                  end
              end
        | _ => (bad_request "You must attach a file.", [])
        end
  | _ => (bad_request "The document title is required.", [])
  end
  end.

End SendFile.

(** [app/api/enqueue-ingest/route.ts] *)
Module Enqueue.

(** The fields read from the JSON body, each with the type the route
    expects (texts and a number); [None] is an absent field. *)
Record EnqueueBody := {
  body_title : option js_string;
  body_storagePath : option js_string;
  body_mimetype : option string;
  body_bytes : option Z;
  body_metadata : option Metadata
}.

(** [s.split("/")]: the pieces between the separators. *)
Fixpoint split_char (sep : Z) (s : js_string) : list js_string :=
  match s with
  | [] => [[]]
  | c :: t => if c =? sep then [] :: split_char sep t else push_head c (split_char sep t)
  end.

Definition SLASH : Z := 47.

(** [storagePath.split("/").pop() ?? "file"] *)
Definition filename_of (storagePath : js_string) : js_string :=
  match last (split_char SLASH storagePath) with
  | Some piece => piece
  | None => lit "file"
  end.

(** [NEXT_PUBLIC_BASE_URL || (VERCEL_URL ? `https://${VERCEL_URL}` :
    "http://localhost:3000")] *)
Definition BASE_URL (p : Platform) : js_string :=
  match NEXT_PUBLIC_BASE_URL p with
  | Some (c :: base) => c :: base
  | _ =>
      match VERCEL_URL p with
      | Some (c :: host) => lit "https://" ++ c :: host
      | _ => lit "http://localhost:3000"
      end
  end.

Definition POST (p : Platform) (request : Outcome EnqueueBody) : JsonResponse * list Call :=
  match request with
  | Throw m => (server_error m, [])
  | Return b =>
      match body_title b, body_storagePath b, body_mimetype b, body_bytes b with
      | Some (t :: title), Some (s :: path), Some mimetype, Some bytes =>
          if String.eqb mimetype "" || (bytes =? 0)
          then (bad_request "Missing fields.", [])
          else
            let title := t :: title in
            let storagePath := s :: path in
            let row :=
              {| title := title;
                 filename := filename_of storagePath;
                 mimetype := mimetype;
                 storage_path := storagePath;
                 bytes := bytes;
                 source := "upload";
                 metadata := match body_metadata b with
                             | Some m => m
                             | None => EmptyObject
                             end;
                 status := "queued" |} in
            match documents_insert p row with
            | InsertFailed docErr => (server_error (message docErr), [Insert row])
            | InsertedRow id stored_path stored_mimetype =>
                let url := worker_url (BASE_URL p) in
                let job := {| documentId := id;
                              storagePath := stored_path;
                              job_mimetype := stored_mimetype |} in
                match publishJSON p url job with
                | Some m => (server_error m, [Insert row; Publish url job])
                | None => (accepted id, [Insert row; Publish url job])
                end
            end
      | _, _, _, _ => (bad_request "Missing fields.", [])
      end
  end.


End Enqueue.

(** A platform for the examples: every collaborator accepts. *)
Definition willing : Platform :=
  {| nfkd := StoragePath.no_decomposition;
     toLowerCase := StoragePath.ascii_lower;
     randomUUID := StoragePath.a_uuid;
     NEXT_PUBLIC_BASE_URL := Some (lit "https://app.example");
     VERCEL_URL := None;
     is_json_object := fun _ => true;
     storage_upload := fun _ _ _ => None;
     documents_insert := fun row => InsertedRow 7 (storage_path row) (mimetype row);
     publishJSON := fun _ _ => None |}.

Definition a_pdf : File :=
  {| name := lit "Menu 2024.PDF"; size := 2048; type := PDF_MIME; content := [37; 80] |}.

Definition a_form : FormData :=
  {| title_entry := TextEntry (lit " Menu ");
     file_entry := FileEntry a_pdf;
     metadata_entry := NoEntry |}.

Definition a_body : Enqueue.EnqueueBody :=
  {| Enqueue.body_title := Some (lit "Menu");
     Enqueue.body_storagePath := Some (lit "uploads/3f2a-menu.pdf");
     Enqueue.body_mimetype := Some PDF_MIME;
     Enqueue.body_bytes := Some 2048;
     Enqueue.body_metadata := None |}.

Definition an_empty_file_body : Enqueue.EnqueueBody :=
  {| Enqueue.body_title := Some (lit "Menu");
     Enqueue.body_storagePath := Some (lit "uploads/3f2a-menu.pdf");
     Enqueue.body_mimetype := Some PDF_MIME;
     Enqueue.body_bytes := Some 0;
     Enqueue.body_metadata := None |}.

End Upload.

(** * Properties *)

(** ** Facts about [trim] and [join] *)

Section JsStringFacts.

#[local] Arguments is_white_space : simpl never.

Lemma trimStart_head s c :
  head (trimStart s) = Some c -> is_white_space c = false.
Proof.
  induction s as [|a s IH]; simpl; [discriminate|].
  destruct (is_white_space a) eqn:Ha; [exact IH|].
  simpl. intros [= <-]. exact Ha.
Qed.

Lemma trimStart_fixed s :
  (forall c, head s = Some c -> is_white_space c = false) -> trimStart s = s.
Proof.
  destruct s as [|a s]; simpl; [reflexivity|].
  intros H. rewrite (H a eq_refl). reflexivity.
Qed.

Lemma trimStart_Forall (P : Z -> Prop) s : Forall P s -> Forall P (trimStart s).
Proof.
  induction 1 as [|a s Ha Hs IH]; simpl; [constructor|].
  destruct (is_white_space a); [exact IH|]. constructor; assumption.
Qed.

Lemma trimEnd_cons c t :
  trimEnd (c :: t) = [] \/ trimEnd (c :: t) = c :: trimEnd t.
Proof.
  simpl. destruct (trimEnd t) eqn:E.
  - destruct (is_white_space c); [left|right]; reflexivity.
  - right. reflexivity.
Qed.

Lemma trimEnd_last s c :
  last (trimEnd s) = Some c -> is_white_space c = false.
Proof.
  induction s as [|a s IH]; simpl; [discriminate|].
  destruct (trimEnd s) as [|b u] eqn:E.
  - destruct (is_white_space a) eqn:Ha; simpl; [discriminate|].
    intros [= <-]. exact Ha.
  - intros H. apply IH. exact H.
Qed.

Lemma trimEnd_head_kept a s :
  is_white_space a = false -> head (trimEnd (a :: s)) = Some a.
Proof.
  intros Ha. simpl. destruct (trimEnd s); [rewrite Ha|]; reflexivity.
Qed.

Lemma trimEnd_fixed s :
  (forall c, last s = Some c -> is_white_space c = false) -> trimEnd s = s.
Proof.
  induction s as [|a s IH]; [reflexivity|].
  intros H. simpl. destruct s as [|b u].
  - simpl. rewrite (H a eq_refl). reflexivity.
  - rewrite IH by (intros c Hc; apply H; exact Hc). reflexivity.
Qed.

Lemma trimEnd_Forall (P : Z -> Prop) s : Forall P s -> Forall P (trimEnd s).
Proof.
  induction 1 as [|a s Ha Hs IH]; simpl; [constructor|].
  destruct (trimEnd s) as [|b u].
  - destruct (is_white_space a); repeat constructor; assumption.
  - constructor; assumption.
Qed.

Lemma trim_trimmed s : trimmed (trim s).
Proof.
  unfold trim. split.
  - intros c. destruct (trimStart s) as [|a t] eqn:E; [discriminate|].
    assert (Ha : is_white_space a = false)
      by (apply (trimStart_head s); rewrite E; reflexivity).
    rewrite (trimEnd_head_kept a t Ha). intros [= <-]. exact Ha.
  - apply trimEnd_last.
Qed.

Lemma trim_fixed s : trimmed s -> trim s = s.
Proof.
  intros [Hh Hl]. unfold trim.
  rewrite (trimStart_fixed s Hh). apply trimEnd_fixed, Hl.
Qed.

Lemma trim_Forall (P : Z -> Prop) s : Forall P s -> Forall P (trim s).
Proof. intros H. apply trimEnd_Forall, trimStart_Forall, H. Qed.

Lemma join_empty_sep (parts : list js_string) : join [] parts = concat parts.
Proof.
  induction parts as [|p rest IH]; [reflexivity|].
  simpl. destruct rest as [|q rest'].
  - simpl. rewrite app_nil_r. reflexivity.
  - rewrite IH. reflexivity.
Qed.

Lemma join_cons2 sep (p q : js_string) rest :
  join sep (p :: q :: rest) = p ++ sep ++ join sep (q :: rest).
Proof. reflexivity. Qed.

End JsStringFacts.

(** ** The normalizer *)

Section NormalizerFacts.

Lemma sanitize_pair h l :
  is_high_surrogate h && is_low_surrogate l = true ->
  sanitize_char [h; l] = [h; l] /\ control h = false /\ control l = false.
Proof.
  unfold sanitize_char, codePointAt0, control, is_high_surrogate, is_low_surrogate.
  intros H. rewrite H.
  apply andb_true_iff in H as [Hh Hl].
  apply andb_true_iff in Hh as [Hh1 Hh2]. apply andb_true_iff in Hl as [Hl1 Hl2].
  apply Z.leb_le in Hh1, Hh2, Hl1, Hl2.
  repeat split.
  - replace ((h - 55296) * 1024 + (l - 56320) + 65536 <=? 31) with false
      by (symmetry; apply Z.leb_gt; lia).
    replace ((h - 55296) * 1024 + (l - 56320) + 65536 <=? 159) with false
      by (symmetry; apply Z.leb_gt; lia).
    simpl. rewrite andb_false_r. reflexivity.
  - replace (h <=? 31) with false by (symmetry; apply Z.leb_gt; lia).
    replace (h <=? 159) with false by (symmetry; apply Z.leb_gt; lia).
    simpl. rewrite andb_false_r. reflexivity.
  - replace (l <=? 31) with false by (symmetry; apply Z.leb_gt; lia).
    replace (l <=? 159) with false by (symmetry; apply Z.leb_gt; lia).
    simpl. rewrite andb_false_r. reflexivity.
Qed.

Lemma sanitize_single h :
  sanitize_char [h] = [if control h then SPACE else h].
Proof.
  unfold sanitize_char, codePointAt0, control.
  destruct (_ || _); reflexivity.
Qed.

Lemma array_from_cons2 h l t :
  array_from (h :: l :: t)
  = if is_high_surrogate h && is_low_surrogate l
    then [h; l] :: array_from t
    else [h] :: array_from (l :: t).
Proof. reflexivity. Qed.

(** Going through the code points and back changes each code unit on its
    own. *)
Lemma sanitize_per_unit_bounded n : forall s,
  (length s <= n)%nat ->
  concat (List.map sanitize_char (array_from s))
  = List.map (fun c => if control c then SPACE else c) s.
Proof.
  induction n as [|n IH]; intros s Hn.
  - destruct s; [reflexivity | simpl in Hn; lia].
  - destruct s as [|h [|l t]]; [reflexivity | |].
    + simpl array_from. simpl List.map. rewrite sanitize_single. reflexivity.
    + rewrite array_from_cons2.
      destruct (is_high_surrogate h && is_low_surrogate l) eqn:E.
      * destruct (sanitize_pair h l E) as (Hp & Hh & Hl).
        cbn [List.map concat]. rewrite Hp, Hh, Hl.
        rewrite (IH t) by (simpl in Hn; lia). reflexivity.
      * cbn [List.map concat]. rewrite sanitize_single.
        rewrite (IH (l :: t)) by (simpl in Hn |- *; lia). reflexivity.
Qed.

Lemma cleaned_is_scrubbed s :
  replace_fffd (join [] (List.map sanitize_char (array_from s))) = List.map scrub s.
Proof.
  rewrite join_empty_sep, (sanitize_per_unit_bounded (length s) s (le_n _)).
  unfold replace_fffd. rewrite List.map_map. apply List.map_ext.
  intros c. unfold scrub, blanked. fold (control c).
  destruct (control c); [reflexivity|]. simpl. reflexivity.
Qed.

Lemma scrub_not_blanked c : blanked (scrub c) = false.
Proof.
  unfold scrub. destruct (blanked c) eqn:E; [reflexivity | exact E].
Qed.

End NormalizerFacts.

(** C4 (as the code has it): [sanitizeText] is a total function that returns
    the input in which every C0 control other than tab, line feed and
    carriage return, DEL, every C1 control and every U+FFFD is replaced by
    one space (none of them is removed), trimmed of white space at both
    ends; its result holds none of these characters and no white space at
    either end. *)
Theorem sanitizeText_blanks_then_trims :
  forall input : js_string,
    sanitizeText input = trim (List.map scrub input)
    /\ Forall (fun c => blanked c = false) (sanitizeText input)
    /\ trimmed (sanitizeText input).
Proof.
  intros input.
  assert (E : sanitizeText input = trim (List.map scrub input)).
  { destruct input as [|c t]; [reflexivity|].
    unfold sanitizeText. rewrite cleaned_is_scrubbed. reflexivity. }
  rewrite E. split; [reflexivity|]. split.
  - apply trim_Forall, List.Forall_forall. intros c Hc.
    apply in_map_iff in Hc as (c0 & <- & _). apply scrub_not_blanked.
  - apply trim_trimmed.
Qed.

(** C4 (as the specification words it) fails: a control character inside the
    text is not removed, a space takes its place; and DEL, which is no C0 or
    C1 control, is blanked as well. *)
Lemma sanitizeText_does_not_remove_controls :
  sanitizeText [97; 1; 98] = [97; 32; 98]
  /\ spec_normalize [97; 1; 98] = [97; 98]
  /\ sanitizeText [97; 0x7f; 98] = [97; 32; 98]
  /\ spec_normalize [97; 0x7f; 98] = [97; 0x7f; 98]
  /\ ~ (forall input, sanitizeText input = spec_normalize input).
Proof.
  repeat split; try reflexivity.
  intros H. specialize (H [97; 1; 98]). vm_compute in H. discriminate H.
Qed.

(** ** The chunker *)

Section ChunkerFacts.

Lemma len_app (a b : js_string) : len (a ++ b) = len a + len b.
Proof. unfold len. rewrite length_app. lia. Qed.

Lemma len_zero (s : js_string) : (len s =? 0) = true <-> s = [].
Proof.
  unfold len. rewrite Z.eqb_eq. destruct s; simpl; split; intros H;
    try reflexivity; try discriminate; lia.
Qed.

Lemma len_nonneg (s : js_string) : 0 <= len s.
Proof. unfold len. lia. Qed.

Lemma join_space_app (g h : list js_string) :
  g <> [] -> h <> [] ->
  join_space (g ++ h) = join_space g ++ [SPACE] ++ join_space h.
Proof.
  unfold join_space. intros Hg Hh.
  induction g as [|p g IH]; [congruence|].
  destruct g as [|q g].
  - destruct h as [|r h]; [congruence|]. reflexivity.
  - change ((p :: q :: g) ++ h) with (p :: q :: (g ++ h)).
    rewrite !join_cons2.
    change (q :: g ++ h) with ((q :: g) ++ h).
    rewrite IH by discriminate. rewrite <- !app_assoc. reflexivity.
Qed.

Lemma join_space_nonempty (g : list js_string) :
  g <> [] -> List.Forall (fun s => s <> []) g -> join_space g <> [].
Proof.
  unfold join_space. intros Hg Hall.
  destruct g as [|p [|q g]]; [congruence| |]; inversion Hall; subst.
  - assumption.
  - rewrite join_cons2. destruct p; [congruence | discriminate].
Qed.

Lemma join_space_trimmed (g : list js_string) :
  g <> [] -> List.Forall proper_sentence g -> trimmed (join_space g).
Proof.
  unfold join_space. intros Hg Hall.
  induction g as [|p g IH]; [congruence|].
  inversion Hall as [|? ? [Hp [Hph Hpl]] Hrest]; subst.
  destruct g as [|q g]; [split; assumption|].
  specialize (IH ltac:(discriminate) Hrest) as [_ IHl].
  rewrite join_cons2. split.
  - intros c. rewrite head_app. destruct p as [|a p]; [congruence|].
    simpl. intros [= <-]. apply Hph. reflexivity.
  - intros c. rewrite app_assoc, last_app.
    destruct (last (join [SPACE] (q :: g))) as [d|] eqn:E.
    + intros [= <-]. apply IHl. reflexivity.
    + apply last_None in E. exfalso.
      apply (join_space_nonempty (q :: g)); [discriminate | | exact E].
      eapply List.Forall_impl; [|exact Hrest]. intros s [Hs _]. exact Hs.
Qed.

Lemma join_space_concat (groups : list (list js_string)) :
  List.Forall (fun g => g <> []) groups ->
  join_space (List.map join_space groups) = join_space (concat groups).
Proof.
  induction 1 as [|g groups Hg Hall IH]; [reflexivity|].
  destruct groups as [|h groups].
  - simpl. rewrite app_nil_r. reflexivity.
  - change (List.map join_space (g :: h :: groups))
      with ([join_space g] ++ List.map join_space (h :: groups)).
    rewrite join_space_app by discriminate.
    rewrite IH. change (concat (g :: h :: groups)) with (g ++ concat (h :: groups)).
    rewrite join_space_app; [reflexivity | exact Hg |].
    inversion Hall; subst. simpl. destruct h; [congruence | discriminate].
Qed.

(** Every sentence of the stream is trimmed and not empty. *)
Lemma sentences_proper text : List.Forall proper_sentence (sentences_of text).
Proof.
  unfold sentences_of. apply List.Forall_forall. intros s Hs.
  apply in_flat_map in Hs as (p & _ & Hs).
  apply filter_In in Hs as [Hs Hne].
  apply in_map_iff in Hs as (q & <- & _).
  split; [|apply trim_trimmed].
  destruct (trim q); [discriminate | discriminate].
Qed.

(** The state of the packing loop after a prefix of the stream: the closed
    chunks and the chunk under construction are groups of consecutive
    sentences. *)
Lemma pack_groups maxChunkSize (sentences : list js_string) :
  List.Forall (fun s => s <> []) sentences ->
  exists groups current,
    pack maxChunkSize sentences = (List.map join_space groups, join_space current)
    /\ concat groups ++ current = sentences
    /\ List.Forall (fun g => g <> []) groups
    /\ (sentences <> [] -> current <> [])
    /\ List.Forall (within_budget maxChunkSize) groups
    /\ (current = [] \/ within_budget maxChunkSize current).
Proof.
  induction sentences as [|s l IH] using rev_ind; intros Hall.
  - exists [], []. repeat split; try constructor; try congruence.
  - apply Forall_app in Hall as [Hl Hs]. inversion Hs as [|? ? Hsne _]; subst.
    destruct (IH Hl) as (groups & cur & Hpack & Hcat & Hgne & Hcur & Hbud & Hcb).
    unfold pack in *. rewrite fold_left_app, Hpack. cbn [fold_left pack_step].
    assert (Hcurne : cur <> [] -> join_space cur <> []).
    { intros Hc. apply join_space_nonempty; [exact Hc|].
      subst l. apply Forall_app in Hl as [_ Hl]. exact Hl. }
    destruct (len (join_space cur) =? 0) eqn:Hz.
    + apply len_zero in Hz.
      assert (cur = []) by (destruct cur; [reflexivity | exfalso; apply Hcurne; congruence]).
      subst cur. exists groups, [s]. rewrite app_nil_r in Hcat.
      repeat split; try assumption; try congruence.
      right. left. exists s. reflexivity.
    + assert (Hc : cur <> []).
      { intros ->. unfold join_space in Hz. simpl in Hz. discriminate. }
      destruct (len (join_space cur) + 1 + len s <=? maxChunkSize) eqn:Hfit.
      * exists groups, (cur ++ [s]). apply Z.leb_le in Hfit.
        rewrite join_space_app by (assumption || discriminate).
        repeat split; try assumption.
        -- rewrite app_assoc, Hcat. reflexivity.
        -- intros _. destruct cur; discriminate.
        -- right. right. rewrite join_space_app by (assumption || discriminate).
           rewrite !len_app. unfold join_space at 2. simpl join.
           change (len [SPACE]) with 1. lia.
      * exists (groups ++ [cur]), [s].
        rewrite List.map_app. cbn [List.map].
        repeat split.
        -- rewrite concat_app. simpl. rewrite app_nil_r, Hcat. reflexivity.
        -- apply Forall_app. split; [assumption | constructor; [exact Hc | constructor]].
        -- congruence.
        -- apply Forall_app. split; [assumption|].
           constructor; [|constructor]. destruct Hcb; [congruence | assumption].
        -- right. left. exists s. reflexivity.
Qed.

(** The chunks are the joined groups of a partition of the sentence stream
    into runs of consecutive sentences. *)
Lemma splitIntoChunks_groups text maxChunkSize :
  exists groups,
    splitIntoChunks text maxChunkSize = List.map join_space groups
    /\ concat groups = sentences_of text
    /\ List.Forall (fun g => g <> []) groups
    /\ List.Forall (within_budget maxChunkSize) groups.
Proof.
  pose proof (sentences_proper text) as Hproper.
  assert (Hne : List.Forall (fun s => s <> []) (sentences_of text))
    by (eapply List.Forall_impl; [|exact Hproper]; intros s [Hs _]; exact Hs).
  destruct (pack_groups maxChunkSize _ Hne)
    as (groups & cur & Hpack & Hcat & Hgne & Hcur & Hbud & Hcb).
  unfold splitIntoChunks. rewrite Hpack. cbn [finish].
  destruct cur as [|s cur].
  - exists groups. rewrite app_nil_r in Hcat.
    repeat split; assumption.
  - assert (Htr : trimmed (join_space (s :: cur))).
    { apply join_space_trimmed; [discriminate|].
      rewrite <- Hcat in Hproper. apply Forall_app in Hproper as [_ H]. exact H. }
    rewrite (trim_fixed _ Htr).
    assert (Hnz : join_space (s :: cur) <> []).
    { apply join_space_nonempty; [discriminate|].
      rewrite <- Hcat in Hne. apply Forall_app in Hne as [_ H]. exact H. }
    destruct (len (join_space (s :: cur)) =? 0) eqn:Hz;
      [apply len_zero in Hz; congruence|].
    exists (groups ++ [s :: cur]). rewrite List.map_app. cbn [List.map].
    repeat split.
    + rewrite concat_app. simpl. rewrite app_nil_r. exact Hcat.
    + apply Forall_app. split; [assumption | constructor; [discriminate | constructor]].
    + apply Forall_app. split; [assumption|].
      constructor; [|constructor]. destruct Hcb; [discriminate | assumption].
Qed.

Lemma len_member_le_join (g : list js_string) s :
  In s g -> len s <= len (join_space g).
Proof.
  unfold join_space. induction g as [|p g IH]; [intros []|].
  destruct g as [|q g].
  - intros [<- | []]. simpl. lia.
  - rewrite join_cons2, !len_app. intros [<- | Hin].
    + pose proof (len_nonneg (join [SPACE] (q :: g))). pose proof (len_nonneg [SPACE]). lia.
    + specialize (IH Hin). pose proof (len_nonneg p). pose proof (len_nonneg [SPACE]). lia.
Qed.

End ChunkerFacts.

Example normalizeLineEndings_crlf :
  normalizeLineEndings [97; 13; 10; 98; 13; 99; 13] = [97; 10; 98; 10; 99; 10].
Proof. reflexivity. Qed.

Example split_newlines_keeps_outer_pieces :
  split_newlines [10; 97; 98; 10; 10; 99; 10] = [[]; [97; 98]; [99]; []].
Proof. reflexivity. Qed.

Example split_sentences_after_terminal_only :
  split_sentences (lit "Mr. X went  home!  Ok")
  = [lit "Mr."; lit "X went  home!"; lit "Ok"].
Proof. reflexivity. Qed.

Example splitIntoChunks_blank : splitIntoChunks (lit "
   ") 300 = [].
Proof. reflexivity. Qed.

Example splitIntoChunks_packs :
  splitIntoChunks (lit "One. Two!  Three? four
Five.") 10
  = [lit "One. Two!"; lit "Three?"; lit "four Five."].
Proof. reflexivity. Qed.

Example splitIntoChunks_keeps_long_sentence :
  splitIntoChunks (lit "A sentence over the budget. Hi. Yo.") 8
  = [lit "A sentence over the budget."; lit "Hi. Yo."].
Proof. reflexivity. Qed.

(** C5: every chunk has length at most [maxChunkSize], except a chunk that
    is one single sentence longer than [maxChunkSize]; a sentence longer than
    [maxChunkSize] is never merged with another one nor split: it is a chunk
    on its own.  (It holds for every text and every [maxChunkSize], so also
    for [maxChunkSize > 0].) *)
Theorem chunks_respect_budget_except_single_sentence :
  forall (text : js_string) (maxChunkSize : Z),
  exists groups : list (list js_string),
    splitIntoChunks text maxChunkSize = List.map join_space groups
    /\ concat groups = sentences_of text
    /\ List.Forall
         (fun g => len (join_space g) <= maxChunkSize
                   \/ exists s, g = [s] /\ maxChunkSize < len s) groups
    /\ List.Forall
         (fun g => forall s, In s g -> maxChunkSize < len s -> g = [s]) groups.
Proof.
  intros text maxChunkSize.
  destruct (splitIntoChunks_groups text maxChunkSize) as (groups & Hc & Hcat & _ & Hbud).
  exists groups. repeat split; try assumption.
  - eapply List.Forall_impl; [|exact Hbud]. intros g [[s ->] | Hle].
    + destruct (Z_le_gt_dec (len (join_space [s])) maxChunkSize) as [Hle | Hgt].
      * left. exact Hle.
      * right. exists s. split; [reflexivity|]. unfold join_space in Hgt. simpl in Hgt. lia.
    + left. exact Hle.
  - eapply List.Forall_impl; [|exact Hbud]. intros g [[s0 ->] | Hle] s Hin Hlong.
    + destruct Hin as [<- | []]. reflexivity.
    + pose proof (len_member_le_join g s Hin). lia.
Qed.

(** C6: the chunks, each taken apart into the sentences that were merged
    into it with single spaces, give back the sentence stream of the
    paragraph and sentence split: same sentences, same order, none dropped or
    altered; so the chunks joined by single spaces are the sentences joined by
    single spaces.  (It holds for every text and every [maxChunkSize], so
    also for non-empty text and [maxChunkSize > 0].) *)
Theorem chunks_reproduce_sentence_stream :
  forall (text : js_string) (maxChunkSize : Z),
    (exists groups : list (list js_string),
       splitIntoChunks text maxChunkSize = List.map join_space groups
       /\ List.Forall (fun g => g <> []) groups
       /\ concat groups = sentences_of text)
    /\ join_space (splitIntoChunks text maxChunkSize) = join_space (sentences_of text).
Proof.
  intros text maxChunkSize.
  destruct (splitIntoChunks_groups text maxChunkSize) as (groups & Hc & Hcat & Hne & _).
  split.
  - exists groups. repeat split; assumption.
  - rewrite Hc, <- Hcat. apply join_space_concat, Hne.
Qed.


(** ** Doubles *)

Section DoubleFacts.

Import Double.

Lemma fexp_double k : fexp prec emax k = Z.max (k - 53) (-1074).
Proof. reflexivity. Qed.

Lemma digits2_log2 m : Zpos (digits2_pos m) = Z.log2 (Zpos m) + 1.
Proof.
  assert (H : digits2_pos m = Pos.size m).
  { induction m as [m IH | m IH |]; cbn; [rewrite IH | rewrite IH |]; reflexivity. }
  rewrite H. destruct m; cbn; lia.
Qed.

Lemma digits_bounds m :
  2 ^ (Zpos (digits2_pos m) - 1) <= Zpos m < 2 ^ Zpos (digits2_pos m).
Proof.
  rewrite digits2_log2. replace (Z.log2 (Zpos m) + 1 - 1) with (Z.log2 (Zpos m)) by lia.
  apply Z.log2_spec. lia.
Qed.

Lemma iter_xO m d : Zpos (Pos.iter xO m d) = Zpos m * 2 ^ Zpos d.
Proof.
  induction d as [|d IH] using Pos.peano_ind.
  - cbn. lia.
  - rewrite Pos.iter_succ, Pos2Z.inj_succ, Z.pow_succ_r by lia.
    rewrite Pos2Z.inj_xO, IH. lia.
Qed.

Lemma iter_pos_nat {A : Type} (f : A -> A) p : forall x,
  SpecFloat.iter_pos f p x = Nat.iter (Pos.to_nat p) f x.
Proof.
  induction p as [p IH | p IH |]; intros x; cbn [SpecFloat.iter_pos].
  - rewrite !IH, Pos2Nat.inj_xI.
    replace (S (2 * Pos.to_nat p)) with (Pos.to_nat p + Pos.to_nat p + 1)%nat by lia.
    rewrite !Nat.iter_add. reflexivity.
  - rewrite !IH, Pos2Nat.inj_xO.
    replace (2 * Pos.to_nat p)%nat with (Pos.to_nat p + Pos.to_nat p)%nat by lia.
    rewrite Nat.iter_add. reflexivity.
  - reflexivity.
Qed.

Lemma shr_1_nonneg m r s : 0 <= m ->
  shr_1 {| shr_m := m; shr_r := r; shr_s := s |}
  = {| shr_m := m / 2; shr_r := Z.odd m; shr_s := r || s |}.
Proof.
  intros Hm. destruct m as [|p|p]; [reflexivity | | lia].
  destruct p as [p|p|]; cbn [shr_1 Z.odd].
  - f_equal. rewrite Pos2Z.inj_xI.
    apply (Z.div_unique _ _ _ 1); lia.
  - f_equal. rewrite Pos2Z.inj_xO.
    apply (Z.div_unique _ _ _ 0); lia.
  - reflexivity.
Qed.

(** Shifting a mantissa to the right by [k] binary places. *)
Lemma shr_iter m k : 0 <= m ->
  exists r s,
    Nat.iter k shr_1 {| shr_m := m; shr_r := false; shr_s := false |}
    = {| shr_m := m / 2 ^ Z.of_nat k; shr_r := r; shr_s := s |}
    /\ (m mod 2 ^ Z.of_nat k = 0 -> r = false /\ s = false).
Proof.
  intros Hm. induction k as [|k (r & s & IH & Hex)].
  - exists false, false. change (Z.of_nat 0) with 0. cbn [Nat.iter nat_rect]. rewrite Z.pow_0_r, Z.div_1_r. split; [reflexivity|tauto].
  - rewrite Nat.iter_succ, IH.
    assert (Hp : 0 < 2 ^ Z.of_nat k) by (apply Z.pow_pos_nonneg; lia).
    rewrite shr_1_nonneg by (apply Z.div_pos; lia).
    exists (Z.odd (m / 2 ^ Z.of_nat k)), (r || s). split.
    + f_equal. rewrite Nat2Z.inj_succ, Z.pow_succ_r by lia.
      rewrite Z.div_div by lia. f_equal. lia.
    + rewrite Nat2Z.inj_succ, Z.pow_succ_r by lia. intros Hmod.
      assert (Hdiv : m = 2 * 2 ^ Z.of_nat k * (m / (2 * 2 ^ Z.of_nat k))).
      { pose proof (Z.div_mod m (2 * 2 ^ Z.of_nat k)). lia. }
      set (c := m / (2 * 2 ^ Z.of_nat k)) in *.
      assert (Hq : m / 2 ^ Z.of_nat k = 2 * c).
      { rewrite Hdiv. replace (2 * 2 ^ Z.of_nat k * c) with (2 * c * 2 ^ Z.of_nat k) by lia.
        apply Z.div_mul. lia. }
      assert (Hm0 : m mod 2 ^ Z.of_nat k = 0).
      { rewrite Hdiv. replace (2 * 2 ^ Z.of_nat k * c) with (2 * c * 2 ^ Z.of_nat k) by lia.
        apply Z.mod_mul. lia. }
      destruct (Hex Hm0) as [-> ->]. rewrite Hq.
      split; [|reflexivity]. rewrite Z.odd_mul. reflexivity.
Qed.

Lemma round_nearest_even_bounds m r s :
  m <= round_nearest_even m (loc_of_shr_record {| shr_m := m; shr_r := r; shr_s := s |}) <= m + 1
  /\ (r = false /\ s = false ->
      round_nearest_even m (loc_of_shr_record {| shr_m := m; shr_r := r; shr_s := s |}) = m).
Proof.
  destruct r, s; cbn; try destruct (Z.even m); split; try lia; intros [? ?]; congruence.
Qed.


Lemma binary_round_aux_canonical s m e :
  fexp prec emax (Zpos (digits2_pos m) + e) = e ->
  binary_round_aux prec emax s (Zpos m) e loc_Exact
  = if e <=? 971 then S754_finite s m e else S754_infinity s.
Proof.
  intros Hc. unfold binary_round_aux, shr_fexp. cbn [Zdigits2].
  rewrite Hc, Z.sub_diag.
  cbn [shr shr_record_of_loc shr_m loc_of_shr_record round_nearest_even Zdigits2].
  rewrite Hc, Z.sub_diag. reflexivity.
Qed.

Lemma binary_round_aux_shift s m e :
  -1074 <= e -> 53 < Zpos (digits2_pos m) ->
  exists r,
    Zpos m / 2 ^ (Zpos (digits2_pos m) - 53) <= r <= Zpos m / 2 ^ (Zpos (digits2_pos m) - 53) + 1
    /\ (Zpos m mod 2 ^ (Zpos (digits2_pos m) - 53) = 0
        -> r = Zpos m / 2 ^ (Zpos (digits2_pos m) - 53))
    /\ 2 ^ 52 <= r <= 2 ^ 53
    /\ binary_round_aux prec emax s (Zpos m) e loc_Exact
       = if r <? 2 ^ 53
         then (if e + (Zpos (digits2_pos m) - 53) <=? 971
               then S754_finite s (Z.to_pos r) (e + (Zpos (digits2_pos m) - 53))
               else S754_infinity s)
         else (if e + (Zpos (digits2_pos m) - 53) + 1 <=? 971
               then S754_finite s (Z.to_pos (2 ^ 52)) (e + (Zpos (digits2_pos m) - 53) + 1)
               else S754_infinity s).
Proof.
  intros He Hd. pose proof (digits_bounds m) as Hb.
  set (d := Zpos (digits2_pos m)) in *.
  unfold binary_round_aux, shr_fexp. cbn [Zdigits2]. fold d. rewrite fexp_double.
  replace (Z.max (d + e - 53) (-1074) - e) with (d - 53) by lia.
  destruct (d - 53) as [|p|p] eqn:En; try lia.
  cbn [shr shr_record_of_loc]. rewrite iter_pos_nat.
  destruct (shr_iter (Zpos m) (Pos.to_nat p) ltac:(lia)) as (rr & ss & -> & Hex).
  rewrite positive_nat_Z in *. cbn [shr_m].
  assert (Hpow : 2 ^ d = 2 ^ 53 * 2 ^ Zpos p).
  { rewrite <- Z.pow_add_r by lia. f_equal. lia. }
  assert (Hpow' : 2 ^ (d - 1) = 2 ^ 52 * 2 ^ Zpos p).
  { rewrite <- Z.pow_add_r by lia. f_equal. lia. }
  assert (Hp : 0 < 2 ^ Zpos p) by (apply Z.pow_pos_nonneg; lia).
  assert (Hq : 2 ^ 52 <= Zpos m / 2 ^ Zpos p < 2 ^ 53).
  { split.
    - apply Z.div_le_lower_bound; [exact Hp|]. lia.
    - apply Z.div_lt_upper_bound; [exact Hp|]. lia. }
  destruct (round_nearest_even_bounds (Zpos m / 2 ^ Zpos p) rr ss) as [Hr Hr0].
  set (r := round_nearest_even (Zpos m / 2 ^ Zpos p)
              (loc_of_shr_record
                 {| shr_m := Zpos m / 2 ^ Zpos p; shr_r := rr; shr_s := ss |})) in *.
  exists r. split; [exact Hr|]. split; [intros H0; apply Hr0, Hex, H0|].
  split; [lia|].
  destruct (r <? 2 ^ 53) eqn:Elt.
  - apply Z.ltb_lt in Elt.
    destruct r as [|q|q] eqn:Er; try lia. cbn [Zdigits2].
    rewrite digits2_log2, (Z.log2_unique (Zpos q) 52) by (cbn; lia).
    rewrite fexp_double.
    replace (Z.max (52 + 1 + (e + Zpos p) - 53) (-1074) - (e + Zpos p)) with 0 by lia.
    cbn [shr shr_record_of_loc shr_m]. reflexivity.
  - apply Z.ltb_ge in Elt. assert (Er : r = 2 ^ 53) by lia. rewrite Er.
    change (Zdigits2 (2 ^ 53)) with 54. rewrite fexp_double.
    replace (Z.max (54 + (e + Zpos p) - 53) (-1074) - (e + Zpos p)) with 1 by lia.
    cbn [shr shr_record_of_loc shr_m]. reflexivity.
Qed.


Lemma log2_scaled m e : 0 <= e + 1074 ->
  Z.log2 (Zpos m * 2 ^ (e + 1074)) = Zpos (digits2_pos m) + e + 1073.
Proof.
  intros He. rewrite Z.log2_mul_pow2, digits2_log2 by lia. lia.
Qed.

Lemma rounded_canonical s m e :
  -1074 <= e -> fexp prec emax (Zpos (digits2_pos m) + e) = e ->
  rounded (Zpos m * 2 ^ (e + 1074)) s
    (if e <=? 971 then S754_finite s m e else S754_infinity s).
Proof.
  intros He Hc. unfold rounded. rewrite fexp_double in Hc.
  rewrite log2_scaled by lia.
  replace (Z.max (Zpos (digits2_pos m) + e + 1073 - 52) 0) with (e + 1074) by lia.
  assert (Hp : 0 < 2 ^ (e + 1074)) by (apply Z.pow_pos_nonneg; lia).
  exists (Zpos m). rewrite Z.div_mul by lia. split; [lia|]. split; [reflexivity|].
  destruct (e <=? 971) eqn:E.
  - split; [reflexivity|]. split; [|reflexivity].
    unfold bounded, canonical_mantissa. rewrite fexp_double.
    apply andb_true_iff. split; [apply Z.eqb_eq; exact Hc | exact E].
  - apply Z.leb_gt in E. split; [reflexivity|].
    pose proof (digits_bounds m) as Hb.
    assert (Hd : Zpos (digits2_pos m) = 53) by lia. rewrite Hd in Hb.
    change (2 ^ 2098) with (2 ^ 52 * 2 ^ 2046).
    apply Z.mul_le_mono_nonneg; try lia.
    apply Z.pow_le_mono_r; lia.
Qed.

Lemma binary_round_rounded s m e :
  -1074 <= e -> rounded (Zpos m * 2 ^ (e + 1074)) s (binary_round prec emax s m e).
Proof.
  intros He. unfold binary_round, shl_align. rewrite fexp_double.
  pose proof (digits_bounds m) as Hb.
  set (d := Zpos (digits2_pos m)) in *.
  destruct (Z.max (d + e - 53) (-1074) - e) as [|p|p] eqn:En.
  - rewrite binary_round_aux_canonical by (rewrite fexp_double; fold d; lia).
    apply rounded_canonical; [exact He|]. rewrite fexp_double. fold d. lia.
  - destruct (binary_round_aux_shift s m e He ltac:(fold d; lia))
      as (r & Hr & Hex & Hr53 & ->).
    fold d. unfold rounded. rewrite log2_scaled by lia. fold d.
    replace (Z.max (d + e + 1073 - 52) 0) with ((d - 53) + (e + 1074)) by lia.
    assert (Hn : 0 < 2 ^ (d - 53)) by (apply Z.pow_pos_nonneg; lia).
    assert (Hp : 0 < 2 ^ (e + 1074)) by (apply Z.pow_pos_nonneg; lia).
    rewrite (Z.pow_add_r 2 (d - 53) (e + 1074)) by lia.
    rewrite Z.div_mul_cancel_r by lia.
    exists r. split; [exact Hr|]. split.
    { intros H0. apply Hex. rewrite Z.mul_mod_distr_r in H0 by lia.
      apply Z.mul_eq_0 in H0. destruct H0 as [H0 | H0]; [exact H0 | lia]. }
    assert (Hk : 2 ^ (e + (d - 53) + 1074) = 2 ^ (d - 53) * 2 ^ (e + 1074)).
    { rewrite <- Z.pow_add_r by lia. f_equal. lia. }
    destruct (r <? 2 ^ 53) eqn:Elt.
    + apply Z.ltb_lt in Elt. destruct (e + (d - 53) <=? 971) eqn:E.
      * split; [reflexivity|]. rewrite Z2Pos.id by lia. split; [|rewrite Hk; reflexivity].
        unfold bounded, canonical_mantissa. rewrite fexp_double.
        apply andb_true_iff. split; [apply Z.eqb_eq | exact E].
        rewrite digits2_log2, Z2Pos.id by lia.
        rewrite (Z.log2_unique r 52) by (cbn; lia). lia.
      * apply Z.leb_gt in E. split; [reflexivity|].
        rewrite <- Hk. change (2 ^ 2098) with (2 ^ 52 * 2 ^ 2046).
        apply Z.mul_le_mono_nonneg; try lia.
        apply Z.pow_le_mono_r; lia.
    + apply Z.ltb_ge in Elt. assert (Er : r = 2 ^ 53) by lia.
      destruct (e + (d - 53) + 1 <=? 971) eqn:E.
      * split; [reflexivity|]. split.
        { unfold bounded, canonical_mantissa. rewrite fexp_double.
          apply andb_true_iff. split; [apply Z.eqb_eq | exact E].
          change (Zpos (digits2_pos (Z.to_pos (2 ^ 52)))) with 53. lia. }
        rewrite Z2Pos.id by (cbn; lia). rewrite Er, <- Hk.
        replace (e + (d - 53) + 1 + 1074) with (1 + (e + (d - 53) + 1074)) by lia.
        rewrite (Z.pow_add_r 2 1) by lia. change (2 ^ 53) with (2 ^ 52 * 2 ^ 1). ring.
      * apply Z.leb_gt in E. split; [reflexivity|].
        rewrite Er, <- Hk. change (2 ^ 2098) with (2 ^ 53 * 2 ^ 2045).
        apply Z.mul_le_mono_nonneg; try lia.
        apply Z.pow_le_mono_r; lia.
  - assert (Hz : Zpos (Pos.iter xO m p) = Zpos m * 2 ^ Zpos p) by apply iter_xO.
    assert (Hdz : Zpos (digits2_pos (Pos.iter xO m p)) = d + Zpos p).
    { rewrite digits2_log2, Hz, Z.log2_mul_pow2 by lia. unfold d. rewrite digits2_log2. lia. }
    assert (Hs : Zpos m * 2 ^ (e + 1074)
                 = Zpos (Pos.iter xO m p) * 2 ^ (Z.max (d + e - 53) (-1074) + 1074)).
    { rewrite Hz. replace (e + 1074) with (Zpos p + (Z.max (d + e - 53) (-1074) + 1074)) by lia.
      rewrite Z.pow_add_r by lia. ring. }
    rewrite Hs.
    rewrite binary_round_aux_canonical by (rewrite fexp_double, Hdz; f_equal; lia).
    apply rounded_canonical; [lia|]. rewrite fexp_double, Hdz. f_equal. lia.
Qed.


Lemma bounded_canonical m e :
  bounded prec emax m e = true ->
  -1074 <= e <= 971 /\ fexp prec emax (Zpos (digits2_pos m) + e) = e.
Proof.
  unfold bounded, canonical_mantissa. intros [Hc Hb]%andb_true_iff.
  apply Z.eqb_eq in Hc. apply Z.leb_le in Hb. change (emax - prec) with 971 in Hb.
  split; [|exact Hc]. rewrite fexp_double in Hc. lia.
Qed.

(** A double is its own rounding. *)
Lemma rounded_self s m e :
  bounded prec emax m e = true ->
  rounded (Zpos m * 2 ^ (e + 1074)) s (S754_finite s m e).
Proof.
  intros Hb. destruct (bounded_canonical m e Hb) as [He Hc].
  pose proof (rounded_canonical s m e ltac:(lia) Hc) as H.
  replace (e <=? 971) with true in H by (symmetry; apply Z.leb_le; lia). exact H.
Qed.

Lemma shl_align_fst m e ez :
  ez <= e -> Zpos (fst (shl_align m e ez)) = Zpos m * 2 ^ (e - ez).
Proof.
  intros Hle. unfold shl_align. destruct (ez - e) as [|p|p] eqn:E; cbn [fst].
  - replace (e - ez) with 0 by lia. lia.
  - lia.
  - rewrite iter_xO. f_equal. f_equal. lia.
Qed.

Lemma cond_Zopp_mul s a b : cond_Zopp s (a * b) = cond_Zopp s a * b.
Proof. destruct s; cbn [cond_Zopp]; lia. Qed.

Lemma binary_normalize_rounded z e :
  -1074 <= e ->
  match z ?= 0 with
  | Eq => binary_normalize prec emax z e false = S754_zero false
  | Gt => rounded (z * 2 ^ (e + 1074)) false (binary_normalize prec emax z e false)
  | Lt => rounded (- z * 2 ^ (e + 1074)) true (binary_normalize prec emax z e false)
  end.
Proof.
  intros He. destruct z as [|p|p]; cbn [Z.compare binary_normalize].
  - reflexivity.
  - apply binary_round_rounded, He.
  - change (- Zneg p) with (Zpos p). apply binary_round_rounded, He.
Qed.

(** The difference of two finite doubles: zero when they are equal, and
    otherwise the rounding of the exact difference, with its sign. *)
Lemma sub_rounded a b :
  is_finite a = true -> is_finite b = true ->
  match scaled a - scaled b ?= 0 with
  | Eq => exists s, sub a b = S754_zero s
  | Gt => rounded (scaled a - scaled b) false (sub a b)
  | Lt => rounded (scaled b - scaled a) true (sub a b)
  end.
Proof.
  intros Ha Hb.
  destruct a as [sa| | |sa ma ea]; try discriminate;
    destruct b as [sb| | |sb mb eb]; try discriminate; cbn [is_finite] in Ha, Hb.
  - cbn [scaled]. cbn [Z.sub Z.add Z.opp Z.compare]. unfold sub. cbn [SFsub].
    destruct sa, sb; eexists; reflexivity.
  - unfold sub. cbn [SFsub scaled].
    assert (Hp : 0 < Zpos mb * 2 ^ (eb + 1074)).
    { destruct (bounded_canonical _ _ Hb) as [He _].
      apply Z.mul_pos_pos; [lia | apply Z.pow_pos_nonneg; lia]. }
    destruct sb; cbn [cond_Zopp negb].
    + replace (0 - - (Zpos mb * 2 ^ (eb + 1074))) with (Zpos mb * 2 ^ (eb + 1074)) by lia.
      destruct (Z.compare_spec (Zpos mb * 2 ^ (eb + 1074)) 0); try lia.
      apply rounded_self, Hb.
    + destruct (Z.compare_spec (0 - Zpos mb * 2 ^ (eb + 1074)) 0); try lia.
      replace (Zpos mb * 2 ^ (eb + 1074) - 0) with (Zpos mb * 2 ^ (eb + 1074)) by lia.
      apply rounded_self, Hb.
  - unfold sub. cbn [SFsub scaled].
    assert (Hp : 0 < Zpos ma * 2 ^ (ea + 1074)).
    { destruct (bounded_canonical _ _ Ha) as [He _].
      apply Z.mul_pos_pos; [lia | apply Z.pow_pos_nonneg; lia]. }
    destruct sa; cbn [cond_Zopp].
    + destruct (Z.compare_spec (- (Zpos ma * 2 ^ (ea + 1074)) - 0) 0); try lia.
      replace (0 - - (Zpos ma * 2 ^ (ea + 1074))) with (Zpos ma * 2 ^ (ea + 1074)) by lia.
      apply rounded_self, Ha.
    + replace (Zpos ma * 2 ^ (ea + 1074) - 0) with (Zpos ma * 2 ^ (ea + 1074)) by lia.
      destruct (Z.compare_spec (Zpos ma * 2 ^ (ea + 1074)) 0); try lia.
      apply rounded_self, Ha.
  - destruct (bounded_canonical _ _ Ha) as [Hea _].
    destruct (bounded_canonical _ _ Hb) as [Heb _].
    unfold sub. cbn [SFsub scaled].
    rewrite !shl_align_fst by lia.
    set (ez := Z.min ea eb).
    set (z := cond_Zopp sa (Zpos ma * 2 ^ (ea - ez)) - cond_Zopp sb (Zpos mb * 2 ^ (eb - ez))).
    assert (Hpow : forall e, ez <= e -> 2 ^ (e + 1074) = 2 ^ (e - ez) * 2 ^ (ez + 1074)).
    { intros e He. rewrite <- Z.pow_add_r by lia. f_equal. lia. }
    assert (Hz : cond_Zopp sa (Zpos ma * 2 ^ (ea + 1074))
                 - cond_Zopp sb (Zpos mb * 2 ^ (eb + 1074))
                 = z * 2 ^ (ez + 1074)).
    { unfold z. rewrite (Hpow ea), (Hpow eb) by lia.
      rewrite !Z.mul_assoc, !cond_Zopp_mul. ring. }
    assert (Hp : 0 < 2 ^ (ez + 1074)) by (apply Z.pow_pos_nonneg; lia).
    pose proof (binary_normalize_rounded z ez ltac:(lia)) as Hn.
    rewrite Hz.
    replace (cond_Zopp sb (Zpos mb * 2 ^ (eb + 1074))
             - cond_Zopp sa (Zpos ma * 2 ^ (ea + 1074)))
      with (- z * 2 ^ (ez + 1074)) by lia.
    destruct (Z.compare_spec z 0) as [H0 | H0 | H0].
    + rewrite H0 in *. cbn [Z.mul Z.compare]. exists false. exact Hn.
    + replace (z * 2 ^ (ez + 1074) ?= 0) with Lt by (symmetry; apply Z.compare_lt_iff; nia).
      exact Hn.
    + replace (z * 2 ^ (ez + 1074) ?= 0) with Gt by (symmetry; apply Z.compare_gt_iff; nia).
      exact Hn.
Qed.


Lemma compare_finite m1 e1 m2 e2 :
  bounded prec emax m1 e1 = true -> bounded prec emax m2 e2 = true ->
  SFcompare (S754_finite false m1 e1) (S754_finite false m2 e2)
  = Some (Zpos m1 * 2 ^ (e1 + 1074) ?= Zpos m2 * 2 ^ (e2 + 1074)).
Proof.
  intros H1 H2.
  destruct (bounded_canonical _ _ H1) as [He1 Hc1].
  destruct (bounded_canonical _ _ H2) as [He2 Hc2].
  rewrite fexp_double in Hc1, Hc2.
  pose proof (digits_bounds m1) as Hb1. pose proof (digits_bounds m2) as Hb2.
  set (d1 := Zpos (digits2_pos m1)) in *. set (d2 := Zpos (digits2_pos m2)) in *.
  assert (Hd1 : 2 ^ d1 <= 2 ^ 53) by (apply Z.pow_le_mono_r; lia).
  assert (Hd2 : 2 ^ d2 <= 2 ^ 53) by (apply Z.pow_le_mono_r; lia).
  assert (Hstep : forall e e', -1074 <= e < e' ->
             2 ^ 53 * 2 ^ (e + 1074) <= 2 ^ 52 * 2 ^ (e' + 1074)).
  { intros e e' He. change (2 ^ 53) with (2 ^ 52 * 2 ^ 1). rewrite <- Z.mul_assoc.
    rewrite <- Z.pow_add_r by lia. apply Z.mul_le_mono_nonneg_l; [cbn; lia|].
    apply Z.pow_le_mono_r; lia. }
  cbn [SFcompare]. f_equal. destruct (Z.compare_spec e1 e2) as [E | E | E].
  - subst e2. change (Pos.compare_cont Eq m1 m2) with (Zpos m1 ?= Zpos m2).
    apply Zmult_compare_compat_r, Z.lt_gt, Z.pow_pos_nonneg; lia.
  - symmetry. apply Z.compare_lt_iff.
    assert (Hm2 : 2 ^ 52 <= Zpos m2).
    { replace 52 with (d2 - 1) by lia. apply Hb2. }
    assert (Hp1 : 0 < 2 ^ (e1 + 1074)) by (apply Z.pow_pos_nonneg; lia).
    assert (Hp2 : 0 < 2 ^ (e2 + 1074)) by (apply Z.pow_pos_nonneg; lia).
    specialize (Hstep e1 e2 ltac:(lia)). nia.
  - symmetry. apply Z.compare_gt_iff.
    assert (Hm1 : 2 ^ 52 <= Zpos m1).
    { replace 52 with (d1 - 1) by lia. apply Hb1. }
    assert (Hp1 : 0 < 2 ^ (e1 + 1074)) by (apply Z.pow_pos_nonneg; lia).
    assert (Hp2 : 0 < 2 ^ (e2 + 1074)) by (apply Z.pow_pos_nonneg; lia).
    specialize (Hstep e2 e1 ltac:(lia)). nia.
Qed.

Lemma leb_tolerance m e :
  bounded prec emax m e = true ->
  leb (S754_finite false m e) (of_dyadic 5 (-1)) = (Zpos m * 2 ^ (e + 1074) <=? 5 * 2 ^ 1073).
Proof.
  intros Hb. change (of_dyadic 5 (-1)) with (S754_finite false 5629499534213120 (-51)).
  unfold leb, SFleb.
  rewrite compare_finite by (exact Hb || reflexivity).
  change (Zpos 5629499534213120 * 2 ^ (-51 + 1074)) with (5 * 2 ^ 1073).
  unfold Z.leb. destruct (Zpos m * 2 ^ (e + 1074) ?= 5 * 2 ^ 1073); reflexivity.
Qed.

Lemma rounded_sign S0 s R :
  rounded S0 s R -> truthy R = true /\ ltb zero R = negb s.
Proof.
  intros (r & _ & _ & HR). destruct R as [| s' | | s' m e]; try contradiction.
  - destruct HR as [-> _]. split; [reflexivity|]. destruct s; reflexivity.
  - destruct HR as [-> _]. split; [reflexivity|]. destruct s; reflexivity.
Qed.

(** A difference of at most 2.5 is computed as at most 2.5. *)
Lemma rounded_within S0 s R :
  0 < S0 <= 5 * 2 ^ 1073 -> rounded S0 s R -> leb (abs R) (of_dyadic 5 (-1)) = true.
Proof.
  intros [Hpos Hle] (r & Hr & Hex & HR).
  assert (Hbig : 5 * 2 ^ 1073 < 2 ^ 1076) by (vm_compute; reflexivity).
  assert (Hlog : Z.log2 S0 < 1076) by (apply Z.log2_lt_pow2; lia).
  set (k := Z.max (Z.log2 S0 - 52) 0) in *.
  assert (Hk : 0 <= k <= 1023) by lia.
  assert (Hp : 0 < 2 ^ k) by (apply Z.pow_pos_nonneg; lia).
  assert (HC : 5 * 2 ^ 1073 = 5 * 2 ^ (1073 - k) * 2 ^ k).
  { rewrite <- Z.mul_assoc, <- Z.pow_add_r by lia. do 2 f_equal. lia. }
  assert (Hrc : r <= 5 * 2 ^ (1073 - k)).
  { destruct (Z.eq_dec (S0 mod 2 ^ k) 0) as [H0 | H0].
    - rewrite (Hex H0). apply Z.div_le_upper_bound; [exact Hp|]. lia.
    - assert (S0 <> 5 * 2 ^ 1073).
      { intros ->. apply H0. rewrite HC. apply Z.mod_mul. lia. }
      assert (S0 / 2 ^ k < 5 * 2 ^ (1073 - k)); [|lia].
      apply Z.div_lt_upper_bound; [exact Hp|]. lia. }
  assert (Hrk : r * 2 ^ k <= 5 * 2 ^ 1073).
  { rewrite HC. apply Z.mul_le_mono_nonneg_r; lia. }
  destruct R as [| s' | | s' m e]; try contradiction.
  - destruct HR as [_ HR]. exfalso.
    assert (2 ^ 1076 < 2 ^ 2098) by (vm_compute; reflexivity). lia.
  - destruct HR as (_ & Hb & Hv). cbn [abs SFabs].
    rewrite leb_tolerance by exact Hb. apply Z.leb_le. lia.
Qed.

(** What is computed as at most 2.5 exceeds 2.5 by less than the rounding. *)
Lemma rounded_almost S0 s R :
  0 < S0 -> rounded S0 s R -> leb (abs R) (of_dyadic 5 (-1)) = true ->
  S0 < 5 * 2 ^ 1073 + 2 ^ 1023.
Proof.
  intros Hpos (r & Hr & Hex & HR) Hleb.
  destruct R as [| s' | | s' m e]; try contradiction; [discriminate Hleb|].
  destruct HR as (_ & Hb & Hv). cbn [abs SFabs] in Hleb.
  rewrite leb_tolerance in Hleb by exact Hb. apply Z.leb_le in Hleb.
  set (k := Z.max (Z.log2 S0 - 52) 0) in *.
  assert (Hp : 0 < 2 ^ k) by (apply Z.pow_pos_nonneg; lia).
  assert (Hbig : 5 * 2 ^ 1073 < 2 ^ 1076) by (vm_compute; reflexivity).
  pose proof (Z.div_mod S0 (2 ^ k) ltac:(lia)) as Hdm.
  pose proof (Z.mod_pos_bound S0 (2 ^ k) Hp) as Hmod.
  assert (Hlow : S0 < r * 2 ^ k + 2 ^ k) by nia.
  assert (Hk : k <= 1023).
  { destruct (Z_le_gt_dec k 1023) as [H | H]; [exact H|]. exfalso.
    assert (Hl : Z.log2 S0 = k + 52) by lia.
    pose proof (proj1 (Z.log2_spec S0 Hpos)) as Hs. rewrite Hl in Hs.
    rewrite Z.pow_add_r in Hs by lia.
    assert (2 ^ 52 <= S0 / 2 ^ k) by (apply Z.div_le_lower_bound; lia).
    assert (2 ^ 1024 <= 2 ^ k) by (apply Z.pow_le_mono_r; lia).
    assert (2 ^ 1076 = 2 ^ 52 * 2 ^ 1024) by (vm_compute; reflexivity).
    nia. }
  assert (2 ^ k <= 2 ^ 1023) by (apply Z.pow_le_mono_r; lia).
  lia.
Qed.


(** The exact value of a finite double, in units of [2 ^ -1074]. *)
Lemma value_scaled d :
  is_finite d = true -> (value d * inject_Z (2 ^ 1074) == inject_Z (scaled d))%Q.
Proof.
  destruct d as [s| | |s m e]; try discriminate; intros Hf.
  - cbn [value scaled]. ring.
  - cbn [is_finite] in Hf. destruct (bounded_canonical _ _ Hf) as [He _].
    cbn [value scaled]. rewrite cond_Zopp_mul, inject_Z_mult.
    rewrite <- Qmult_assoc. apply Qmult_comp; [reflexivity|].
    rewrite !Zpower_Qpower by lia. change (inject_Z 2) with 2%Q.
    rewrite Qpower_plus by discriminate. reflexivity.
Qed.

Lemma value_lt a b :
  is_finite a = true -> is_finite b = true ->
  (value a < value b)%Q <-> scaled a < scaled b.
Proof.
  intros Ha Hb. rewrite Zlt_Qlt, <- (value_scaled a Ha), <- (value_scaled b Hb).
  symmetry. apply Qmult_lt_r. reflexivity.
Qed.

Lemma value_le a b :
  is_finite a = true -> is_finite b = true ->
  (value a <= value b)%Q <-> scaled a <= scaled b.
Proof.
  intros Ha Hb. rewrite Zle_Qle, <- (value_scaled a Ha), <- (value_scaled b Hb).
  symmetry. apply Qmult_le_r. reflexivity.
Qed.

Lemma value_eq a b :
  is_finite a = true -> is_finite b = true ->
  (value a == value b)%Q <-> scaled a = scaled b.
Proof.
  intros Ha Hb. split.
  - intros H. apply Z.le_antisymm; apply value_le; try assumption; rewrite H; apply Qle_refl.
  - intros H. apply Qle_antisym; apply value_le; try assumption; lia.
Qed.

Lemma value_below upper lower :
  is_finite upper = true -> is_finite lower = true ->
  (value lower < value upper - (5 # 2))%Q <-> scaled lower < scaled upper - 5 * 2 ^ 1073.
Proof.
  intros Hu Hl. rewrite Zlt_Qlt. unfold Z.sub. rewrite inject_Z_plus, inject_Z_opp.
  rewrite <- (value_scaled upper Hu), <- (value_scaled lower Hl).
  rewrite <- (Qmult_lt_r _ _ (inject_Z (2 ^ 1074))) by reflexivity.
  assert (H : ((value upper - (5 # 2)) * inject_Z (2 ^ 1074)
               == value upper * inject_Z (2 ^ 1074) + - inject_Z (5 * 2 ^ 1073))%Q).
  { assert (H5 : ((5 # 2) * inject_Z (2 ^ 1074) == inject_Z (5 * 2 ^ 1073))%Q)
      by (vm_compute; reflexivity).
    rewrite <- H5. ring. }
  rewrite H. reflexivity.
Qed.

Lemma value_within a b :
  is_finite a = true -> is_finite b = true ->
  (Qabs (value a - value b) <= 5 # 2)%Q <-> Z.abs (scaled a - scaled b) <= 5 * 2 ^ 1073.
Proof.
  intros Ha Hb. rewrite Qabs_Qle_condition.
  assert (H1 : (- (5 # 2) <= value a - value b)%Q <-> ~ (value a < value b - (5 # 2))%Q).
  { split; [intros H H'; lra | intros H; apply Qnot_lt_le; intros H'; apply H; lra]. }
  assert (H2 : (value a - value b <= 5 # 2)%Q <-> ~ (value b < value a - (5 # 2))%Q).
  { split; [intros H H'; lra | intros H; apply Qnot_lt_le; intros H'; apply H; lra]. }
  rewrite H1, H2, !value_below by assumption. lia.
Qed.

Lemma value_almost a b :
  is_finite a = true -> is_finite b = true ->
  Z.abs (scaled a - scaled b) < 5 * 2 ^ 1073 + 2 ^ 1023 ->
  (Qabs (value a - value b) < (5 # 2) + (1 # 2 ^ 51))%Q.
Proof.
  intros Ha Hb H.
  assert (HK : (0 < inject_Z (2 ^ 1074))%Q) by reflexivity.
  assert (H5 : (((5 # 2) + (1 # 2 ^ 51)) * inject_Z (2 ^ 1074)
                == inject_Z (5 * 2 ^ 1073 + 2 ^ 1023))%Q) by (vm_compute; reflexivity).
  pose proof (value_scaled a Ha) as Va. pose proof (value_scaled b Hb) as Vb.
  apply (Qmult_lt_r _ _ _ HK). rewrite H5.
  assert (Hd : ((value a - value b) * inject_Z (2 ^ 1074)
                == inject_Z (scaled a - scaled b))%Q).
  { unfold Z.sub. rewrite inject_Z_plus, inject_Z_opp, <- Va, <- Vb. ring. }
  apply Qabs_case; intros Hs.
  - rewrite Hd. rewrite <- Zlt_Qlt. lia.
  - assert (Hn : (- (value a - value b) * inject_Z (2 ^ 1074)
                  == inject_Z (- (scaled a - scaled b)))%Q).
    { rewrite inject_Z_opp, <- Hd. ring. }
    rewrite Hn. rewrite <- Zlt_Qlt. lia.
Qed.

(** The sign of a difference of finite doubles is exact. *)
Lemma sub_sign a b :
  is_finite a = true -> is_finite b = true ->
  truthy (sub a b) = negb (scaled a =? scaled b)
  /\ ltb zero (sub a b) = (scaled b <? scaled a).
Proof.
  intros Ha Hb. pose proof (sub_rounded a b Ha Hb) as H.
  destruct (Z.compare_spec (scaled a - scaled b) 0) as [E | E | E].
  - destruct H as [s ->]. replace (scaled a =? scaled b) with true
      by (symmetry; apply Z.eqb_eq; lia).
    replace (scaled b <? scaled a) with false by (symmetry; apply Z.ltb_ge; lia).
    split; reflexivity.
  - destruct (rounded_sign _ _ _ H) as [-> ->].
    replace (scaled a =? scaled b) with false by (symmetry; apply Z.eqb_neq; lia).
    replace (scaled b <? scaled a) with false by (symmetry; apply Z.ltb_ge; lia).
    split; reflexivity.
  - destruct (rounded_sign _ _ _ H) as [-> ->].
    replace (scaled a =? scaled b) with false by (symmetry; apply Z.eqb_neq; lia).
    replace (scaled b <? scaled a) with true by (symmetry; apply Z.ltb_lt; lia).
    split; reflexivity.
Qed.

(** Two heights at most 2.5 apart are found within the tolerance. *)
Lemma within_exact a b :
  is_finite a = true -> is_finite b = true ->
  Z.abs (scaled a - scaled b) <= 5 * 2 ^ 1073 ->
  leb (abs (sub a b)) (of_dyadic 5 (-1)) = true.
Proof.
  intros Ha Hb Hd. pose proof (sub_rounded a b Ha Hb) as H.
  destruct (Z.compare_spec (scaled a - scaled b) 0) as [E | E | E].
  - destruct H as [s ->]. reflexivity.
  - apply (rounded_within (scaled b - scaled a) _ _ ltac:(lia) H).
  - apply (rounded_within (scaled a - scaled b) _ _ ltac:(lia) H).
Qed.

(** Two heights found within the tolerance are less than
    [2.5 + 2 ^ -51] apart. *)
Lemma within_almost a b :
  is_finite a = true -> is_finite b = true ->
  leb (abs (sub a b)) (of_dyadic 5 (-1)) = true ->
  Z.abs (scaled a - scaled b) < 5 * 2 ^ 1073 + 2 ^ 1023.
Proof.
  intros Ha Hb Hn. pose proof (sub_rounded a b Ha Hb) as H.
  assert (Hpos : 0 < 5 * 2 ^ 1073 + 2 ^ 1023) by (vm_compute; reflexivity).
  destruct (Z.compare_spec (scaled a - scaled b) 0) as [E | E | E].
  - rewrite E. exact Hpos.
  - pose proof (rounded_almost (scaled b - scaled a) _ _ ltac:(lia) H Hn). lia.
  - pose proof (rounded_almost (scaled a - scaled b) _ _ ltac:(lia) H Hn). lia.
Qed.

End DoubleFacts.

(** ** The PDF page renderer *)

Section SortFacts.

Context {A : Type}.
Variable cmp : A -> A -> Double.double.
Variable R : A -> A -> Prop.
Variable ok : A -> Prop.
Hypothesis cmp_le :
  forall a b, ok a -> ok b -> Double.ltb Double.zero (cmp a b) = false -> R a b.
Hypothesis cmp_gt :
  forall a b, ok a -> ok b -> Double.ltb Double.zero (cmp a b) = true -> R b a.
Hypothesis R_trans : forall a b c, R a b -> R b c -> R a c.

Import PdfReadingOrder.

Lemma insert_by_perm a l : Permutation (insert_by cmp a l) (a :: l).
Proof.
  induction l as [|b l IH]; simpl; [reflexivity|].
  destruct (Double.ltb Double.zero (cmp a b)); [|reflexivity].
  rewrite IH. apply perm_swap.
Qed.

Lemma sort_by_perm l : Permutation (sort_by cmp l) l.
Proof.
  induction l as [|a l IH]; simpl; [reflexivity|].
  rewrite insert_by_perm. constructor. exact IH.
Qed.

Lemma insert_by_sorted a l :
  ok a -> List.Forall ok l ->
  StronglySorted R l -> StronglySorted R (insert_by cmp a l).
Proof.
  intros Ha Hok Hs. induction Hs as [|b l Hl IH Hb]; simpl.
  - constructor; constructor.
  - inversion Hok as [|? ? Hokb Hokl]; subst.
    destruct (Double.ltb Double.zero (cmp a b)) eqn:E.
    + constructor; [exact (IH Hokl)|].
      eapply Permutation_Forall; [symmetry; apply insert_by_perm|].
      constructor; [apply cmp_gt; assumption | exact Hb].
    + constructor; [constructor; assumption|].
      constructor; [apply cmp_le; assumption|].
      eapply List.Forall_impl; [|exact Hb]. intros c Hc.
      apply (R_trans a b c); [apply cmp_le; assumption | exact Hc].
Qed.

Lemma sort_by_ok l : List.Forall ok l -> List.Forall ok (sort_by cmp l).
Proof. intros H. eapply Permutation_Forall; [symmetry; apply sort_by_perm | exact H]. Qed.

Lemma sort_by_sorted l : List.Forall ok l -> StronglySorted R (sort_by cmp l).
Proof.
  induction l as [|a l IH]; intros Hok; simpl; [constructor|].
  inversion Hok as [|? ? Ha Hl]; subst.
  apply insert_by_sorted; [exact Ha | apply sort_by_ok, Hl | apply IH, Hl].
Qed.

End SortFacts.

Section ReadingOrderFacts.

Import PdfReadingOrder ReadingOrderSpec.

(** Sorting commutes with a map that respects the comparators. *)
Lemma sort_by_map {A B : Type} (f : A -> B) cmp cmp' (l : list A) :
  (forall a b, cmp' (f a) (f b) = cmp a b) ->
  sort_by cmp' (List.map f l) = List.map f (sort_by cmp l).
Proof.
  intros Hcmp. induction l as [|a l IH]; [reflexivity|].
  cbn [List.map sort_by fold_right]. fold (sort_by cmp' (List.map f l)).
  fold (sort_by cmp l). rewrite IH. generalize (sort_by cmp l) as s.
  induction s as [|b s IHs]; [reflexivity|].
  cbn [List.map insert_by]. rewrite Hcmp.
  destruct (Double.ltb Double.zero (cmp a b)); [|reflexivity].
  cbn [List.map]. rewrite IHs. reflexivity.
Qed.

Lemma finite_position_spec r :
  finite_position r = true ->
  Double.is_finite (x r) = true /\ Double.is_finite (y r) = true.
Proof. unfold finite_position. intros H%andb_true_iff. exact H. Qed.

Lemma finite_positions_spec rows :
  finite_positions rows = true -> List.Forall (fun r => finite_position r = true) rows.
Proof.
  unfold finite_positions. rewrite forallb_forall, List.Forall_forall. tauto.
Qed.

(** The comparator of the rows is positive exactly when its first argument
    belongs after the second. *)
Lemma compare_rows_positive a b :
  finite_position a = true -> finite_position b = true ->
  Double.ltb Double.zero (compare_rows a b)
  = (Double.scaled (y a) <? Double.scaled (y b))
    || ((Double.scaled (y a) =? Double.scaled (y b))
        && (Double.scaled (x b) <? Double.scaled (x a))).
Proof.
  intros [Hxa Hya]%finite_position_spec [Hxb Hyb]%finite_position_spec.
  unfold compare_rows, Double.first_truthy.
  destruct (sub_sign (y b) (y a) Hyb Hya) as [Ht Hp].
  destruct (sub_sign (x a) (x b) Hxa Hxb) as [_ Hq].
  rewrite Ht. destruct (Double.scaled (y b) =? Double.scaled (y a)) eqn:E; cbn [negb].
  - apply Z.eqb_eq in E. rewrite Hq, E, Z.ltb_irrefl, Z.eqb_refl. reflexivity.
  - rewrite Hp. rewrite Z.eqb_sym, E, andb_false_l, orb_false_r. reflexivity.
Qed.

Lemma compare_rows_le a b :
  finite_position a = true -> finite_position b = true ->
  Double.ltb Double.zero (compare_rows a b) = false -> in_reading_order a b.
Proof.
  intros Ha Hb. rewrite (compare_rows_positive a b Ha Hb).
  destruct (finite_position_spec a Ha) as [Hxa Hya].
  destruct (finite_position_spec b Hb) as [Hxb Hyb].
  intros [H1 H2]%orb_false_iff. apply Z.ltb_ge in H1. unfold in_reading_order.
  rewrite value_lt, value_eq, value_le by assumption.
  destruct (Z.eq_dec (Double.scaled (y a)) (Double.scaled (y b))) as [E | E]; [|lia].
  rewrite E, Z.eqb_refl, andb_true_l in H2. apply Z.ltb_ge in H2. right. lia.
Qed.

Lemma compare_rows_gt a b :
  finite_position a = true -> finite_position b = true ->
  Double.ltb Double.zero (compare_rows a b) = true -> in_reading_order b a.
Proof.
  intros Ha Hb. rewrite (compare_rows_positive a b Ha Hb).
  destruct (finite_position_spec a Ha) as [Hxa Hya].
  destruct (finite_position_spec b Hb) as [Hxb Hyb].
  unfold in_reading_order. rewrite value_lt, value_eq, value_le by assumption.
  intros [H | [H1 H2]%andb_true_iff]%orb_true_iff.
  - apply Z.ltb_lt in H. left. exact H.
  - apply Z.eqb_eq in H1. apply Z.ltb_lt in H2. right. lia.
Qed.

Lemma in_reading_order_trans a b c :
  in_reading_order a b -> in_reading_order b c -> in_reading_order a c.
Proof.
  unfold in_reading_order. intros [H1 | [H1 H1']] [H2 | [H2 H2']].
  - left. lra.
  - left. lra.
  - left. lra.
  - right. split; lra.
Qed.

(** The rows of a page come out sorted. *)
Lemma sorted_rows rows :
  finite_positions rows = true ->
  StronglySorted in_reading_order (sort_by compare_rows rows).
Proof.
  intros Hf. apply (sort_by_sorted compare_rows in_reading_order
                      (fun r => finite_position r = true)).
  - apply compare_rows_le.
  - apply compare_rows_gt.
  - apply in_reading_order_trans.
  - apply finite_positions_spec, Hf.
Qed.

Lemma compare_x_le (a b : Row) :
  finite_position a = true -> finite_position b = true ->
  Double.ltb Double.zero (Double.sub (x a) (x b)) = false -> left_to_right a b.
Proof.
  intros [Hxa _]%finite_position_spec [Hxb _]%finite_position_spec.
  destruct (sub_sign (x a) (x b) Hxa Hxb) as [_ ->]. intros H%Z.ltb_ge.
  unfold left_to_right. apply value_le; assumption.
Qed.

Lemma compare_x_gt (a b : Row) :
  finite_position a = true -> finite_position b = true ->
  Double.ltb Double.zero (Double.sub (x a) (x b)) = true -> left_to_right b a.
Proof.
  intros [Hxa _]%finite_position_spec [Hxb _]%finite_position_spec.
  destruct (sub_sign (x a) (x b) Hxa Hxb) as [_ ->]. intros H%Z.ltb_lt.
  unfold left_to_right. apply value_le; [assumption | assumption | lia].
Qed.

Lemma left_to_right_trans a b c : left_to_right a b -> left_to_right b c -> left_to_right a c.
Proof. unfold left_to_right. intros. lra. Qed.

(** One row either starts a new line, when no line so far is within the
    tolerance, or extends the first line that is. *)
Lemma place_row_cases (lines : list Line) (row : Row) :
  (List.Forall (fun l => near row l = false) lines
   /\ place_row lines row = lines ++ [new_line row])
  \/ (exists i line,
        lines !! i = Some line
        /\ near row line = true
        /\ (forall j l, lines !! j = Some l -> (j < i)%nat -> near row l = false)
        /\ place_row lines row = <[ i := extend_line line row ]> lines).
Proof.
  unfold place_row.
  destruct (list_find (fun candidate => Is_true (near row candidate)) lines)
    as [[i line]|] eqn:E.
  - right. exists i, line. apply list_find_Some in E as (Hi & Hnear & Hfirst).
    split; [|split; [|split]].
    + exact Hi.
    + apply Is_true_true. exact Hnear.
    + intros j l Hj Hlt. specialize (Hfirst j l Hj Hlt).
      destruct (near row l); [exfalso; apply Hfirst; exact I | reflexivity].
    + reflexivity.
  - left. apply list_find_None in E. split; [|reflexivity].
    eapply List.Forall_impl; [|exact E]. intros l Hl. cbv beta in Hl.
    destruct (near row l); [exfalso; apply Hl; exact I | reflexivity].
Qed.

Lemma lookup_rendered (lines : list TextLine) : forall i line,
  List.map rendered lines !! i = Some line ->
  exists l, lines !! i = Some l /\ line = rendered l.
Proof.
  induction lines as [|l lines IH]; intros i line Hi; [discriminate|].
  destruct i as [|i]; cbn in Hi.
  - injection Hi as <-. exists l. split; reflexivity.
  - apply IH, Hi.
Qed.

Lemma lookup_rendered_2 (lines : list TextLine) : forall i l,
  lines !! i = Some l -> List.map rendered lines !! i = Some (rendered l).
Proof.
  induction lines as [|l0 lines IH]; intros i l Hi; [discriminate|].
  destruct i as [|i]; cbn in Hi |- *.
  - injection Hi as <-. reflexivity.
  - apply IH, Hi.
Qed.

Lemma insert_rendered (lines : list TextLine) : forall i l,
  List.map rendered (<[ i := l ]> lines) = <[ i := rendered l ]> (List.map rendered lines).
Proof.
  induction lines as [|l0 lines IH]; intros i l; [reflexivity|].
  destruct i as [|i]; cbn; [reflexivity|]. f_equal. apply IH.
Qed.

(** One step of the loop of the renderer is one step of the grouping. *)
Lemma place_row_grouped rows lines row :
  grouped rows lines ->
  exists lines',
    grouped (rows ++ [row]) lines'
    /\ place_row (List.map rendered lines) row = List.map rendered lines'.
Proof.
  intros Hg.
  destruct (place_row_cases (List.map rendered lines) row)
    as [[Hfar ->] | (i & line & Hi & Hnear & Hfirst & ->)].
  - exists (lines ++ [ {| representative := y row; members := [row] |} ]). split.
    + apply grouped_starts; [exact Hg|]. intros l Hl.
      rewrite List.Forall_forall in Hfar. apply (Hfar (rendered l)).
      apply in_map, Hl.
    + rewrite List.map_app. reflexivity.
  - destruct (lookup_rendered lines i line Hi) as (l & Hl & ->).
    exists (<[ i := {| representative := representative l;
                       members := members l ++ [row] |} ]> lines). split.
    + apply grouped_joins; [exact Hg | exact Hl | exact Hnear |].
      intros j l' Hj Hlt. apply (Hfirst j (rendered l')); [|exact Hlt].
      apply lookup_rendered_2, Hj.
    + rewrite insert_rendered. unfold extend_line, rendered.
      cbn [line_y parts representative members]. rewrite List.map_app. reflexivity.
Qed.

Lemma group_lines_grouped rows : forall rows0 lines,
  grouped rows0 lines ->
  exists lines',
    grouped (rows0 ++ rows) lines'
    /\ fold_left place_row rows (List.map rendered lines) = List.map rendered lines'.
Proof.
  induction rows as [|r rows IH]; intros rows0 lines Hg.
  - exists lines. rewrite app_nil_r. split; [exact Hg | reflexivity].
  - destruct (place_row_grouped rows0 lines r Hg) as (lines1 & Hg1 & Heq).
    destruct (IH (rows0 ++ [r]) lines1 Hg1) as (lines' & Hg' & Heq').
    exists lines'. rewrite <- app_assoc in Hg'. split; [exact Hg'|].
    cbn [fold_left]. rewrite Heq. exact Heq'.
Qed.

(** The members of the lines are rows that were grouped. *)
Lemma grouped_members rows lines :
  grouped rows lines ->
  List.Forall (fun l => List.Forall (fun r => In r rows) (members l)) lines.
Proof.
  induction 1 as [| rows lines i line row Hg IH Hi Hnear Hfirst
                   | rows lines row Hg IH Hfar].
  - constructor.
  - assert (Hold : List.Forall
                     (fun l => List.Forall (fun r => In r (rows ++ [row])) (members l)) lines).
    { eapply List.Forall_impl; [|exact IH]. intros l Hl.
      eapply List.Forall_impl; [|exact Hl]. intros r Hr. apply in_or_app. left. exact Hr. }
    apply Forall_insert; [exact Hold|]. cbn [members].
    apply Forall_app. split.
    + rewrite List.Forall_forall in Hold. apply Hold.
      apply list_elem_of_In. eapply list_elem_of_lookup_2. exact Hi.
    + constructor; [|constructor]. apply in_or_app. right. left. reflexivity.
  - apply Forall_app. split.
    + eapply List.Forall_impl; [|exact IH]. intros l Hl.
      eapply List.Forall_impl; [|exact Hl]. intros r Hr. apply in_or_app. left. exact Hr.
    + constructor; [|constructor]. cbn [members].
      constructor; [|constructor]. apply in_or_app. right. left. reflexivity.
Qed.

(** The renderer writes a line from left to right. *)
Lemma render_line_text line :
  List.Forall (fun r => finite_position r = true) (members line) ->
  line_text line (render_line (rendered line)).
Proof.
  intros Hf.
  exists (sort_by (fun a b => Double.sub (x a) (x b)) (members line)).
  split; [apply sort_by_perm|]. split.
  - apply (sort_by_sorted _ left_to_right (fun r => finite_position r = true)).
    + apply compare_x_le.
    + apply compare_x_gt.
    + apply left_to_right_trans.
    + exact Hf.
  - unfold render_line, rendered. cbn [parts].
    rewrite (sort_by_map part_of (fun a b => Double.sub (x a) (x b)) compare_parts)
      by reflexivity.
    rewrite List.map_map. reflexivity.
Qed.

Lemma Forall2_map_r {A B : Type} (P : A -> B -> Prop) (f : A -> B) (l : list A) :
  List.Forall (fun a => P a (f a)) l -> Forall2 P l (List.map f l).
Proof. induction 1; constructor; assumption. Qed.

End ReadingOrderFacts.

(** C3 (as the code has it): for items with finite coordinates the page
    renderer sorts the positioned items by descending [y], then ascending
    [x]; it puts an item into the first line so far for which the difference
    between the representative [y] of the line and the [y] of the item, a
    double, is at most 2.5 in absolute value, and it starts a new line
    exactly when there is no such line; it sorts the members of each line by
    ascending [x] and joins their texts with single spaces; it joins the
    lines with line feeds.  Two heights that are at most 2.5 apart are
    always within that tolerance, and two heights within it are less than
    [2.5 + 2 ^ -51] apart.  On the items [{x:50,y:100,World},
    {x:0,y:100,Hello}, {x:0,y:50,Second}] the output is the text Hello
    World, a line feed, Second. *)
Theorem reading_order_reconstruction :
  (forall items : list PdfReadingOrder.TextItem,
      PdfReadingOrder.finite_positions (List.map PdfReadingOrder.row_of items) = true ->
      exists rows lines texts,
        Permutation rows (List.map PdfReadingOrder.row_of items)
        /\ StronglySorted ReadingOrderSpec.in_reading_order rows
        /\ ReadingOrderSpec.grouped rows lines
        /\ Forall2 ReadingOrderSpec.line_text lines texts
        /\ PdfReadingOrder.reading_order items = join [LF] texts)
  /\ (forall representative height : Double.double,
        Double.is_finite representative = true ->
        Double.is_finite height = true ->
        ((Qabs (Double.value representative - Double.value height) <= 5 # 2)%Q ->
         ReadingOrderSpec.within_tolerance representative height = true)
        /\ (ReadingOrderSpec.within_tolerance representative height = true ->
            (Qabs (Double.value representative - Double.value height)
             < (5 # 2) + (1 # 2 ^ 51))%Q))
  /\ PdfReadingOrder.reading_order PdfReadingOrder.example_items
     = lit "Hello World" ++ [LF] ++ lit "Second".
Proof.
  split; [|split].
  - intros items Hf.
    set (rows := PdfReadingOrder.sort_by PdfReadingOrder.compare_rows
                   (List.map PdfReadingOrder.row_of items)).
    assert (Hperm : Permutation rows (List.map PdfReadingOrder.row_of items))
      by apply sort_by_perm.
    destruct (group_lines_grouped rows [] [] ReadingOrderSpec.grouped_none)
      as (lines & Hg & Heq).
    cbn [app List.map] in Hg, Heq.
    exists rows, lines,
      (List.map (fun l => PdfReadingOrder.render_line (ReadingOrderSpec.rendered l)) lines).
    split; [exact Hperm|]. split; [apply sorted_rows, Hf|]. split; [exact Hg|]. split.
    + apply Forall2_map_r. pose proof (grouped_members rows lines Hg) as Hm.
      eapply List.Forall_impl; [|exact Hm]. intros l Hl. apply render_line_text.
      eapply List.Forall_impl; [|exact Hl]. intros r Hr.
      pose proof (finite_positions_spec _ Hf) as Hall.
      rewrite List.Forall_forall in Hall. apply Hall.
      eapply Permutation_in; [exact Hperm | exact Hr].
    + unfold PdfReadingOrder.reading_order, PdfReadingOrder.render_lines,
        PdfReadingOrder.group_lines. fold rows. rewrite Heq, List.map_map. reflexivity.
  - intros representative height Hr Hh. split.
    + intros Hd. apply within_exact; [exact Hr | exact Hh |].
      apply value_within; assumption.
    + intros Hn. apply value_almost; [exact Hr | exact Hh |].
      apply within_almost; assumption.
  - vm_compute. reflexivity.
Qed.

(** The items of the example have finite coordinates. *)
Lemma reading_order_reconstruction_witness :
  PdfReadingOrder.finite_positions
    (List.map PdfReadingOrder.row_of PdfReadingOrder.example_items) = true
  /\ exists rows lines texts,
       Permutation rows (List.map PdfReadingOrder.row_of PdfReadingOrder.example_items)
       /\ StronglySorted ReadingOrderSpec.in_reading_order rows
       /\ ReadingOrderSpec.grouped rows lines
       /\ Forall2 ReadingOrderSpec.line_text lines texts
       /\ PdfReadingOrder.reading_order PdfReadingOrder.example_items = join [LF] texts.
Proof.
  split; [reflexivity|].
  apply (proj1 reading_order_reconstruction PdfReadingOrder.example_items).
  reflexivity.
Defined.

(** C3 (as the specification words it) fails where a difference is
    rounded: the heights 2.5 and [- 2 ^ -60] are more than 2.5 apart, and
    yet the two items come out on one line, because the difference of the
    two doubles is 2.5. *)
Lemma reading_order_joins_beyond_tolerance :
  (5 # 2 < Qabs (Double.value (PdfReadingOrder.y (PdfReadingOrder.row_of
                                                    PdfReadingOrder.upper_item))
                 - Double.value (PdfReadingOrder.y (PdfReadingOrder.row_of
                                                      PdfReadingOrder.lower_item))))%Q
  /\ length (PdfReadingOrder.group_lines
               (PdfReadingOrder.sort_by PdfReadingOrder.compare_rows
                  (List.map PdfReadingOrder.row_of
                     [PdfReadingOrder.upper_item; PdfReadingOrder.lower_item]))) = 1%nat
  /\ PdfReadingOrder.reading_order [PdfReadingOrder.upper_item; PdfReadingOrder.lower_item]
     = lit "upper lower".
Proof.
  split; [|split]; vm_compute; reflexivity.
Qed.

(** ** Retrieval with fallback *)

Section RetrievalFacts.

Import Retrieval.

Context {World : Type}.
Variable queryEmbedding : list Q.
Variable supabase : SupabaseClient World.

Lemma retrieve_recording_step t rest log w :
  retrieveWithFallback queryEmbedding (recording supabase) (t :: rest) (log, w)
  = let '(resp, w1) := supabase (rpc_name t) (rpc_args queryEmbedding t) w in
    let log1 := log ++ [ {| call_rpc := rpc_name t;
                            call_args := rpc_args queryEmbedding t;
                            call_response := resp |} ] in
    match error resp with
    | Some e => (Throw (rpc_error_message (rpc_name t) e), (log1, w1))
    | None =>
        match data resp with
        | Some (m :: ms) => (Return (m :: ms), (log1, w1))
        | _ => retrieveWithFallback queryEmbedding (recording supabase) rest (log1, w1)
        end
    end.
Proof.
  cbn [retrieveWithFallback]. unfold recording at 1. cbn [fst snd].
  destruct (supabase (rpc_name t) (rpc_args queryEmbedding t) w) as [resp w1].
  reflexivity.
Qed.

(** Recording the calls does not change what the caller gets. *)
Lemma recording_transparent tries : forall log w,
  let r := retrieveWithFallback queryEmbedding (recording supabase) tries (log, w) in
  fst r = fst (retrieveWithFallback queryEmbedding supabase tries w)
  /\ snd (snd r) = snd (retrieveWithFallback queryEmbedding supabase tries w).
Proof.
  induction tries as [|t rest IH]; intros log w; [split; reflexivity|].
  cbn zeta. rewrite retrieve_recording_step. cbn [retrieveWithFallback].
  destruct (supabase (rpc_name t) (rpc_args queryEmbedding t) w) as [resp w1].
  cbn zeta. destruct (error resp); [split; reflexivity|].
  destruct (data resp) as [[|m ms]|]; try (split; reflexivity); apply IH.
Qed.

Ltac settle_empty_call Hex c Hc :=
  revert Hex; unfold explains;
  match goal with
  | |- context [fst ?r] => destruct (fst r) as [[|m ms]|msg]
  end;
  [ intros [H1 H2]; split; [cbn; rewrite H1; reflexivity | constructor; assumption]
  | intros (before & last & -> & Hb & He & Hd);
    exists (c :: before), last; repeat split; try assumption; constructor; assumption
  | intros (before & last & e & -> & Hb & He & Hm);
    exists (c :: before), last, e; repeat split; try assumption; constructor; assumption ].

(** The record made by a run: the tiers are asked in their order, each
    once, up to the one that settles the outcome. *)
Lemma recorded_run tries : forall log w,
  let r := retrieveWithFallback queryEmbedding (recording supabase) tries (log, w) in
  exists calls,
    fst (snd r) = log ++ calls
    /\ List.map call_request calls
       = List.map (request_of queryEmbedding) (take (length calls) tries)
    /\ explains queryEmbedding tries calls (fst r).
Proof.
  induction tries as [|t rest IH]; intros log w.
  - exists []. cbn. rewrite app_nil_r. repeat split; constructor.
  - cbn zeta. rewrite retrieve_recording_step.
    destruct (supabase (rpc_name t) (rpc_args queryEmbedding t) w) as [resp w1] eqn:Ecall.
    cbn zeta.
    set (c := {| call_rpc := rpc_name t; call_args := rpc_args queryEmbedding t;
                 call_response := resp |}).
    destruct (error resp) as [e|] eqn:Eerr.
    + exists [c]. cbn. split; [reflexivity|]. split; [reflexivity|].
      exists [], c, e. repeat split; [constructor | exact Eerr].
    + destruct (data resp) as [[|m ms]|] eqn:Edata.
      * destruct (IH (log ++ [c]) w1) as (calls & Hlog & Hreq & Hex).
        exists (c :: calls). cbn zeta in *. split; [|split].
        -- rewrite Hlog, <- app_assoc. reflexivity.
        -- cbn. rewrite Hreq. reflexivity.
        -- assert (Hc : came_back_empty (call_response c))
             by (split; [exact Eerr | right; exact Edata]).
           settle_empty_call Hex c Hc.
      * exists [c]. cbn. split; [reflexivity|]. split; [reflexivity|].
        exists [], c. repeat split; [constructor | exact Eerr | exact Edata].
      * destruct (IH (log ++ [c]) w1) as (calls & Hlog & Hreq & Hex).
        exists (c :: calls). cbn zeta in *. split; [|split].
        -- rewrite Hlog, <- app_assoc. reflexivity.
        -- cbn. rewrite Hreq. reflexivity.
        -- assert (Hc : came_back_empty (call_response c))
             by (split; [exact Eerr | left; exact Edata]).
           settle_empty_call Hex c Hc.
Qed.

Lemma recorded_calls tries w :
  List.map call_request (calls_of queryEmbedding supabase tries w)
  = List.map (request_of queryEmbedding)
      (take (length (calls_of queryEmbedding supabase tries w)) tries)
  /\ explains queryEmbedding tries (calls_of queryEmbedding supabase tries w)
       (outcome_of queryEmbedding supabase tries w).
Proof.
  destruct (recorded_run tries [] w) as (calls & Hlog & Hreq & Hex).
  cbn zeta in *. unfold calls_of, outcome_of. rewrite Hlog.
  split; assumption.
Qed.

Lemma outcome_of_plain tries w :
  fst (retrieveWithFallback queryEmbedding supabase tries w)
  = outcome_of queryEmbedding supabase tries w.
Proof. symmetry. apply (recording_transparent tries [] w). Qed.

(** A call that was answered with an error is the last call of the run. *)
Lemma error_call_is_last tries w before c after e :
  calls_of queryEmbedding supabase tries w = before ++ c :: after ->
  error (call_response c) = Some e ->
  after = []
  /\ outcome_of queryEmbedding supabase tries w = Throw (rpc_error_message (call_rpc c) e)
  /\ List.Forall (fun c' => came_back_empty (call_response c')) before.
Proof.
  intros Hcalls Herr.
  destruct (recorded_calls tries w) as [_ Hex]. rewrite Hcalls in Hex.
  assert (Hnot : forall l, List.Forall (fun c' => came_back_empty (call_response c')) l ->
                           ~ In c l).
  { intros l Hl Hin. rewrite List.Forall_forall in Hl.
    destruct (Hl c Hin) as [Hnone _]. congruence. }
  unfold explains in Hex.
  destruct (outcome_of queryEmbedding supabase tries w) as [[|m ms]|msg].
  - destruct Hex as [_ Hall]. exfalso. apply (Hnot _ Hall).
    apply in_or_app. right. left. reflexivity.
  - destruct Hex as (before' & last & Heq & Hb & He & _). exfalso.
    assert (Hin : In c (before' ++ [last]))
      by (rewrite <- Heq; apply in_or_app; right; left; reflexivity).
    apply in_app_or in Hin as [Hin | [<- | []]]; [apply (Hnot _ Hb Hin) | congruence].
  - destruct Hex as (before' & last & e' & Heq & Hb & He & ->).
    destruct after as [|z after _] using rev_ind.
    + apply app_inj_tail in Heq as [-> ->].
      assert (e' = e) by congruence. subst e'. repeat split. exact Hb.
    + exfalso. change (before ++ c :: after ++ [z]) with (before ++ (c :: after) ++ [z]) in Heq.
      rewrite app_assoc in Heq. apply app_inj_tail in Heq as [<- _].
      apply (Hnot _ Hb). apply in_or_app. right. left. reflexivity.
Qed.

End RetrievalFacts.

Example tier_one_hit_makes_one_call :
  Retrieval.retrieveWithFallback [] (Retrieval.scripted [Retrieval.found [Retrieval.a_match]])
    Retrieval.DEFAULT_TRIES 0%nat
  = (Return [Retrieval.a_match], 1%nat).
Proof. reflexivity. Qed.

Example tier_two_hit_makes_two_calls :
  Retrieval.retrieveWithFallback [] (Retrieval.scripted [Retrieval.found []; Retrieval.found [Retrieval.a_match]])
    Retrieval.DEFAULT_TRIES 0%nat
  = (Return [Retrieval.a_match], 2%nat).
Proof. reflexivity. Qed.

Example all_tiers_empty_makes_three_calls :
  Retrieval.retrieveWithFallback [] (Retrieval.scripted []) Retrieval.DEFAULT_TRIES 0%nat
  = (Return [], 3%nat).
Proof. reflexivity. Qed.

Example tier_two_error_makes_two_calls :
  Retrieval.retrieveWithFallback [] (Retrieval.scripted [Retrieval.found []; Retrieval.failed "timeout"])
    Retrieval.DEFAULT_TRIES 0%nat
  = (Throw "RPC error (match_filtered_document_sections): timeout", 2%nat).
Proof. reflexivity. Qed.

(** C7: with the default tiers the search backend is asked for
    [{topK 8, no threshold}], then [{topK 12, threshold 0.3}], then
    [{topK 20, threshold 0.2}], in this order and each at most once; the
    first non-empty answer is returned at once and no later tier is asked (a
    match from tier 1 means one call only); when every tier comes back empty
    the result is the empty sequence, and no error. *)
Theorem default_tiers_first_nonempty_wins :
  forall (World : Type) (queryEmbedding : list Q)
         (supabase : Retrieval.SupabaseClient World) (w : World),
    let calls := Retrieval.calls_of queryEmbedding supabase Retrieval.DEFAULT_TRIES w in
    let out := Retrieval.outcome_of queryEmbedding supabase Retrieval.DEFAULT_TRIES w in
    fst (Retrieval.retrieveWithFallback queryEmbedding supabase Retrieval.DEFAULT_TRIES w) = out
    /\ List.map Retrieval.call_request calls
       = take (length calls) (Retrieval.default_requests queryEmbedding)
    /\ Retrieval.explains queryEmbedding Retrieval.DEFAULT_TRIES calls out
    /\ (forall matches w1,
          matches <> [] ->
          supabase "match_document_sections_topk" (Retrieval.TopkArgs queryEmbedding 8) w
          = (Retrieval.found matches, w1) ->
          Retrieval.retrieveWithFallback queryEmbedding supabase Retrieval.DEFAULT_TRIES w
          = (Return matches, w1)
          /\ List.map Retrieval.call_request calls
             = [("match_document_sections_topk", Retrieval.TopkArgs queryEmbedding 8)])
    /\ (List.Forall (fun c => Retrieval.came_back_empty (Retrieval.call_response c)) calls ->
        out = Return []
        /\ List.map Retrieval.call_request calls = Retrieval.default_requests queryEmbedding).
Proof.
  intros World queryEmbedding supabase w calls out.
  destruct (recorded_calls queryEmbedding supabase Retrieval.DEFAULT_TRIES w) as [Hreq Hex].
  fold calls in Hreq, Hex. fold out in Hex.
  split; [apply outcome_of_plain|]. split; [|split; [exact Hex|split]].
  - rewrite Hreq. destruct (length calls) as [|[|[|[|n]]]]; reflexivity.
  - intros matches w1 Hne Hcall. subst calls.
    unfold Retrieval.calls_of. cbn [Retrieval.retrieveWithFallback Retrieval.DEFAULT_TRIES].
    unfold Retrieval.recording at 1. cbn [fst snd Retrieval.rpc_name Retrieval.rpc_args Retrieval.threshold Retrieval.topK].
    rewrite Hcall. destruct matches as [|m ms]; [congruence|]. cbn. split; reflexivity.
  - intros Hall. unfold Retrieval.explains in Hex. destruct out as [[|m ms]|msg].
    + split; [reflexivity|]. apply Hex.
    + exfalso. destruct Hex as (before & last & Heq & _ & _ & Hd).
      rewrite Heq in Hall. apply Forall_app in Hall as [_ Hl].
      inversion Hl as [|? ? [_ [Hn | Hn]] _]; congruence.
    + exfalso. destruct Hex as (before & last & e & Heq & _ & He & _).
      rewrite Heq in Hall. apply Forall_app in Hall as [_ Hl].
      inversion Hl as [|? ? [Hn _] _]; congruence.
Qed.

(** C8: when the search backend answers any call of the run with an error,
    that call is the last one made (no retry of the tier, no later tier),
    the calls before it had all come back empty, and the run raises an error
    carrying the backend's message; the error is not taken for an empty
    result. *)
Theorem search_error_is_raised_at_once :
  forall (World : Type) (queryEmbedding : list Q)
         (supabase : Retrieval.SupabaseClient World) (tries : list Retrieval.TryCfg)
         (w : World) (before : list Retrieval.Call) (c : Retrieval.Call)
         (after : list Retrieval.Call) (e : PostgrestError),
    Retrieval.calls_of queryEmbedding supabase tries w = before ++ c :: after ->
    Retrieval.error (Retrieval.call_response c) = Some e ->
    after = []
    /\ fst (Retrieval.retrieveWithFallback queryEmbedding supabase tries w)
       = Throw ("RPC error (" +:+ Retrieval.call_rpc c +:+ "): " +:+ message e)%string
    /\ List.Forall (fun c' => Retrieval.came_back_empty (Retrieval.call_response c')) before
    /\ List.map Retrieval.call_request (before ++ [c])
       = List.map (Retrieval.request_of queryEmbedding) (take (S (length before)) tries).
Proof.
  intros World queryEmbedding supabase tries w before c after e Hcalls Herr.
  destruct (error_call_is_last queryEmbedding supabase tries w before c after e Hcalls Herr)
    as (-> & Hout & Hb).
  split; [reflexivity|]. split; [rewrite outcome_of_plain; exact Hout|]. split; [exact Hb|].
  destruct (recorded_calls queryEmbedding supabase tries w) as [Hreq _].
  rewrite Hcalls in Hreq. rewrite Hreq. rewrite length_app. simpl.
  replace (length before + 1)%nat with (S (length before)) by lia. reflexivity.
Qed.

(** A backend that is empty in tier 1 and fails in tier 2: two calls, then
    the error. *)
Lemma search_error_is_raised_at_once_witness :
  Retrieval.calls_of [] Retrieval.flaky_backend Retrieval.DEFAULT_TRIES 0%nat
  = [Retrieval.first_call] ++ Retrieval.second_call :: []
  /\ Retrieval.error (Retrieval.call_response Retrieval.second_call)
     = Some {| message := "timeout" |}
  /\ fst (Retrieval.retrieveWithFallback [] Retrieval.flaky_backend Retrieval.DEFAULT_TRIES 0%nat)
     = Throw "RPC error (match_filtered_document_sections): timeout".
Proof.
  split; [reflexivity|]. split; [reflexivity|].
  apply (search_error_is_raised_at_once nat [] Retrieval.flaky_backend
           Retrieval.DEFAULT_TRIES 0%nat
           [Retrieval.first_call] Retrieval.second_call [] {| message := "timeout" |});
    reflexivity.
Defined.

(** ** The ingest worker *)

Section IngestFacts.

Variable c : Collaborators.
Variable documentId : Z.

Lemma with_sections_nil db : with_sections db [] = db.
Proof. destruct db. unfold with_sections. simpl. rewrite app_nil_r. reflexivity. Qed.

Lemma with_sections_app db rows rows' :
  with_sections (with_sections db rows) rows' = with_sections db (rows ++ rows').
Proof. unfold with_sections. simpl. rewrite app_assoc. reflexivity. Qed.

(** One turn of the loop, by the answer of the embedding provider and of
    the section store. *)
Lemma process_chunks_cons index chunk rest db :
  process_chunks c documentId index (chunk :: rest) db
  = match embeddings_create c index chunk with
    | Throw m => (Throw m, db)
    | Return data =>
        match head data with
        | None => process_chunks c documentId (S index) rest db
        | Some embedding =>
            match sections_insert c index (section_row documentId index chunk embedding) with
            | Some e => (Throw (or_else (message e) STORE_SECTIONS_MESSAGE), db)
            | None =>
                process_chunks c documentId (S index) rest
                  (with_sections db [section_row documentId index chunk embedding])
            end
        end
    end.
Proof.
  cbn [process_chunks]. unfold bind, lift.
  destruct (embeddings_create c index chunk) as [data|m]; [|reflexivity].
  destruct (head data) as [embedding|]; [|reflexivity].
  unfold insert_section.
  destruct (sections_insert c index (section_row documentId index chunk embedding));
    reflexivity.
Qed.

(** The loop never writes to the table of documents and only appends to
    the table of sections. *)
Lemma process_chunks_appends chunks : forall index db,
  exists rows,
    snd (process_chunks c documentId index chunks db) = with_sections db rows.
Proof.
  induction chunks as [|chunk rest IH]; intros index db.
  - exists []. rewrite with_sections_nil. reflexivity.
  - rewrite process_chunks_cons.
    destruct (embeddings_create c index chunk) as [data|m];
      [|exists []; rewrite with_sections_nil; reflexivity].
    destruct (head data) as [embedding|]; [|apply IH].
    destruct (sections_insert c index (section_row documentId index chunk embedding)).
    + exists []. rewrite with_sections_nil. reflexivity.
    + destruct (IH (S index) (with_sections db [section_row documentId index chunk embedding]))
        as [rows Hrows].
      exists (section_row documentId index chunk embedding :: rows).
      rewrite Hrows, with_sections_app. reflexivity.
Qed.

(** When the section store refuses the chunk that follows [before], the
    loop throws there, with the sections of [before] stored. *)
Lemma process_chunks_insert_failure before : forall index db chunk after embedding rest e,
  go_through c documentId index before = true ->
  embeddings_create c (index + length before) chunk = Return (embedding :: rest) ->
  sections_insert c (index + length before)
    (section_row documentId (index + length before) chunk embedding) = Some e ->
  process_chunks c documentId index (before ++ chunk :: after) db
  = (Throw (or_else (message e) STORE_SECTIONS_MESSAGE),
     with_sections db (rows_for c documentId index before)).
Proof.
  induction before as [|b before IH]; intros index db chunk after embedding rest e Hgo Hemb Hins.
  - cbn [length] in *. rewrite Nat.add_0_r in *.
    cbn [app]. rewrite process_chunks_cons, Hemb. cbn [head]. rewrite Hins.
    cbn [rows_for]. rewrite with_sections_nil. reflexivity.
  - cbn [length] in *. rewrite Nat.add_succ_r in *.
    cbn [go_through] in Hgo. apply andb_true_iff in Hgo as [Hb Hgo].
    change ((b :: before) ++ chunk :: after) with (b :: (before ++ chunk :: after)).
    rewrite process_chunks_cons. cbn [rows_for].
    destruct (embeddings_create c index b) as [[|eb data]|m]; [| |discriminate].
    + cbn [head]. apply (IH (S index) db chunk after embedding rest e Hgo Hemb Hins).
    + cbn [head] in *.
      destruct (sections_insert c index (section_row documentId index b eb)); [discriminate|].
      rewrite (IH (S index) _ chunk after embedding rest e Hgo Hemb Hins).
      rewrite with_sections_app. reflexivity.
Qed.

Lemma rows_for_order chunks : forall index,
  List.Forall (fun r => Z.of_nat index < section_order r <= Z.of_nat (index + length chunks)
                        /\ document_id r = documentId)
    (rows_for c documentId index chunks).
Proof.
  induction chunks as [|chunk rest IH]; intros index; [constructor|].
  cbn [rows_for length].
  assert (Hrest : List.Forall
            (fun r => Z.of_nat index < section_order r <= Z.of_nat (index + S (length rest))
                      /\ document_id r = documentId)
            (rows_for c documentId (S index) rest)).
  { eapply List.Forall_impl; [|apply (IH (S index))]. intros r [Hr Hd]. split; [lia | exact Hd]. }
  destruct (embeddings_create c index chunk) as [[|eb data]|m]; try exact Hrest.
  constructor; [|exact Hrest]. cbn. split; [lia | reflexivity].
Qed.

(** The status update of the [catch]. *)
Lemma marked_error db m row :
  documents db !! documentId = Some row ->
  documents_update c documentId (PatchError m) = None ->
  let db' := snd (update_document c documentId (PatchError m) db) in
  status_of db' documentId = Some "error"
  /\ error_message_of db' documentId = Some m
  /\ document_sections db' = document_sections db.
Proof.
  intros Hrow Hupd. unfold update_document. rewrite Hupd. cbn.
  unfold status_of, error_message_of. cbn.
  rewrite lookup_alter_eq, Hrow. repeat split.
Qed.

(** Whatever the document store answers, the [catch] does not make a
    document ready and leaves the sections alone. *)
Lemma catch_keeps_not_ready db m :
  let db' := snd (update_document c documentId (PatchError m) db) in
  (status_of db' documentId = Some "ready" -> status_of db documentId = Some "ready")
  /\ document_sections db' = document_sections db.
Proof.
  unfold update_document.
  destruct (documents_update c documentId (PatchError m)); cbn; [split; [tauto | reflexivity]|].
  split; [|reflexivity]. unfold status_of. cbn. rewrite lookup_alter_eq.
  destruct (documents db !! documentId); cbn; [discriminate | tauto].
Qed.

(** A run of the worker that answers 200 has written nothing to the table
    of documents. *)
Lemma worker_success_leaves_documents (req : Request) db :
  Ingest.documentId req = documentId ->
  fst (Worker.POST c req db) = Stored documentId ->
  documents (snd (Worker.POST c req db)) = documents db.
Proof.
  intros Hid. unfold Worker.POST, respond.
  destruct (Worker.run c req db) as [[u|m] db'] eqn:Hrun; [|discriminate].
  intros _. cbn [snd].
  assert (Hdb : exists rows, db' = with_sections db rows).
  { unfold Worker.run in Hrun. rewrite Hid in Hrun.
    destruct (storage_download c (storagePath req)); [|discriminate].
    cbn zeta in Hrun.
    destruct (negb _) in Hrun.
    - destruct (process_chunks_appends
                  (splitIntoChunks
                     (text_or_empty (Worker.extractTextFromFile c b (mimetype req)))
                     DEFAULT_MAX_CHUNK_SIZE) 0 db) as [rows Hrows].
      rewrite Hrun in Hrows. exists rows. exact Hrows.
    - injection Hrun as _ <-. exists []. rewrite with_sections_nil. reflexivity. }
  destruct Hdb as [rows ->]. reflexivity.
Qed.

End IngestFacts.

(** C9: when the section store refuses the section of a chunk, every chunk
    before it having gone through, the worker stops there: it answers 500,
    the document ends in status [error] with the store's message (the
    document store applying the update), and the table of sections holds, on
    top of what it held, the sections of the chunks before the failing one
    and nothing of it or of the chunks after it. *)
Theorem persistence_failure_marks_error_and_keeps_sections :
  forall (c : Collaborators) (req : Request) (db : Db) (buffer : Buffer)
         (before : list js_string) (chunk : js_string) (after : list js_string)
         (embedding : Embedding) (rest : list Embedding) (e : PostgrestError)
         (row : DocumentRow),
    storage_download c (storagePath req) = Some buffer ->
    negb (len (trim (text_or_empty (Worker.extractTextFromFile c buffer (mimetype req)))) =? 0)
    = true ->
    splitIntoChunks (text_or_empty (Worker.extractTextFromFile c buffer (mimetype req)))
      DEFAULT_MAX_CHUNK_SIZE
    = before ++ chunk :: after ->
    go_through c (documentId req) 0 before = true ->
    embeddings_create c (length before) chunk = Return (embedding :: rest) ->
    sections_insert c (length before)
      (section_row (documentId req) (length before) chunk embedding) = Some e ->
    documents db !! documentId req = Some row ->
    documents_update c (documentId req)
      (PatchError (or_else (message e) STORE_SECTIONS_MESSAGE)) = None ->
    fst (Worker.POST c req db) = NotOk
    /\ status_of (snd (Worker.POST c req db)) (documentId req) = Some "error"
    /\ error_message_of (snd (Worker.POST c req db)) (documentId req)
       = Some (or_else (message e) STORE_SECTIONS_MESSAGE)
    /\ document_sections (snd (Worker.POST c req db))
       = document_sections db ++ rows_for c (documentId req) 0 before
    /\ List.Forall (fun r => section_order r <= Z.of_nat (length before))
         (rows_for c (documentId req) 0 before).
Proof.
  intros c req db buffer before chunk after embedding rest e row
         Hdl Htext Hchunks Hgo Hemb Hins Hrow Hupd.
  assert (Hrun : Worker.run c req db
                 = (Throw (or_else (message e) STORE_SECTIONS_MESSAGE),
                    with_sections db (rows_for c (documentId req) 0 before))).
  { unfold Worker.run. rewrite Hdl. cbn zeta. rewrite Htext, Hchunks.
    apply (process_chunks_insert_failure c (documentId req) before 0 db chunk after
             embedding rest e Hgo Hemb Hins). }
  unfold Worker.POST, respond. rewrite Hrun. cbn [fst snd].
  destruct (marked_error c (documentId req)
              (with_sections db (rows_for c (documentId req) 0 before))
              (or_else (message e) STORE_SECTIONS_MESSAGE) row Hrow Hupd)
    as (Hst & Hmsg & Hsec).
  split; [reflexivity|]. split; [exact Hst|]. split; [exact Hmsg|]. split; [exact Hsec|].
  eapply List.Forall_impl; [|apply (rows_for_order c (documentId req) before 0)].
  intros r [Hr _]. cbn in Hr. lia.
Qed.

(** Chunk 2 of 3 is refused: the document ends in [error] and the section
    of chunk 1 stays. *)
Lemma persistence_failure_marks_error_and_keeps_sections_witness :
  storage_download failing_docx (storagePath docx_request) = Some []
  /\ splitIntoChunks (text_or_empty (Worker.extractTextFromFile failing_docx [] (mimetype docx_request)))
       DEFAULT_MAX_CHUNK_SIZE
     = [long_sentence] ++ long_sentence :: [long_sentence]
  /\ sections_insert failing_docx 1%nat (section_row 7 1 long_sentence [1 # 2]%Q)
     = Some {| message := "duplicate key" |}
  /\ fst (Worker.POST failing_docx docx_request queued_db) = NotOk
  /\ status_of (snd (Worker.POST failing_docx docx_request queued_db)) 7 = Some "error"
  /\ List.map section_order (document_sections (snd (Worker.POST failing_docx docx_request queued_db)))
     = [1].
Proof.
  split; [reflexivity|]. split; [vm_compute; reflexivity|]. split; [reflexivity|].
  destruct (persistence_failure_marks_error_and_keeps_sections
              failing_docx docx_request queued_db [] [long_sentence] long_sentence [long_sentence]
              [1 # 2]%Q [] {| message := "duplicate key" |}
              {| status := "queued"; error_message := None |})
    as (H1 & H2 & _ & H4 & _);
    try (vm_compute; reflexivity).
  split; [exact H1|]. split; [exact H2|]. rewrite H4. vm_compute. reflexivity.
Defined.

(** The same holds of the worker built on the shared utils. *)
Lemma utils_worker_persistence_failure
    (c : Collaborators) (req : Request) (db : Db) (buffer : Buffer)
    (before : list js_string) (chunk : js_string) (after : list js_string)
    (embedding : Embedding) (rest : list Embedding) (e : PostgrestError)
    (row : DocumentRow) :
  storage_download c (storagePath req) = Some buffer ->
  negb (len (trim (text_or_empty (UtilsWorker.extractTextFromFile c buffer (mimetype req))))
        =? 0) = true ->
  splitIntoChunks (text_or_empty (UtilsWorker.extractTextFromFile c buffer (mimetype req)))
    DEFAULT_MAX_CHUNK_SIZE
  = before ++ chunk :: after ->
  go_through c (documentId req) 0 before = true ->
  embeddings_create c (length before) chunk = Return (embedding :: rest) ->
  sections_insert c (length before)
    (section_row (documentId req) (length before) chunk embedding) = Some e ->
  documents db !! documentId req = Some row ->
  documents_update c (documentId req)
    (PatchError (or_else (message e) STORE_SECTIONS_MESSAGE)) = None ->
  fst (UtilsWorker.POST c req db) = NotOk
  /\ status_of (snd (UtilsWorker.POST c req db)) (documentId req) = Some "error"
  /\ document_sections (snd (UtilsWorker.POST c req db))
     = document_sections db ++ rows_for c (documentId req) 0 before.
Proof.
  intros Hdl Htext Hchunks Hgo Hemb Hins Hrow Hupd.
  assert (Hrun : UtilsWorker.run c req db
                 = (Throw (or_else (message e) STORE_SECTIONS_MESSAGE),
                    with_sections db (rows_for c (documentId req) 0 before))).
  { unfold UtilsWorker.run. rewrite Hdl. cbn zeta. rewrite Htext, Hchunks.
    unfold bind at 1.
    rewrite (process_chunks_insert_failure c (documentId req) before 0 db chunk after
               embedding rest e Hgo Hemb Hins).
    reflexivity. }
  unfold UtilsWorker.POST, respond. rewrite Hrun. cbn [fst snd].
  destruct (marked_error c (documentId req)
              (with_sections db (rows_for c (documentId req) 0 before))
              (or_else (message e) STORE_SECTIONS_MESSAGE) row Hrow Hupd)
    as (Hst & _ & Hsec).
  split; [reflexivity|]. split; [exact Hst | exact Hsec].
Qed.

(** C1 (as the code has it): when the extracted text is empty or only white
    space, no section is stored and the document is not made ready; the
    worker built on the shared utils answers 500 and, the document store
    applying the update, leaves the document in status [error] with the
    fixed message "We could not store the vectorized sections.". *)
Theorem empty_text_stores_nothing_and_is_not_ready :
  forall (c : Collaborators) (req : Request) (db : Db) (buffer : Buffer),
    storage_download c (storagePath req) = Some buffer ->
    ((len (trim (text_or_empty (Worker.extractTextFromFile c buffer (mimetype req)))) =? 0)
     = true ->
     document_sections (snd (Worker.POST c req db)) = document_sections db
     /\ (status_of (snd (Worker.POST c req db)) (documentId req) = Some "ready" ->
         status_of db (documentId req) = Some "ready"))
    /\ ((len (trim (text_or_empty (UtilsWorker.extractTextFromFile c buffer (mimetype req))))
         =? 0) = true ->
        fst (UtilsWorker.POST c req db) = NotOk
        /\ document_sections (snd (UtilsWorker.POST c req db)) = document_sections db
        /\ (status_of (snd (UtilsWorker.POST c req db)) (documentId req) = Some "ready" ->
            status_of db (documentId req) = Some "ready")
        /\ (forall row,
              documents db !! documentId req = Some row ->
              documents_update c (documentId req) (PatchError STORE_SECTIONS_MESSAGE) = None ->
              status_of (snd (UtilsWorker.POST c req db)) (documentId req) = Some "error"
              /\ error_message_of (snd (UtilsWorker.POST c req db)) (documentId req)
                 = Some "We could not store the vectorized sections.")).
Proof.
  intros c req db buffer Hdl. split.
  - intros Hempty. unfold Worker.POST, respond, Worker.run.
    rewrite Hdl. cbn zeta. rewrite Hempty. cbn. split; [reflexivity | tauto].
  - intros Hempty.
    assert (Hrun : UtilsWorker.run c req db = (Throw STORE_SECTIONS_MESSAGE, db)).
    { unfold UtilsWorker.run. rewrite Hdl. cbn zeta. rewrite Hempty. reflexivity. }
    unfold UtilsWorker.POST, respond. rewrite Hrun. cbn [fst snd].
    destruct (catch_keeps_not_ready c (documentId req) db STORE_SECTIONS_MESSAGE) as [Hr Hs].
    split; [reflexivity|]. split; [exact Hs|]. split; [exact Hr|].
    intros row Hrow Hupd.
    destruct (marked_error c (documentId req) db STORE_SECTIONS_MESSAGE row Hrow Hupd)
      as (Hst & Hmsg & _).
    split; [exact Hst | exact Hmsg].
Qed.

(** A Word document whose text is two spaces. *)
Lemma empty_text_stores_nothing_and_is_not_ready_witness :
  storage_download blank_docx (storagePath docx_request) = Some []
  /\ (len (trim (text_or_empty (Worker.extractTextFromFile blank_docx [] (mimetype docx_request)))) =? 0)
     = true
  /\ (len (trim (text_or_empty (UtilsWorker.extractTextFromFile blank_docx [] (mimetype docx_request))))
      =? 0) = true
  /\ document_sections (snd (Worker.POST blank_docx docx_request queued_db)) = []
  /\ document_sections (snd (UtilsWorker.POST blank_docx docx_request queued_db)) = []
  /\ status_of (snd (UtilsWorker.POST blank_docx docx_request queued_db)) 7 = Some "error".
Proof.
  split; [reflexivity|]. split; [reflexivity|]. split; [reflexivity|].
  destruct (empty_text_stores_nothing_and_is_not_ready blank_docx docx_request queued_db []
              ltac:(reflexivity)) as [HA HC].
  destruct (HA ltac:(reflexivity)) as [HA1 _].
  destruct (HC ltac:(reflexivity)) as (_ & HC2 & _ & HC4).
  destruct (HC4 {| status := "queued"; error_message := None |}
              ltac:(reflexivity) ltac:(reflexivity)) as [HC5 _].
  split; [exact HA1|]. split; [exact HC2 | exact HC5].
Defined.

(** C1 (as the specification words it) fails: on a Word document whose text
    is white space the worker answers 200 and writes no status, so the
    document stays [queued]; the worker built on the shared utils marks it
    [error], with a message that is not the one of the specification. *)
Lemma empty_text_is_not_marked_no_extractable_text :
  text_or_empty (Worker.extractTextFromFile blank_docx [] (mimetype docx_request)) = []
  /\ Worker.POST blank_docx docx_request queued_db = (Stored 7, queued_db)
  /\ status_of (snd (Worker.POST blank_docx docx_request queued_db)) 7 = Some "queued"
  /\ status_of (snd (Worker.POST blank_docx docx_request queued_db)) 7 <> Some "error"
  /\ error_message_of (snd (Worker.POST blank_docx docx_request queued_db)) 7 = None
  /\ error_message_of (snd (UtilsWorker.POST blank_docx docx_request queued_db)) 7
     = Some "We could not store the vectorized sections."
  /\ error_message_of (snd (UtilsWorker.POST blank_docx docx_request queued_db)) 7
     <> Some SPEC_NO_TEXT_MESSAGE.
Proof.
  repeat split; try (vm_compute; reflexivity); vm_compute; discriminate.
Qed.

(** C2 at a run where every chunk is stored: the worker answers 200 with the
    one section stored but writes no status, so the document stays [queued];
    the worker built on the shared utils, on the same run, makes it
    [ready]. *)
Theorem stored_document_stays_queued :
  fst (Worker.POST hello_docx docx_request queued_db) = Stored 7
  /\ List.map section_content (document_sections (snd (Worker.POST hello_docx docx_request queued_db)))
     = [lit "Hello world."]
  /\ status_of (snd (Worker.POST hello_docx docx_request queued_db)) 7 = Some "queued"
  /\ status_of (snd (UtilsWorker.POST hello_docx docx_request queued_db)) 7 = Some "ready".
Proof.
  repeat split; vm_compute; reflexivity.
Qed.


(** * Further properties *)

(** ** Content kept by [trim], [sanitizeText] and [splitIntoChunks] *)

Section ContentFacts.

#[local] Arguments is_white_space : simpl never.

Lemma visible_app a b : visible (a ++ b) = visible a ++ visible b.
Proof. unfold visible. apply List.filter_app. Qed.

Lemma visible_trimStart s : visible (trimStart s) = visible s.
Proof.
  induction s as [|c t IH]; [reflexivity|].
  cbn [trimStart]. destruct (is_white_space c) eqn:E; [|reflexivity].
  rewrite IH. unfold visible. cbn [List.filter]. rewrite E. reflexivity.
Qed.

Lemma visible_trimEnd s : visible (trimEnd s) = visible s.
Proof.
  induction s as [|c t IH]; [reflexivity|].
  cbn [trimEnd]. unfold visible in *. cbn [List.filter].
  destruct (trimEnd t) as [|b u] eqn:E.
  - rewrite <- IH. destruct (is_white_space c) eqn:Ec; cbn [List.filter negb];
      rewrite ?Ec; reflexivity.
  - cbn [List.filter] in *. rewrite IH. reflexivity.
Qed.

Lemma visible_trim s : visible (trim s) = visible s.
Proof. unfold trim. rewrite visible_trimEnd, visible_trimStart. reflexivity. Qed.

Lemma visible_nil_iff s : visible s = [] <-> blank s = true.
Proof.
  unfold visible, blank. induction s as [|c t IH]; [split; reflexivity|].
  cbn [List.filter forallb]. destruct (is_white_space c); cbn [negb andb].
  - exact IH.
  - split; discriminate.
Qed.

Lemma trim_nil_iff s : trim s = [] <-> blank s = true.
Proof.
  rewrite <- visible_nil_iff. split.
  - intros H. rewrite <- visible_trim, H. reflexivity.
  - intros H. rewrite <- visible_trim in H.
    destruct (trim s) as [|a t] eqn:E; [reflexivity|]. exfalso.
    destruct (trim_trimmed s) as [Hh _]. rewrite E in Hh.
    specialize (Hh a eq_refl). unfold visible in H. cbn [List.filter] in H.
    rewrite Hh in H. discriminate.
Qed.

Lemma concat_push_head c (l : list js_string) : concat (push_head c l) = c :: concat l.
Proof. destruct l; reflexivity. Qed.

Lemma visible_cons_space c s : is_white_space c = true -> visible (c :: s) = visible s.
Proof. intros H. unfold visible. cbn [List.filter]. rewrite H. reflexivity. Qed.

Lemma visible_cons_mark c s :
  is_white_space c = false -> visible (c :: s) = c :: visible s.
Proof. intros H. unfold visible. cbn [List.filter]. rewrite H. reflexivity. Qed.

Lemma visible_split_sentences s : forall a r,
  visible (concat (split_sentences_from a r s)) = visible s.
Proof.
  induction s as [|c t IH]; intros a r; [reflexivity|].
  cbn [split_sentences_from]. destruct (is_white_space c) eqn:E.
  - rewrite (visible_cons_space c t E). destruct r; [apply IH|].
    destruct a.
    + cbn [concat app]. apply IH.
    + rewrite concat_push_head, (visible_cons_space c _ E). apply IH.
  - rewrite concat_push_head, !(visible_cons_mark c _ E), IH. reflexivity.
Qed.

Lemma line_feed_is_space c : (c =? LF) = true -> is_white_space c = true.
Proof. intros H%Z.eqb_eq. subst c. reflexivity. Qed.

Lemma carriage_return_is_space c : (c =? CR) = true -> is_white_space c = true.
Proof. intros H%Z.eqb_eq. subst c. reflexivity. Qed.

Lemma visible_split_newlines s : forall r,
  visible (concat (split_newlines_from r s)) = visible s.
Proof.
  induction s as [|c t IH]; intros r; [reflexivity|].
  cbn [split_newlines_from]. destruct (c =? LF) eqn:E.
  - rewrite (visible_cons_space c t (line_feed_is_space c E)).
    destruct r; [apply IH | cbn [concat app]; apply IH].
  - rewrite concat_push_head. unfold visible. cbn [List.filter].
    fold (visible (concat (split_newlines_from false t))). rewrite IH. reflexivity.
Qed.

Lemma normalizeLineEndings_cons c t :
  normalizeLineEndings (c :: t)
  = if c =? CR then
      LF :: match t with
            | l :: t' => if l =? LF then normalizeLineEndings t' else normalizeLineEndings t
            | [] => []
            end
    else c :: normalizeLineEndings t.
Proof. destruct t; reflexivity. Qed.

Lemma visible_normalizeLineEndings_bounded n : forall s,
  (length s <= n)%nat -> visible (normalizeLineEndings s) = visible s.
Proof.
  induction n as [|n IH]; intros s Hn.
  - destruct s; [reflexivity | simpl in Hn; lia].
  - destruct s as [|c t]; [reflexivity|].
    rewrite normalizeLineEndings_cons. destruct (c =? CR) eqn:E.
    + rewrite (visible_cons_space c t (carriage_return_is_space c E)).
      rewrite (visible_cons_space LF _ eq_refl).
      destruct t as [|l t']; [reflexivity|].
      destruct (l =? LF) eqn:El.
      * rewrite (visible_cons_space l t' (line_feed_is_space l El)).
        apply IH. simpl in Hn. lia.
      * apply IH. simpl in Hn |- *. lia.
    + unfold visible. cbn [List.filter].
      fold (visible (normalizeLineEndings t)). fold (visible t).
      rewrite (IH t) by (simpl in Hn; lia). reflexivity.
Qed.

Lemma visible_normalizeLineEndings s : visible (normalizeLineEndings s) = visible s.
Proof. apply (visible_normalizeLineEndings_bounded (length s)). lia. Qed.

Lemma concat_filter_nonempty (l : list js_string) :
  concat (List.filter nonempty l) = concat l.
Proof.
  induction l as [|p l IH]; [reflexivity|].
  cbn [List.filter]. destruct p as [|a p]; cbn [nonempty concat app]; rewrite IH; reflexivity.
Qed.

Lemma visible_concat_map_trim (l : list js_string) :
  visible (concat (List.map trim l)) = visible (concat l).
Proof.
  induction l as [|p l IH]; [reflexivity|].
  cbn [List.map concat]. rewrite !visible_app, visible_trim, IH. reflexivity.
Qed.

Lemma visible_sentences text : visible (concat (sentences_of text)) = visible text.
Proof.
  unfold sentences_of, split_newlines.
  rewrite <- (visible_normalizeLineEndings text).
  rewrite <- (visible_split_newlines (normalizeLineEndings text) false).
  induction (split_newlines_from false (normalizeLineEndings text)) as [|p ps IH];
    [reflexivity|].
  cbn [flat_map concat]. rewrite concat_app, !visible_app, IH.
  rewrite concat_filter_nonempty, visible_concat_map_trim.
  unfold split_sentences. rewrite visible_split_sentences. reflexivity.
Qed.

Lemma visible_join_space (g : list js_string) :
  visible (join_space g) = visible (concat g).
Proof.
  unfold join_space. induction g as [|p g IH]; [reflexivity|].
  destruct g as [|q g].
  - cbn [join concat]. rewrite app_nil_r. reflexivity.
  - rewrite join_cons2, !visible_app, IH.
    rewrite (visible_cons_space SPACE [] eq_refl).
    cbn [concat]. rewrite !visible_app. reflexivity.
Qed.

Lemma visible_joined_groups (groups : list (list js_string)) :
  visible (concat (List.map join_space groups)) = visible (concat (concat groups)).
Proof.
  induction groups as [|g groups IH]; [reflexivity|].
  cbn [List.map concat]. rewrite concat_app, !visible_app, visible_join_space, IH.
  reflexivity.
Qed.

Lemma visible_chunks text maxChunkSize :
  visible (concat (splitIntoChunks text maxChunkSize)) = visible text.
Proof.
  destruct (splitIntoChunks_groups text maxChunkSize) as (groups & -> & Hcat & _ & _).
  rewrite visible_joined_groups, Hcat. apply visible_sentences.
Qed.

Lemma sanitizeText_eq input : sanitizeText input = trim (List.map scrub input).
Proof.
  destruct input as [|c t]; [reflexivity|].
  unfold sanitizeText. rewrite cleaned_is_scrubbed. reflexivity.
Qed.

Lemma scrub_fixed c : blanked c = false -> scrub c = c.
Proof. unfold scrub. intros ->. reflexivity. Qed.

Lemma map_scrub_fixed s :
  List.Forall (fun c => blanked c = false) s -> List.map scrub s = s.
Proof.
  induction 1 as [|c s Hc Hs IH]; [reflexivity|].
  cbn [List.map]. rewrite IH, (scrub_fixed c Hc). reflexivity.
Qed.

Lemma scrub_space_iff c :
  is_white_space (scrub c) = true <-> blanked c = true \/ is_white_space c = true.
Proof.
  unfold scrub. destruct (blanked c).
  - split; [left; reflexivity | reflexivity].
  - split; [right; assumption | intros [H | H]; [discriminate | exact H]].
Qed.

End ContentFacts.

(** X1: [sanitizeText] is idempotent: cleaning a cleaned text changes
    nothing. *)
Theorem sanitizeText_idempotent :
  forall input : js_string, sanitizeText (sanitizeText input) = sanitizeText input.
Proof.
  intros input. rewrite (sanitizeText_eq (sanitizeText input)).
  rewrite (sanitizeText_eq input).
  rewrite map_scrub_fixed.
  - apply trim_fixed, trim_trimmed.
  - apply trim_Forall, List.Forall_forall. intros c Hc.
    apply in_map_iff in Hc as (c0 & <- & _). apply scrub_not_blanked.
Qed.

(** X2: [sanitizeText] returns the empty string exactly for the inputs that
    hold nothing but white space and characters it blanks (controls, DEL,
    U+FFFD); any other character makes the result non-empty. *)
Theorem sanitizeText_empty_iff :
  forall input : js_string,
    sanitizeText input = []
    <-> List.Forall (fun c => blanked c = true \/ is_white_space c = true) input.
Proof.
  intros input. rewrite sanitizeText_eq, trim_nil_iff. unfold blank.
  rewrite forallb_forall, List.Forall_forall. split.
  - intros H c Hc. apply scrub_space_iff, H, in_map, Hc.
  - intros H c Hc. apply in_map_iff in Hc as (c0 & <- & Hc0).
    apply scrub_space_iff, H, Hc0.
Qed.

(** X3: the chunker loses and reorders no visible character: the chunks
    put end to end, white space taken out, are the text with its white space
    taken out. *)
Theorem chunks_keep_visible_text :
  forall (text : js_string) (maxChunkSize : Z),
    visible (concat (sentences_of text)) = visible text
    /\ visible (concat (splitIntoChunks text maxChunkSize)) = visible text.
Proof.
  intros text maxChunkSize. split.
  - apply visible_sentences.
  - apply visible_chunks.
Qed.

(** X4: the chunker returns no chunk exactly when the text is empty or
    holds white space only, whatever [maxChunkSize] is. *)
Theorem no_chunks_iff_blank :
  forall (text : js_string) (maxChunkSize : Z),
    splitIntoChunks text maxChunkSize = [] <-> blank text = true.
Proof.
  intros text maxChunkSize. rewrite <- visible_nil_iff. split.
  - intros H. rewrite <- (visible_chunks text maxChunkSize), H. reflexivity.
  - intros H. rewrite <- (visible_chunks text maxChunkSize) in H.
    destruct (splitIntoChunks_groups text maxChunkSize) as (groups & Hc & Hcat & Hne & _).
    rewrite Hc in *. destruct groups as [|g groups]; [reflexivity|]. exfalso.
    pose proof (sentences_proper text) as Hproper. rewrite <- Hcat in Hproper.
    cbn [concat] in Hproper. apply Forall_app in Hproper as [Hg _].
    inversion Hne as [|? ? Hgne _]; subst.
    destruct (join_space_trimmed g Hgne Hg) as [Hh _].
    assert (Hj : join_space g <> []).
    { apply join_space_nonempty; [exact Hgne|].
      eapply List.Forall_impl; [|exact Hg]. intros s [Hs _]. exact Hs. }
    destruct (join_space g) as [|a j] eqn:Ej; [congruence|].
    specialize (Hh a eq_refl). cbn [List.map concat] in H. rewrite Ej in H.
    unfold visible in H. cbn [app List.filter] in H. rewrite Hh in H. discriminate.
Qed.

(** ** Greedy packing *)

Section PackingFacts.

Variable maxChunkSize : Z.

Lemma tight_snoc_head (gs : list (list js_string)) cur cur' :
  head cur' = head cur ->
  tight maxChunkSize (gs ++ [cur]) -> tight maxChunkSize (gs ++ [cur']).
Proof.
  intros Hhead. induction gs as [|g gs IH]; [intros _; exact I|].
  destruct gs as [|h gs].
  - cbn. intros [H _]. split; [|exact I]. intros s Hs. apply H. congruence.
  - cbn [app tight]. intros [H Ht]. split; [exact H | apply IH, Ht].
Qed.

Lemma tight_snoc_new (gs : list (list js_string)) cur h :
  tight maxChunkSize (gs ++ [cur]) ->
  (forall s, head h = Some s -> maxChunkSize < len (join_space cur) + 1 + len s) ->
  tight maxChunkSize ((gs ++ [cur]) ++ [h]).
Proof.
  intros Ht Hnew. induction gs as [|g gs IH].
  - cbn. split; [exact Hnew | exact I].
  - destruct gs as [|h' gs].
    + cbn in Ht |- *. destruct Ht as [H _]. repeat split; assumption.
    + cbn [app tight] in Ht |- *. destruct Ht as [H Ht]. split; [exact H | apply IH, Ht].
Qed.

Lemma tight_adjacent (groups : list (list js_string)) : forall pre g h post,
  tight maxChunkSize groups ->
  groups = pre ++ g :: h :: post ->
  forall s, head h = Some s -> maxChunkSize < len (join_space g) + 1 + len s.
Proof.
  induction groups as [|g0 groups IH]; intros pre g h post Ht Heq.
  - destruct pre; discriminate.
  - destruct pre as [|p pre].
    + cbn [app] in Heq. injection Heq as -> ->. cbn in Ht. apply Ht.
    + cbn [app] in Heq. injection Heq as -> ->.
      apply (IH pre g h post); [|reflexivity].
      destruct pre; cbn [app tight] in Ht; apply Ht.
Qed.

Lemma concat_nil_nonempty (groups : list (list js_string)) :
  List.Forall (fun g => g <> []) groups -> concat groups = [] -> groups = [].
Proof.
  destruct 1 as [|g groups Hg _]; [reflexivity|].
  cbn [concat]. destruct g; [congruence | discriminate].
Qed.

(** The packing loop keeps the groups tight. *)
Lemma pack_tight (sentences : list js_string) :
  List.Forall (fun s => s <> []) sentences ->
  exists groups current,
    pack maxChunkSize sentences = (List.map join_space groups, join_space current)
    /\ concat groups ++ current = sentences
    /\ List.Forall (fun g => g <> []) groups
    /\ (sentences <> [] -> current <> [])
    /\ tight maxChunkSize (groups ++ [current]).
Proof.
  induction sentences as [|s l IH] using rev_ind; intros Hall.
  - exists [], []. repeat split; try constructor; congruence.
  - apply Forall_app in Hall as [Hl Hs]. inversion Hs as [|? ? Hsne _]; subst.
    destruct (IH Hl) as (groups & cur & Hpack & Hcat & Hgne & Hcur & Ht).
    unfold pack in *. rewrite fold_left_app, Hpack. cbn [fold_left pack_step].
    destruct (len (join_space cur) =? 0) eqn:Hz.
    + apply len_zero in Hz.
      assert (Hc : cur = []).
      { destruct cur as [|c0 cur]; [reflexivity|]. exfalso.
        apply (join_space_nonempty (c0 :: cur)); [discriminate | | exact Hz].
        subst l. apply Forall_app in Hl as [_ Hl]. exact Hl. }
      subst cur. rewrite app_nil_r in Hcat.
      assert (Hl0 : l = []) by (destruct l; [reflexivity | exfalso; apply Hcur; congruence]).
      subst l. rewrite (concat_nil_nonempty groups Hgne Hl0) in *.
      exists [], [s]. repeat split; try constructor; congruence.
    + assert (Hc : cur <> []).
      { intros ->. unfold join_space in Hz. simpl in Hz. discriminate. }
      destruct (len (join_space cur) + 1 + len s <=? maxChunkSize) eqn:Hfit.
      * exists groups, (cur ++ [s]).
        rewrite join_space_app by (assumption || discriminate).
        repeat split; try assumption.
        -- rewrite app_assoc, Hcat. reflexivity.
        -- intros _. destruct cur; discriminate.
        -- apply (tight_snoc_head groups cur); [|exact Ht].
           destruct cur; [congruence | reflexivity].
      * exists (groups ++ [cur]), [s]. apply Z.leb_gt in Hfit.
        rewrite List.map_app. cbn [List.map].
        repeat split.
        -- rewrite concat_app. simpl. rewrite app_nil_r, Hcat. reflexivity.
        -- apply Forall_app. split; [assumption | constructor; [exact Hc | constructor]].
        -- congruence.
        -- apply tight_snoc_new; [exact Ht|]. intros s' [= <-]. lia.
Qed.

Lemma splitIntoChunks_tight text :
  exists groups,
    splitIntoChunks text maxChunkSize = List.map join_space groups
    /\ concat groups = sentences_of text
    /\ List.Forall (fun g => g <> []) groups
    /\ tight maxChunkSize groups.
Proof.
  pose proof (sentences_proper text) as Hproper.
  assert (Hne : List.Forall (fun s => s <> []) (sentences_of text))
    by (eapply List.Forall_impl; [|exact Hproper]; intros s [Hs _]; exact Hs).
  destruct (pack_tight _ Hne) as (groups & cur & Hpack & Hcat & Hgne & Hcur & Ht).
  unfold splitIntoChunks. rewrite Hpack. cbn [finish].
  destruct cur as [|s cur].
  - exists groups. rewrite app_nil_r in Hcat. split; [reflexivity|]. split; [exact Hcat|].
    split; [exact Hgne|].
    assert (Hnil : sentences_of text = []).
    { destruct (sentences_of text); [reflexivity | exfalso; apply Hcur; congruence]. }
    rewrite Hnil in Hcat. rewrite (concat_nil_nonempty groups Hgne Hcat). exact I.
  - assert (Htr : trimmed (join_space (s :: cur))).
    { apply join_space_trimmed; [discriminate|].
      rewrite <- Hcat in Hproper. apply Forall_app in Hproper as [_ H]. exact H. }
    rewrite (trim_fixed _ Htr).
    assert (Hnz : join_space (s :: cur) <> []).
    { apply join_space_nonempty; [discriminate|].
      rewrite <- Hcat in Hne. apply Forall_app in Hne as [_ H]. exact H. }
    destruct (len (join_space (s :: cur)) =? 0) eqn:Hz;
      [apply len_zero in Hz; congruence|].
    exists (groups ++ [s :: cur]). rewrite List.map_app. cbn [List.map].
    split; [reflexivity|]. split; [|split; [|exact Ht]].
    + rewrite concat_app. simpl. rewrite app_nil_r. exact Hcat.
    + apply Forall_app. split; [assumption | constructor; [discriminate | constructor]].
Qed.

End PackingFacts.

(** X5: packing is greedy: two chunks that follow each other could not have
    been one, since the first sentence of the later chunk (and so the whole
    later chunk) did not fit behind the earlier chunk within
    [maxChunkSize]. *)
Theorem adjacent_chunks_do_not_fit :
  forall (text : js_string) (maxChunkSize : Z)
         (pre : list js_string) (c1 c2 : js_string) (post : list js_string),
    splitIntoChunks text maxChunkSize = pre ++ c1 :: c2 :: post ->
    maxChunkSize < len c1 + 1 + len c2
    /\ exists s rest,
         c2 = join_space (s :: rest)
         /\ In s (sentences_of text)
         /\ maxChunkSize < len c1 + 1 + len s.
Proof.
  intros text maxChunkSize pre c1 c2 post Hchunks.
  destruct (splitIntoChunks_tight maxChunkSize text) as (groups & Hc & Hcat & Hne & Ht).
  rewrite Hc in Hchunks.
  apply map_eq_app in Hchunks as (gpre & grest & Hg & Hpre & Hrest).
  destruct grest as [|g grest]; [discriminate|]. cbn [List.map] in Hrest.
  injection Hrest as <- Hrest.
  destruct grest as [|h gpost]; [discriminate|]. cbn [List.map] in Hrest.
  injection Hrest as <- Hpost.
  destruct h as [|s rest].
  - exfalso. rewrite Hg in Hne. apply Forall_app in Hne as [_ Hne].
    inversion Hne as [|? ? _ Hne']; subst. inversion Hne' as [|? ? Hh _]; subst.
    congruence.
  - pose proof (tight_adjacent maxChunkSize groups gpre g (s :: rest) gpost Ht Hg s eq_refl)
      as Htight.
    assert (Hs : In s (sentences_of text)).
    { rewrite <- Hcat, Hg. apply in_concat. exists (s :: rest). split; [|left; reflexivity].
      apply in_or_app. right. right. left. reflexivity. }
    split.
    + pose proof (len_member_le_join (s :: rest) s ltac:(left; reflexivity)). lia.
    + exists s, rest. repeat split; assumption.
Qed.

(** The example text under a budget of 10. *)
Lemma adjacent_chunks_do_not_fit_witness :
  splitIntoChunks five_sentences 10
  = [] ++ lit "One. Two!" :: lit "Three?" :: [lit "four Five."]
  /\ 10 < len (lit "One. Two!") + 1 + len (lit "Three?").
Proof.
  split; [reflexivity|].
  apply (adjacent_chunks_do_not_fit five_sentences 10
           [] (lit "One. Two!") (lit "Three?") [lit "four Five."]).
  reflexivity.
Defined.

(** X6: a budget below 3 merges nothing and raises no error: every
    sentence is a chunk of its own, so the chunks are the sentence stream. *)
Theorem tiny_budget_gives_one_chunk_per_sentence :
  forall (text : js_string) (maxChunkSize : Z),
    maxChunkSize <= 2 ->
    splitIntoChunks text maxChunkSize = sentences_of text.
Proof.
  intros text maxChunkSize Hmax.
  destruct (splitIntoChunks_groups text maxChunkSize) as (groups & -> & Hcat & Hne & Hbud).
  pose proof (sentences_proper text) as Hproper. rewrite <- Hcat in Hproper |- *.
  clear Hcat. induction groups as [|g groups IH]; [reflexivity|].
  inversion Hne as [|? ? Hg Hne']; subst. inversion Hbud as [|? ? Hb Hbud']; subst.
  cbn [concat] in Hproper. apply Forall_app in Hproper as [Hpg Hprest].
  cbn [List.map concat]. rewrite (IH Hne' Hbud' Hprest).
  destruct g as [|s1 [|s2 rest]]; [congruence | reflexivity |]. exfalso.
  destruct Hb as [[s Hs] | Hle]; [discriminate|].
  unfold join_space in Hle. rewrite join_cons2, !len_app in Hle.
  inversion Hpg as [|? ? [Hs1 _] Hrest]; subst.
  assert (H2 : join_space (s2 :: rest) <> []).
  { apply join_space_nonempty; [discriminate|].
    eapply List.Forall_impl; [|exact Hrest]. intros x [Hx _]. exact Hx. }
  unfold join_space in H2.
  destruct s1; [congruence|]. destruct (join [SPACE] (s2 :: rest)); [congruence|].
  unfold len in Hle. cbn [length] in Hle. lia.
Qed.

Lemma tiny_budget_gives_one_chunk_per_sentence_witness :
  0 <= 2 /\ splitIntoChunks five_sentences 0 = sentences_of five_sentences.
Proof.
  split; [lia|].
  apply (tiny_budget_gives_one_chunk_per_sentence five_sentences 0). lia.
Defined.

(** ** Lines of a page *)

Section PageLayoutFacts.

Import PdfReadingOrder ReadingOrderSpec PageLayout.

Lemma line_ys_insert (lines : list Line) : forall i line row,
  lines !! i = Some line ->
  List.map line_y (<[ i := extend_line line row ]> lines) = List.map line_y lines.
Proof.
  induction lines as [|l lines IH]; intros i line row Hi; [discriminate|].
  destruct i as [|i]; simpl in Hi |- *.
  - injection Hi as ->. reflexivity.
  - f_equal. apply (IH i line row Hi).
Qed.


(** A row that is not above a line and not near it is clearly below it. *)
Lemma far_is_below row l :
  Double.is_finite (y row) = true -> Double.is_finite (line_y l) = true ->
  (Double.value (y row) <= Double.value (line_y l))%Q ->
  near row l = false -> clearly_below (line_y l) (y row).
Proof.
  intros Hy Hl Hle Hfar. unfold clearly_below.
  apply value_below; [exact Hl | exact Hy |].
  apply value_le in Hle; [|exact Hy | exact Hl].
  destruct (Z_lt_ge_dec (Double.scaled (y row)) (Double.scaled (line_y l) - 5 * 2 ^ 1073))
    as [Hlt | Hge]; [exact Hlt|].
  exfalso. unfold near, lineTol in Hfar.
  rewrite within_exact in Hfar; [discriminate | exact Hl | exact Hy | lia].
Qed.

Lemma sorted_snoc {A : Type} (R : A -> A -> Prop) (l : list A) b :
  StronglySorted R l -> List.Forall (fun a => R a b) l -> StronglySorted R (l ++ [b]).
Proof.
  induction 1 as [|a l Hl IH Ha]; intros Hb.
  - constructor; constructor.
  - inversion Hb as [|? ? Hab Hb']; subst. cbn [app]. constructor; [apply IH, Hb'|].
    apply Forall_app. split; [exact Ha | constructor; [exact Hab | constructor]].
Qed.

(** Grouping rows that come from top to bottom keeps the lines apart and in
    that order. *)
Lemma group_keeps_lines_apart (rows : list Row) : forall lines,
  List.Forall (fun r => finite_position r = true) rows ->
  List.Forall (fun l => Double.is_finite (line_y l) = true) lines ->
  StronglySorted in_reading_order rows ->
  StronglySorted clearly_below (List.map line_y lines) ->
  List.Forall
    (fun l => List.Forall (fun r => (Double.value (y r) <= Double.value (line_y l))%Q) rows)
    lines ->
  StronglySorted clearly_below (List.map line_y (fold_left place_row rows lines)).
Proof.
  induction rows as [|r rows IH]; intros lines Hfin Hlfin Hrows Hlines Habove;
    [exact Hlines|].
  cbn [fold_left]. inversion Hrows as [|? ? Hrows' Hr]; subst.
  inversion Hfin as [|? ? Hfr Hfin']; subst.
  destruct (finite_position_spec r Hfr) as [_ Hyr].
  assert (Hrest : List.Forall (fun r' => (Double.value (y r') <= Double.value (y r))%Q) rows).
  { eapply List.Forall_impl; [|exact Hr]. intros r' [H | [H _]]; lra. }
  destruct (place_row_cases lines r) as [[Hfar ->] | (i & line & Hi & _ & _ & ->)].
  - apply IH; [exact Hfin' | | exact Hrows' | |].
    + apply Forall_app. split; [exact Hlfin | constructor; [exact Hyr | constructor]].
    + rewrite List.map_app. cbn [List.map]. apply sorted_snoc; [exact Hlines|].
      rewrite List.Forall_map. rewrite List.Forall_forall in Hfar, Habove, Hlfin |- *.
      intros l Hl. apply far_is_below; [exact Hyr | apply Hlfin, Hl | | apply Hfar, Hl].
      specialize (Habove l Hl). inversion Habove; assumption.
    + apply Forall_app. split.
      * eapply List.Forall_impl; [|exact Habove]. intros l Hl. inversion Hl; assumption.
      * constructor; [exact Hrest | constructor].
  - assert (Hin : In line lines).
    { apply list_elem_of_In. eapply list_elem_of_lookup_2. exact Hi. }
    apply IH; [exact Hfin' | | exact Hrows' | |].
    + apply Forall_insert; [exact Hlfin|]. cbn [extend_line line_y].
      rewrite List.Forall_forall in Hlfin. apply Hlfin, Hin.
    + rewrite (line_ys_insert lines i line r Hi). exact Hlines.
    + apply Forall_insert.
      * eapply List.Forall_impl; [|exact Habove]. intros l Hl. inversion Hl; assumption.
      * rewrite List.Forall_forall in Habove.
        specialize (Habove line Hin). inversion Habove; assumption.
Qed.


Lemma sorted_perm_unique {A : Type} (R : A -> A -> Prop) (l1 : list A) : forall l2,
  StronglySorted R l1 -> StronglySorted R l2 -> Permutation l1 l2 ->
  (forall a b, In a l1 -> In b l1 -> R a b -> R b a -> a = b) ->
  l1 = l2.
Proof.
  induction l1 as [|a l1 IH]; intros l2 H1 H2 Hperm Hanti.
  - apply Permutation_nil in Hperm. congruence.
  - destruct l2 as [|b l2]; [apply Permutation_sym, Permutation_nil in Hperm; discriminate|].
    inversion H1 as [|? ? H1' Ha]; subst. inversion H2 as [|? ? H2' Hb]; subst.
    assert (Hab : a = b).
    { assert (Hina : In a (b :: l2)) by (eapply Permutation_in; [exact Hperm | left; reflexivity]).
      assert (Hinb : In b (a :: l1))
        by (eapply Permutation_in; [symmetry; exact Hperm | left; reflexivity]).
      destruct Hina as [-> | Hina]; [reflexivity|].
      destruct Hinb as [-> | Hinb]; [reflexivity|].
      rewrite List.Forall_forall in Ha, Hb.
      apply Hanti; [left; reflexivity | right; exact Hinb | apply Ha, Hinb | apply Hb, Hina]. }
    subst b. f_equal. apply IH; try assumption.
    + eapply Permutation_cons_inv. exact Hperm.
    + intros x z Hx Hz. apply Hanti; right; assumption.
Qed.

Lemma same_position_true a b :
  (Double.value (x a) == Double.value (x b))%Q ->
  (Double.value (y a) == Double.value (y b))%Q -> same_position a b = true.
Proof.
  intros Hx Hy. unfold same_position.
  apply andb_true_iff. split; apply Qeq_bool_iff; assumption.
Qed.

Lemma distinct_positions_eq (rows : list Row) : forall a b,
  distinct_positions rows = true ->
  In a rows -> In b rows ->
  (Double.value (x a) == Double.value (x b))%Q ->
  (Double.value (y a) == Double.value (y b))%Q -> a = b.
Proof.
  induction rows as [|r rows IH]; intros a b Hd Ha Hb Hx Hy; [destruct Ha|].
  cbn [distinct_positions] in Hd. apply andb_true_iff in Hd as [Hr Hd].
  rewrite forallb_forall in Hr.
  destruct Ha as [<- | Ha]; destruct Hb as [<- | Hb].
  - reflexivity.
  - specialize (Hr b Hb). rewrite (same_position_true r b Hx Hy) in Hr. discriminate.
  - specialize (Hr a Ha).
    rewrite (same_position_true r a ltac:(symmetry; exact Hx) ltac:(symmetry; exact Hy)) in Hr.
    discriminate.
  - apply IH; assumption.
Qed.

Lemma in_reading_order_antisym a b :
  in_reading_order a b -> in_reading_order b a ->
  (Double.value (x a) == Double.value (x b))%Q /\ (Double.value (y a) == Double.value (y b))%Q.
Proof. unfold in_reading_order. intros [H1 | [H1 H1']] [H2 | [H2 H2']]; split; lra. Qed.

Lemma finite_positions_perm rows1 rows2 :
  Permutation rows1 rows2 -> finite_positions rows1 = true -> finite_positions rows2 = true.
Proof.
  unfold finite_positions. rewrite !forallb_forall. intros Hperm H r Hr.
  apply H. eapply Permutation_in; [symmetry; exact Hperm | exact Hr].
Qed.

End PageLayoutFacts.

(** X7: for items with finite coordinates the lines of a page come out
    from top to bottom and apart: each line's height lies below the height
    of every line before it by more than the tolerance of 2.5. *)
Theorem page_lines_run_top_to_bottom :
  forall items : list PdfReadingOrder.TextItem,
    PdfReadingOrder.finite_positions (List.map PdfReadingOrder.row_of items) = true ->
    StronglySorted
      (fun upper lower => (Double.value lower < Double.value upper - (5 # 2))%Q)
      (List.map PdfReadingOrder.line_y (PageLayout.page_lines items)).
Proof.
  intros items Hf. unfold PageLayout.page_lines, PdfReadingOrder.group_lines.
  apply (group_keeps_lines_apart _ []).
  - apply sort_by_ok, finite_positions_spec, Hf.
  - constructor.
  - apply sorted_rows, Hf.
  - constructor.
  - constructor.
Qed.

(** The lines of the example: heights 100 and 50. *)
Lemma page_lines_run_top_to_bottom_witness :
  PdfReadingOrder.finite_positions
    (List.map PdfReadingOrder.row_of PdfReadingOrder.example_items) = true
  /\ StronglySorted
       (fun upper lower => (Double.value lower < Double.value upper - (5 # 2))%Q)
       (List.map PdfReadingOrder.line_y (PageLayout.page_lines PdfReadingOrder.example_items)).
Proof.
  split; [reflexivity|].
  apply (page_lines_run_top_to_bottom PdfReadingOrder.example_items). reflexivity.
Defined.



(** X9: the text of a page does not depend on the order in which its items
    are listed, as long as their coordinates are finite and no two items
    sit at the same point. *)
Theorem reading_order_ignores_item_order :
  forall items1 items2 : list PdfReadingOrder.TextItem,
    Permutation items1 items2 ->
    PdfReadingOrder.finite_positions (List.map PdfReadingOrder.row_of items1) = true ->
    PageLayout.distinct_positions (List.map PdfReadingOrder.row_of items1) = true ->
    PdfReadingOrder.reading_order items1 = PdfReadingOrder.reading_order items2.
Proof.
  intros items1 items2 Hperm Hf Hd. unfold PdfReadingOrder.reading_order. do 2 f_equal.
  set (rows1 := List.map PdfReadingOrder.row_of items1) in *.
  set (rows2 := List.map PdfReadingOrder.row_of items2).
  assert (Hrows : Permutation rows1 rows2) by (apply Permutation_map, Hperm).
  apply (sorted_perm_unique ReadingOrderSpec.in_reading_order).
  - apply sorted_rows, Hf.
  - apply sorted_rows, (finite_positions_perm rows1 rows2 Hrows Hf).
  - rewrite !sort_by_perm. exact Hrows.
  - intros a b Ha Hb Hab Hba.
    destruct (in_reading_order_antisym a b Hab Hba) as [Hx Hy].
    apply (distinct_positions_eq rows1 a b Hd); try assumption.
    + eapply Permutation_in; [apply sort_by_perm | exact Ha].
    + eapply Permutation_in; [apply sort_by_perm | exact Hb].
Qed.

(** The items of the example, listed backwards. *)
Lemma reading_order_ignores_item_order_witness :
  PdfReadingOrder.finite_positions
    (List.map PdfReadingOrder.row_of PdfReadingOrder.example_items) = true
  /\ PageLayout.distinct_positions
       (List.map PdfReadingOrder.row_of PdfReadingOrder.example_items) = true
  /\ PdfReadingOrder.reading_order PdfReadingOrder.example_items
     = PdfReadingOrder.reading_order (rev PdfReadingOrder.example_items).
Proof.
  split; [reflexivity|]. split; [reflexivity|].
  apply (reading_order_ignores_item_order PdfReadingOrder.example_items
           (rev PdfReadingOrder.example_items)).
  - apply Permutation_rev.
  - reflexivity.
  - reflexivity.
Defined.

(** ** Retrieval over any tiers, and the question endpoint *)

(** X10: for any list of tiers, not only the default one, the backend is
    asked at most once per tier, in the order of the list, and the run
    stops at the first call that returns matches or an error; the result is
    empty only when every tier was asked and came back empty. *)
Theorem fallback_over_any_tiers :
  forall (World : Type) (queryEmbedding : list Q)
         (supabase : Retrieval.SupabaseClient World) (tries : list Retrieval.TryCfg)
         (w : World),
    let calls := Retrieval.calls_of queryEmbedding supabase tries w in
    let out := Retrieval.outcome_of queryEmbedding supabase tries w in
    fst (Retrieval.retrieveWithFallback queryEmbedding supabase tries w) = out
    /\ (length calls <= length tries)%nat
    /\ List.map Retrieval.call_request calls
       = List.map (Retrieval.request_of queryEmbedding) (take (length calls) tries)
    /\ Retrieval.explains queryEmbedding tries calls out.
Proof.
  intros World queryEmbedding supabase tries w calls out.
  destruct (recorded_calls queryEmbedding supabase tries w) as [Hreq Hex].
  fold calls in Hreq, Hex. fold out in Hex.
  split; [apply outcome_of_plain|]. split; [|split; assumption].
  apply (f_equal (@length _)) in Hreq.
  rewrite !length_map, length_take in Hreq. lia.
Qed.

Example ask_question_silent_on_search_error :
  AskQuestion.POST AskQuestion.flaky_search (Return (lit "When do you open?")) 0%nat
  = (None, 2%nat).
Proof. reflexivity. Qed.

Example ask_question_passes_context :
  AskQuestion.POST AskQuestion.helpful_search (Return (lit "Q")) 0%nat
  = (Some {| AskQuestion.status := 200;
             AskQuestion.body :=
               AskQuestion.MessageBody
                 (Some (AskQuestion.user_prompt (lit "Open daily.") (lit "Q"))) |},
     2%nat).
Proof. reflexivity. Qed.

(** X11: the question endpoint answers with status 200 or not at all: the
    500 response of its [catch] is built but never returned.  It answers
    exactly when the body parses, an embedding comes back, the retrieval
    returns and the completion has a first choice; the completion is then
    asked with the contents of the retrieved sections joined by blank lines.
    An error of the search backend leaves the caller without a response. *)
Theorem ask_question_answers_200_or_nothing :
  forall (World : Type) (c : AskQuestion.Collaborators World)
         (request : Outcome js_string) (w : World),
    (forall response,
        fst (AskQuestion.POST c request w) = Some response <->
        exists message questionEmbedding others matchingSections w' answer choices,
          request = Return message
          /\ AskQuestion.embeddings_create c message = Return (questionEmbedding :: others)
          /\ Retrieval.retrieveWithFallback questionEmbedding (AskQuestion.supabase c)
               Retrieval.DEFAULT_TRIES w = (Return matchingSections, w')
          /\ AskQuestion.chat_completions_create c
               (AskQuestion.chat_request (AskQuestion.context_of matchingSections) message)
             = Return (answer :: choices)
          /\ response = {| AskQuestion.status := 200;
                           AskQuestion.body := AskQuestion.MessageBody answer |})
    /\ (forall response,
          fst (AskQuestion.POST c request w) = Some response ->
          AskQuestion.status response = 200)
    /\ (forall message questionEmbedding others m w',
          request = Return message ->
          AskQuestion.embeddings_create c message = Return (questionEmbedding :: others) ->
          Retrieval.retrieveWithFallback questionEmbedding (AskQuestion.supabase c)
            Retrieval.DEFAULT_TRIES w = (Throw m, w') ->
          AskQuestion.POST c request w = (None, w')).
Proof.
  intros World c request w.
  assert (Hiff : forall response,
        fst (AskQuestion.POST c request w) = Some response <->
        exists message questionEmbedding others matchingSections w' answer choices,
          request = Return message
          /\ AskQuestion.embeddings_create c message = Return (questionEmbedding :: others)
          /\ Retrieval.retrieveWithFallback questionEmbedding (AskQuestion.supabase c)
               Retrieval.DEFAULT_TRIES w = (Return matchingSections, w')
          /\ AskQuestion.chat_completions_create c
               (AskQuestion.chat_request (AskQuestion.context_of matchingSections) message)
             = Return (answer :: choices)
          /\ response = {| AskQuestion.status := 200;
                           AskQuestion.body := AskQuestion.MessageBody answer |}).
  { intros response. unfold AskQuestion.POST, AskQuestion.answer_question. split.
    - destruct request as [message|m]; [|discriminate].
      destruct (AskQuestion.embeddings_create c message) as [[|qe others]|m] eqn:Ee;
        try discriminate.
      destruct (Retrieval.retrieveWithFallback qe (AskQuestion.supabase c)
                  Retrieval.DEFAULT_TRIES w) as [[ms|m] w'] eqn:Er; [|discriminate].
      destruct (AskQuestion.chat_completions_create c
                  (AskQuestion.chat_request (AskQuestion.context_of ms) message))
        as [[|answer choices]|m] eqn:Ec; try discriminate.
      cbn. intros [= <-].
      exists message, qe, others, ms, w', answer, choices. repeat split; assumption.
    - intros (message & qe & others & ms & w' & answer & choices
              & -> & Ee & Er & Ec & ->).
      rewrite Ee, Er, Ec. reflexivity. }
  split; [exact Hiff|]. split.
  - intros response H. apply Hiff in H as (? & ? & ? & ? & ? & ? & ? & _ & _ & _ & _ & ->).
    reflexivity.
  - intros message qe others m w' -> Ee Er.
    unfold AskQuestion.POST, AskQuestion.answer_question. rewrite Ee, Er. reflexivity.
Qed.

(** ** Further runs of the ingest worker *)

Section IngestRunFacts.

Variable c : Collaborators.
Variable id : Z.

Lemma process_chunks_success chunks : forall index db,
  go_through c id index chunks = true ->
  process_chunks c id index chunks db
  = (Return tt, with_sections db (rows_for c id index chunks)).
Proof.
  induction chunks as [|chunk rest IH]; intros index db Hgo.
  - cbn. rewrite with_sections_nil. reflexivity.
  - cbn [go_through] in Hgo. apply andb_true_iff in Hgo as [Hb Hgo].
    rewrite process_chunks_cons. cbn [rows_for].
    destruct (embeddings_create c index chunk) as [[|eb data]|m]; [| |discriminate].
    + cbn [head]. apply IH, Hgo.
    + cbn [head] in *.
      destruct (sections_insert c index (section_row id index chunk eb)); [discriminate|].
      rewrite (IH (S index) _ Hgo), with_sections_app. reflexivity.
Qed.

Lemma process_chunks_embedding_failure before : forall index db chunk after m,
  go_through c id index before = true ->
  embeddings_create c (index + length before) chunk = Throw m ->
  process_chunks c id index (before ++ chunk :: after) db
  = (Throw m, with_sections db (rows_for c id index before)).
Proof.
  induction before as [|b before IH]; intros index db chunk after m Hgo Hemb.
  - cbn [length] in *. rewrite Nat.add_0_r in *.
    cbn [app]. rewrite process_chunks_cons, Hemb.
    cbn [rows_for]. rewrite with_sections_nil. reflexivity.
  - cbn [length] in *. rewrite Nat.add_succ_r in *.
    cbn [go_through] in Hgo. apply andb_true_iff in Hgo as [Hb Hgo].
    change ((b :: before) ++ chunk :: after) with (b :: (before ++ chunk :: after)).
    rewrite process_chunks_cons. cbn [rows_for].
    destruct (embeddings_create c index b) as [[|eb data]|m']; [| |discriminate].
    + cbn [head]. apply (IH (S index) db chunk after m Hgo Hemb).
    + cbn [head] in *.
      destruct (sections_insert c index (section_row id index b eb)); [discriminate|].
      rewrite (IH (S index) _ chunk after m Hgo Hemb), with_sections_app. reflexivity.
Qed.

(** However the loop ends, it has stored the rows of a prefix of the
    chunks. *)
Lemma process_chunks_prefix chunks : forall index db,
  exists k,
    (k <= length chunks)%nat
    /\ snd (process_chunks c id index chunks db)
       = with_sections db (rows_for c id index (take k chunks)).
Proof.
  induction chunks as [|chunk rest IH]; intros index db.
  - exists 0%nat. cbn. rewrite with_sections_nil. split; [lia | reflexivity].
  - rewrite process_chunks_cons.
    assert (Hstop : exists k, (k <= length (chunk :: rest))%nat
                     /\ db = with_sections db (rows_for c id index (take k (chunk :: rest)))).
    { exists 0%nat. cbn. rewrite with_sections_nil. split; [lia | reflexivity]. }
    destruct (embeddings_create c index chunk) as [[|eb data]|m] eqn:Ee; [| |exact Hstop].
    + cbn [head]. destruct (IH (S index) db) as (k & Hk & Hrows).
      exists (S k). cbn [take rows_for length]. rewrite Ee. split; [lia | exact Hrows].
    + cbn [head].
      destruct (sections_insert c index (section_row id index chunk eb)); [exact Hstop|].
      destruct (IH (S index) (with_sections db [section_row id index chunk eb]))
        as (k & Hk & Hrows).
      exists (S k). cbn [take rows_for length]. rewrite Ee, Hrows, with_sections_app.
      split; [lia | reflexivity].
Qed.

Lemma rows_for_increasing chunks : forall index,
  StronglySorted (fun a b => section_order a < section_order b)
    (rows_for c id index chunks).
Proof.
  induction chunks as [|chunk rest IH]; intros index; [constructor|].
  cbn [rows_for].
  destruct (embeddings_create c index chunk) as [[|eb data]|m]; try apply IH.
  constructor; [apply IH|].
  eapply List.Forall_impl; [|apply (rows_for_order c id rest (S index))].
  intros r [Hr _]. cbn. lia.
Qed.

Lemma rows_for_content chunks : forall index,
  List.Forall
    (fun r => exists j,
         section_order r = Z.of_nat (index + j) + 1
         /\ chunks !! j = Some (section_content r))
    (rows_for c id index chunks).
Proof.
  induction chunks as [|chunk rest IH]; intros index; [constructor|].
  cbn [rows_for].
  assert (Hrest : List.Forall
            (fun r => exists j,
                 section_order r = Z.of_nat (index + j) + 1
                 /\ (chunk :: rest) !! j = Some (section_content r))
            (rows_for c id (S index) rest)).
  { eapply List.Forall_impl; [|apply (IH (S index))]. intros r (j & Ho & Hc).
    exists (S j). split; [rewrite Ho; f_equal; lia | exact Hc]. }
  destruct (embeddings_create c index chunk) as [[|eb data]|m]; try exact Hrest.
  constructor; [|exact Hrest].
  exists 0%nat. cbn. split; [f_equal; lia | reflexivity].
Qed.

End IngestRunFacts.

Section WorkerRunFacts.

Variable c : Collaborators.
Variable req : Request.

(** The run of the worker once the file is there and its text is not
    blank. *)
Lemma worker_run_chunks db buffer :
  storage_download c (storagePath req) = Some buffer ->
  negb (len (trim (text_or_empty (Worker.extractTextFromFile c buffer (mimetype req)))) =? 0)
  = true ->
  Worker.run c req db
  = process_chunks c (documentId req) 0
      (splitIntoChunks (text_or_empty (Worker.extractTextFromFile c buffer (mimetype req)))
         DEFAULT_MAX_CHUNK_SIZE) db.
Proof. intros Hdl Htext. unfold Worker.run. rewrite Hdl. cbn zeta. rewrite Htext. reflexivity. Qed.

Lemma utils_worker_run_chunks db buffer :
  storage_download c (storagePath req) = Some buffer ->
  negb (len (trim (text_or_empty (UtilsWorker.extractTextFromFile c buffer (mimetype req))))
        =? 0) = true ->
  UtilsWorker.run c req db
  = match process_chunks c (documentId req) 0
            (splitIntoChunks
               (text_or_empty (UtilsWorker.extractTextFromFile c buffer (mimetype req)))
               DEFAULT_MAX_CHUNK_SIZE) db with
    | (Return _, db') =>
        match documents_update c (documentId req) PatchReady with
        | Some _ => (Throw "Can't update document status", db')
        | None =>
            (Return tt,
             {| documents := alter (patch_row PatchReady) (documentId req) (documents db');
                document_sections := document_sections db' |})
        end
    | (Throw m, db') => (Throw m, db')
    end.
Proof.
  intros Hdl Htext. unfold UtilsWorker.run. rewrite Hdl. cbn zeta. rewrite Htext.
  unfold bind at 1.
  destruct (process_chunks c (documentId req) 0 _ db) as [[u|m] db']; [|reflexivity].
  unfold bind, update_document.
  destruct (documents_update c (documentId req) PatchReady); reflexivity.
Qed.

End WorkerRunFacts.

Section WorkerOutcomeFacts.

Lemma sanitizeText_clean s :
  sanitizeText (sanitizeText s) = sanitizeText s
  /\ trimmed (sanitizeText s)
  /\ List.Forall (fun c => blanked c = false) (sanitizeText s).
Proof.
  assert (Hall : List.Forall (fun c => blanked c = false) (sanitizeText s)).
  { rewrite sanitizeText_eq. apply trim_Forall, List.Forall_forall. intros c Hc.
    apply in_map_iff in Hc as (c0 & <- & _). apply scrub_not_blanked. }
  assert (Htr : trimmed (sanitizeText s)) by (rewrite sanitizeText_eq; apply trim_trimmed).
  split; [|split; assumption].
  rewrite (sanitizeText_eq (sanitizeText s)), (map_scrub_fixed _ Hall).
  apply trim_fixed, Htr.
Qed.

Lemma empty_clean :
  sanitizeText [] = []
  /\ trimmed []
  /\ List.Forall (fun c => blanked c = false) ([] : js_string).
Proof. split; [reflexivity|]. split; [split; intros c; discriminate | constructor]. Qed.

(** The sections and the status after the [catch] of either worker. *)
Lemma respond_throw c id run db m db' :
  run db = (Throw m, db') ->
  fst (respond c id run db) = NotOk
  /\ document_sections (snd (respond c id run db)) = document_sections db'
  /\ (forall row,
        documents db' !! id = Some row ->
        documents_update c id (PatchError m) = None ->
        status_of (snd (respond c id run db)) id = Some "error"
        /\ error_message_of (snd (respond c id run db)) id = Some m).
Proof.
  intros Hrun. unfold respond. rewrite Hrun. cbn [fst snd].
  split; [reflexivity|]. split.
  - apply (catch_keeps_not_ready c id db' m).
  - intros row Hrow Hupd.
    destruct (marked_error c id db' m row Hrow Hupd) as (Hs & Hm & _). split; assumption.
Qed.

Lemma respond_return c id run db u db' :
  run db = (Return u, db') -> respond c id run db = (Stored id, db').
Proof. intros Hrun. unfold respond. rewrite Hrun. reflexivity. Qed.

(** The run of the utils worker when every chunk goes through and the
    document store takes the update to [ready]. *)
Lemma utils_worker_success c req db buffer row :
  storage_download c (storagePath req) = Some buffer ->
  negb (len (trim (text_or_empty (UtilsWorker.extractTextFromFile c buffer (mimetype req))))
        =? 0) = true ->
  go_through c (documentId req) 0
    (splitIntoChunks (text_or_empty (UtilsWorker.extractTextFromFile c buffer (mimetype req)))
       DEFAULT_MAX_CHUNK_SIZE) = true ->
  documents db !! documentId req = Some row ->
  documents_update c (documentId req) PatchReady = None ->
  fst (UtilsWorker.POST c req db) = Stored (documentId req)
  /\ status_of (snd (UtilsWorker.POST c req db)) (documentId req) = Some "ready"
  /\ document_sections (snd (UtilsWorker.POST c req db))
     = document_sections db
       ++ rows_for c (documentId req) 0
            (splitIntoChunks
               (text_or_empty (UtilsWorker.extractTextFromFile c buffer (mimetype req)))
               DEFAULT_MAX_CHUNK_SIZE).
Proof.
  intros Hdl Htext Hgo Hrow Hupd. unfold UtilsWorker.POST.
  erewrite respond_return; cycle 1.
  { rewrite (utils_worker_run_chunks c req db buffer Hdl Htext).
    rewrite (process_chunks_success c (documentId req) _ 0 db Hgo), Hupd. reflexivity. }
  cbn [fst snd]. split; [reflexivity|]. split; [|reflexivity].
  unfold status_of. cbn. rewrite lookup_alter_eq, Hrow. reflexivity.
Qed.

Lemma go_through_without_embeddings c id chunks : forall index,
  (forall i chunk, embeddings_create c i chunk = Return []) ->
  go_through c id index chunks = true /\ rows_for c id index chunks = [].
Proof.
  induction chunks as [|chunk rest IH]; intros index Hnone; [split; reflexivity|].
  cbn [go_through rows_for]. rewrite Hnone. cbn [head andb]. apply IH, Hnone.
Qed.

End WorkerOutcomeFacts.

(** X12: whatever the libraries return, the text that [extractTextFromFile]
    hands on (in either copy) is normalized: cleaning it again changes
    nothing, it has no white space at either end and none of the characters
    that the normalizer blanks; and a MIME type other than PDF and DOCX
    gives the empty text, not an exception. *)
Theorem extracted_text_is_clean :
  forall (c : Collaborators) (buffer : Buffer) (mimeType : string),
    (forall t,
        Worker.extractTextFromFile c buffer mimeType = Return t
        \/ UtilsWorker.extractTextFromFile c buffer mimeType = Return t ->
        sanitizeText t = t /\ trimmed t /\ List.Forall (fun ch => blanked ch = false) t)
    /\ (String.eqb mimeType PDF_MIME = false ->
        String.eqb mimeType DOCX_MIME = false ->
        Worker.extractTextFromFile c buffer mimeType = Return []
        /\ UtilsWorker.extractTextFromFile c buffer mimeType = Return []).
Proof.
  intros c buffer mimeType. split.
  - intros t [H | H].
    + unfold Worker.extractTextFromFile in H.
      destruct (String.eqb mimeType PDF_MIME).
      * destruct (pdfParse c buffer None) as [text|m]; [|discriminate].
        injection H as <-. apply sanitizeText_clean.
      * destruct (String.eqb mimeType DOCX_MIME).
        -- destruct (mammoth_extractRawText c) as [extract|].
           ++ destruct (extract buffer) as [value|m]; [|discriminate].
              injection H as <-. apply sanitizeText_clean.
           ++ injection H as <-. apply empty_clean.
        -- injection H as <-. apply empty_clean.
    + unfold UtilsWorker.extractTextFromFile, UtilsWorker.extractPdfTextInReadingOrder in H.
      destruct (String.eqb mimeType PDF_MIME).
      * destruct (pdfParse c buffer (Some PdfReadingOrder.pagerender)) as [text|m];
          [|discriminate].
        injection H as <-. apply sanitizeText_clean.
      * destruct (String.eqb mimeType DOCX_MIME).
        -- destruct (mammoth_extractRawText c) as [extract|].
           ++ destruct (extract buffer) as [value|m]; [|discriminate].
              injection H as <-. apply sanitizeText_clean.
           ++ injection H as <-. apply empty_clean.
        -- injection H as <-. apply empty_clean.
  - intros Hpdf Hdocx.
    unfold Worker.extractTextFromFile, UtilsWorker.extractTextFromFile.
    rewrite Hpdf, Hdocx. split; reflexivity.
Qed.

(** X13: an exception of the PDF or Word library is not fatal to the
    worker of [ingest-worker/route.ts]: the text counts as empty, the worker
    answers 200 and the database is left as it was. *)
Theorem extraction_failure_is_not_fatal :
  forall (c : Collaborators) (req : Request) (db : Db) (buffer : Buffer) (m : string),
    storage_download c (storagePath req) = Some buffer ->
    Worker.extractTextFromFile c buffer (mimetype req) = Throw m ->
    Worker.POST c req db = (Stored (documentId req), db).
Proof.
  intros c req db buffer m Hdl Hthrow.
  unfold Worker.POST. apply (respond_return c (documentId req) _ db tt).
  unfold Worker.run. rewrite Hdl. cbn zeta. rewrite Hthrow. reflexivity.
Qed.

Lemma extraction_failure_is_not_fatal_witness :
  storage_download IngestRuns.corrupt_docx (storagePath docx_request) = Some []
  /\ Worker.extractTextFromFile IngestRuns.corrupt_docx [] (mimetype docx_request)
     = Throw "not a zip file"
  /\ Worker.POST IngestRuns.corrupt_docx docx_request queued_db = (Stored 7, queued_db).
Proof.
  split; [reflexivity|]. split; [reflexivity|].
  apply (extraction_failure_is_not_fatal IngestRuns.corrupt_docx docx_request queued_db []
           "not a zip file"); reflexivity.
Defined.

(** X14: when the storage has no file under the path, either worker answers
    500, stores no section and, the document store applying the update,
    leaves the document in status [error]. *)
Theorem missing_file_marks_error :
  forall (c : Collaborators) (req : Request) (db : Db) (row : DocumentRow),
    storage_download c (storagePath req) = None ->
    documents db !! documentId req = Some row ->
    (forall m, documents_update c (documentId req) (PatchError m) = None) ->
    (fst (Worker.POST c req db) = NotOk
     /\ status_of (snd (Worker.POST c req db)) (documentId req) = Some "error"
     /\ document_sections (snd (Worker.POST c req db)) = document_sections db)
    /\ (fst (UtilsWorker.POST c req db) = NotOk
        /\ status_of (snd (UtilsWorker.POST c req db)) (documentId req) = Some "error"
        /\ document_sections (snd (UtilsWorker.POST c req db)) = document_sections db).
Proof.
  intros c req db row Hdl Hrow Hupd. split.
  - assert (Hrun : Worker.run c req db = (Throw NULL_FILE_MESSAGE, db))
      by (unfold Worker.run; rewrite Hdl; reflexivity).
    destruct (respond_throw c (documentId req) _ db _ db Hrun) as (H1 & H2 & H3).
    destruct (H3 row Hrow (Hupd _)) as [Hs _].
    unfold Worker.POST. repeat split; assumption.
  - assert (Hrun : UtilsWorker.run c req db = (Throw NULL_FILE_MESSAGE, db))
      by (unfold UtilsWorker.run; rewrite Hdl; reflexivity).
    destruct (respond_throw c (documentId req) _ db _ db Hrun) as (H1 & H2 & H3).
    destruct (H3 row Hrow (Hupd _)) as [Hs _].
    unfold UtilsWorker.POST. repeat split; assumption.
Qed.

Lemma missing_file_marks_error_witness :
  storage_download IngestRuns.no_file (storagePath docx_request) = None
  /\ documents queued_db !! documentId docx_request = Some IngestRuns.queued_row
  /\ status_of (snd (Worker.POST IngestRuns.no_file docx_request queued_db)) 7
     = Some "error".
Proof.
  split; [reflexivity|]. split; [reflexivity|].
  apply (missing_file_marks_error IngestRuns.no_file docx_request queued_db
           IngestRuns.queued_row); reflexivity.
Defined.

(** X15: when the embedding provider throws on a chunk, every chunk before
    it having gone through, the worker stops there: it answers 500, the
    document ends in status [error] with the provider's message (the
    document store applying the update), and the sections of the chunks
    before stay. *)
Theorem embedding_failure_marks_error_and_keeps_sections :
  forall (c : Collaborators) (req : Request) (db : Db) (buffer : Buffer)
         (before : list js_string) (chunk : js_string) (after : list js_string)
         (m : string) (row : DocumentRow),
    storage_download c (storagePath req) = Some buffer ->
    negb (len (trim (text_or_empty (Worker.extractTextFromFile c buffer (mimetype req)))) =? 0)
    = true ->
    splitIntoChunks (text_or_empty (Worker.extractTextFromFile c buffer (mimetype req)))
      DEFAULT_MAX_CHUNK_SIZE
    = before ++ chunk :: after ->
    go_through c (documentId req) 0 before = true ->
    embeddings_create c (length before) chunk = Throw m ->
    documents db !! documentId req = Some row ->
    documents_update c (documentId req) (PatchError m) = None ->
    fst (Worker.POST c req db) = NotOk
    /\ status_of (snd (Worker.POST c req db)) (documentId req) = Some "error"
    /\ error_message_of (snd (Worker.POST c req db)) (documentId req) = Some m
    /\ document_sections (snd (Worker.POST c req db))
       = document_sections db ++ rows_for c (documentId req) 0 before.
Proof.
  intros c req db buffer before chunk after m row Hdl Htext Hchunks Hgo Hemb Hrow Hupd.
  assert (Hrun : Worker.run c req db
                 = (Throw m, with_sections db (rows_for c (documentId req) 0 before))).
  { rewrite (worker_run_chunks c req db buffer Hdl Htext), Hchunks.
    apply (process_chunks_embedding_failure c (documentId req) before 0 db chunk after m
             Hgo Hemb). }
  destruct (respond_throw c (documentId req) _ db _ _ Hrun) as (H1 & H2 & H3).
  destruct (H3 row Hrow Hupd) as [Hs Hm].
  unfold Worker.POST. repeat split; assumption.
Qed.

Lemma embedding_failure_marks_error_and_keeps_sections_witness :
  splitIntoChunks
    (text_or_empty (Worker.extractTextFromFile IngestRuns.throttled_docx []
                      (mimetype docx_request)))
    DEFAULT_MAX_CHUNK_SIZE
  = [long_sentence] ++ long_sentence :: [long_sentence]
  /\ embeddings_create IngestRuns.throttled_docx 1%nat long_sentence = Throw "rate limit"
  /\ error_message_of (snd (Worker.POST IngestRuns.throttled_docx docx_request queued_db)) 7
     = Some "rate limit"
  /\ List.map section_order
       (document_sections (snd (Worker.POST IngestRuns.throttled_docx docx_request queued_db)))
     = [1].
Proof.
  split; [vm_compute; reflexivity|]. split; [reflexivity|].
  destruct (embedding_failure_marks_error_and_keeps_sections
              IngestRuns.throttled_docx docx_request queued_db []
              [long_sentence] long_sentence [long_sentence] "rate limit"
              IngestRuns.queued_row)
    as (_ & _ & H3 & H4);
    try (vm_compute; reflexivity).
  split; [exact H3|]. rewrite H4. vm_compute. reflexivity.
Defined.

(** X16: when every chunk goes through, the worker of
    [ingest-worker/route.ts] answers 200 and has stored, after the sections
    that were there, one section for each chunk that got an embedding, in
    the order of the chunks. *)
Theorem all_chunks_stored_on_success :
  forall (c : Collaborators) (req : Request) (db : Db) (buffer : Buffer),
    storage_download c (storagePath req) = Some buffer ->
    negb (len (trim (text_or_empty (Worker.extractTextFromFile c buffer (mimetype req)))) =? 0)
    = true ->
    go_through c (documentId req) 0
      (splitIntoChunks (text_or_empty (Worker.extractTextFromFile c buffer (mimetype req)))
         DEFAULT_MAX_CHUNK_SIZE) = true ->
    fst (Worker.POST c req db) = Stored (documentId req)
    /\ document_sections (snd (Worker.POST c req db))
       = document_sections db
         ++ rows_for c (documentId req) 0
              (splitIntoChunks
                 (text_or_empty (Worker.extractTextFromFile c buffer (mimetype req)))
                 DEFAULT_MAX_CHUNK_SIZE).
Proof.
  intros c req db buffer Hdl Htext Hgo. unfold Worker.POST.
  erewrite respond_return; cycle 1.
  { rewrite (worker_run_chunks c req db buffer Hdl Htext).
    apply (process_chunks_success c (documentId req) _ 0 db Hgo). }
  split; reflexivity.
Qed.

Lemma all_chunks_stored_on_success_witness :
  storage_download IngestRuns.stored_docx (storagePath docx_request) = Some []
  /\ fst (Worker.POST IngestRuns.stored_docx docx_request queued_db) = Stored 7
  /\ List.map section_order
       (document_sections (snd (Worker.POST IngestRuns.stored_docx docx_request queued_db)))
     = [1; 2; 3].
Proof.
  split; [reflexivity|].
  destruct (all_chunks_stored_on_success IngestRuns.stored_docx docx_request queued_db [])
    as [H1 H2]; try (vm_compute; reflexivity).
  split; [exact H1|]. rewrite H2. vm_compute. reflexivity.
Defined.

Section SectionInvariantFacts.

Import IngestRuns.

Lemma rows_for_well_formed c id chunks : well_formed id (rows_for c id 0 chunks).
Proof.
  split; [apply rows_for_increasing|].
  eapply List.Forall_impl; [|apply (rows_for_order c id chunks 0)].
  intros r [Hr Hd]. split; [exact Hd | lia].
Qed.

Lemma nil_well_formed id : well_formed id [].
Proof. split; constructor. Qed.

Lemma respond_sections c id run db :
  (exists rows, document_sections (snd (run db)) = document_sections db ++ rows
                /\ well_formed id rows) ->
  exists rows, document_sections (snd (respond c id run db)) = document_sections db ++ rows
               /\ well_formed id rows.
Proof.
  intros (rows & Hrows & Hwf). exists rows. split; [|exact Hwf].
  unfold respond. destruct (run db) as [[u|m] db'] eqn:Hrun; cbn [snd] in *; [exact Hrows|].
  destruct (catch_keeps_not_ready c id db' m) as [_ Hs]. cbn zeta in Hs. rewrite Hs. exact Hrows.
Qed.

Lemma process_chunks_sections c id chunks db :
  exists rows,
    document_sections (snd (process_chunks c id 0 chunks db)) = document_sections db ++ rows
    /\ well_formed id rows.
Proof.
  destruct (process_chunks_prefix c id chunks 0 db) as (k & _ & Hk).
  exists (rows_for c id 0 (take k chunks)). rewrite Hk.
  split; [reflexivity | apply rows_for_well_formed].
Qed.

Lemma worker_sections c req db :
  exists rows,
    document_sections (snd (Worker.POST c req db)) = document_sections db ++ rows
    /\ well_formed (documentId req) rows.
Proof.
  unfold Worker.POST. apply respond_sections. unfold Worker.run.
  destruct (storage_download c (storagePath req)) as [buffer|].
  - cbn zeta. destruct (negb _).
    + apply process_chunks_sections.
    + exists []. cbn. rewrite app_nil_r. split; [reflexivity | apply nil_well_formed].
  - exists []. cbn. rewrite app_nil_r. split; [reflexivity | apply nil_well_formed].
Qed.

Lemma utils_worker_sections c req db :
  exists rows,
    document_sections (snd (UtilsWorker.POST c req db)) = document_sections db ++ rows
    /\ well_formed (documentId req) rows.
Proof.
  unfold UtilsWorker.POST. apply respond_sections. unfold UtilsWorker.run.
  destruct (storage_download c (storagePath req)) as [buffer|].
  - cbn zeta. destruct (negb _).
    + unfold bind at 1.
      destruct (process_chunks_sections c (documentId req)
                  (splitIntoChunks
                     (text_or_empty (UtilsWorker.extractTextFromFile c buffer (mimetype req)))
                     DEFAULT_MAX_CHUNK_SIZE) db) as (rows & Hrows & Hwf).
      exists rows. split; [|exact Hwf].
      destruct (process_chunks c (documentId req) 0 _ db) as [[u|m] db']; cbn [snd] in *;
        [|exact Hrows].
      unfold bind, update_document.
      destruct (documents_update c (documentId req) PatchReady); cbn; exact Hrows.
    + exists []. cbn. rewrite app_nil_r. split; [reflexivity | apply nil_well_formed].
  - exists []. cbn. rewrite app_nil_r. split; [reflexivity | apply nil_well_formed].
Qed.

End SectionInvariantFacts.

(** X17: in every run, however it ends, either worker leaves the sections
    that were stored before untouched and only appends sections of its own
    document, whose [section_order] values are at least 1 and strictly
    increasing (so no two of them are equal); each stored section holds the
    chunk at the position its [section_order] names. *)
Theorem stored_sections_are_ordered :
  forall (c : Collaborators) (req : Request) (db : Db),
    (exists rows,
        document_sections (snd (Worker.POST c req db)) = document_sections db ++ rows
        /\ StronglySorted (fun a b => section_order a < section_order b) rows
        /\ List.Forall (fun r => document_id r = documentId req /\ 1 <= section_order r) rows)
    /\ (exists rows,
          document_sections (snd (UtilsWorker.POST c req db)) = document_sections db ++ rows
          /\ StronglySorted (fun a b => section_order a < section_order b) rows
          /\ List.Forall (fun r => document_id r = documentId req /\ 1 <= section_order r)
               rows)
    /\ (forall chunks db0,
          exists k,
            (k <= length chunks)%nat
            /\ snd (process_chunks c (documentId req) 0 chunks db0)
               = with_sections db0 (rows_for c (documentId req) 0 (take k chunks))
            /\ List.Forall
                 (fun r => chunks !! Z.to_nat (section_order r - 1) = Some (section_content r))
                 (rows_for c (documentId req) 0 (take k chunks))).
Proof.
  intros c req db. split; [|split].
  - destruct (worker_sections c req db) as (rows & Hrows & Hs & Hf).
    exists rows. repeat split; assumption.
  - destruct (utils_worker_sections c req db) as (rows & Hrows & Hs & Hf).
    exists rows. repeat split; assumption.
  - intros chunks db0.
    destruct (process_chunks_prefix c (documentId req) chunks 0 db0) as (k & Hk & Hrows).
    exists k. split; [exact Hk|]. split; [exact Hrows|].
    eapply List.Forall_impl; [|apply (rows_for_content c (documentId req) (take k chunks) 0)].
    intros r (j & Ho & Hc). rewrite Ho.
    replace (Z.to_nat (Z.of_nat (0 + j) + 1 - 1)) with j by lia.
    apply lookup_take_Some in Hc. apply Hc.
Qed.

(** X18: when every chunk goes through and the document store takes the
    update, the worker built on the shared utils answers 200, the document
    ends in status [ready], and one section per embedded chunk is stored in
    the order of the chunks. *)
Theorem utils_worker_marks_ready :
  forall (c : Collaborators) (req : Request) (db : Db) (buffer : Buffer)
         (row : DocumentRow),
    storage_download c (storagePath req) = Some buffer ->
    negb (len (trim (text_or_empty (UtilsWorker.extractTextFromFile c buffer (mimetype req))))
          =? 0) = true ->
    go_through c (documentId req) 0
      (splitIntoChunks (text_or_empty (UtilsWorker.extractTextFromFile c buffer (mimetype req)))
         DEFAULT_MAX_CHUNK_SIZE) = true ->
    documents db !! documentId req = Some row ->
    documents_update c (documentId req) PatchReady = None ->
    fst (UtilsWorker.POST c req db) = Stored (documentId req)
    /\ status_of (snd (UtilsWorker.POST c req db)) (documentId req) = Some "ready"
    /\ error_message_of (snd (UtilsWorker.POST c req db)) (documentId req)
       = error_message row
    /\ document_sections (snd (UtilsWorker.POST c req db))
       = document_sections db
         ++ rows_for c (documentId req) 0
              (splitIntoChunks
                 (text_or_empty (UtilsWorker.extractTextFromFile c buffer (mimetype req)))
                 DEFAULT_MAX_CHUNK_SIZE).
Proof.
  intros c req db buffer row Hdl Htext Hgo Hrow Hupd.
  destruct (utils_worker_success c req db buffer row Hdl Htext Hgo Hrow Hupd)
    as (H1 & H2 & H3).
  split; [exact H1|]. split; [exact H2|]. split; [|exact H3].
  unfold UtilsWorker.POST.
  erewrite respond_return; cycle 1.
  { rewrite (utils_worker_run_chunks c req db buffer Hdl Htext).
    rewrite (process_chunks_success c (documentId req) _ 0 db Hgo), Hupd. reflexivity. }
  unfold error_message_of. cbn. rewrite lookup_alter_eq, Hrow. reflexivity.
Qed.

Lemma utils_worker_marks_ready_witness :
  storage_download IngestRuns.stored_docx (storagePath docx_request) = Some []
  /\ documents queued_db !! documentId docx_request = Some IngestRuns.queued_row
  /\ status_of (snd (UtilsWorker.POST IngestRuns.stored_docx docx_request queued_db)) 7
     = Some "ready"
  /\ List.map section_order
       (document_sections
          (snd (UtilsWorker.POST IngestRuns.stored_docx docx_request queued_db)))
     = [1; 2; 3].
Proof.
  split; [reflexivity|]. split; [reflexivity|].
  destruct (utils_worker_marks_ready IngestRuns.stored_docx docx_request queued_db []
              IngestRuns.queued_row)
    as (_ & H2 & _ & H4); try (vm_compute; reflexivity).
  split; [exact H2|]. rewrite H4. vm_compute. reflexivity.
Defined.

(** X19: when every chunk is stored but the document store refuses the
    update to [ready], the worker built on the shared utils answers 500 and
    marks the document [error] with the message "Can't update document
    status" (the store applying that update); the sections stay stored. *)
Theorem refused_ready_update_marks_error :
  forall (c : Collaborators) (req : Request) (db : Db) (buffer : Buffer)
         (row : DocumentRow) (e : PostgrestError),
    storage_download c (storagePath req) = Some buffer ->
    negb (len (trim (text_or_empty (UtilsWorker.extractTextFromFile c buffer (mimetype req))))
          =? 0) = true ->
    go_through c (documentId req) 0
      (splitIntoChunks (text_or_empty (UtilsWorker.extractTextFromFile c buffer (mimetype req)))
         DEFAULT_MAX_CHUNK_SIZE) = true ->
    documents db !! documentId req = Some row ->
    documents_update c (documentId req) PatchReady = Some e ->
    documents_update c (documentId req) (PatchError "Can't update document status") = None ->
    fst (UtilsWorker.POST c req db) = NotOk
    /\ status_of (snd (UtilsWorker.POST c req db)) (documentId req) = Some "error"
    /\ error_message_of (snd (UtilsWorker.POST c req db)) (documentId req)
       = Some "Can't update document status"
    /\ document_sections (snd (UtilsWorker.POST c req db))
       = document_sections db
         ++ rows_for c (documentId req) 0
              (splitIntoChunks
                 (text_or_empty (UtilsWorker.extractTextFromFile c buffer (mimetype req)))
                 DEFAULT_MAX_CHUNK_SIZE).
Proof.
  intros c req db buffer row e Hdl Htext Hgo Hrow Hready Hupd.
  assert (Hrun : UtilsWorker.run c req db
                 = (Throw "Can't update document status",
                    with_sections db
                      (rows_for c (documentId req) 0
                         (splitIntoChunks
                            (text_or_empty
                               (UtilsWorker.extractTextFromFile c buffer (mimetype req)))
                            DEFAULT_MAX_CHUNK_SIZE)))).
  { rewrite (utils_worker_run_chunks c req db buffer Hdl Htext).
    rewrite (process_chunks_success c (documentId req) _ 0 db Hgo), Hready. reflexivity. }
  destruct (respond_throw c (documentId req) _ db _ _ Hrun) as (H1 & H2 & H3).
  destruct (H3 row Hrow Hupd) as [Hs Hm].
  unfold UtilsWorker.POST. repeat split; assumption.
Qed.

Lemma refused_ready_update_marks_error_witness :
  documents_update IngestRuns.locked_docx (documentId docx_request) PatchReady
  = Some {| message := "row is locked" |}
  /\ status_of (snd (UtilsWorker.POST IngestRuns.locked_docx docx_request queued_db)) 7
     = Some "error"
  /\ List.map section_order
       (document_sections
          (snd (UtilsWorker.POST IngestRuns.locked_docx docx_request queued_db)))
     = [1; 2; 3].
Proof.
  split; [reflexivity|].
  destruct (refused_ready_update_marks_error IngestRuns.locked_docx docx_request queued_db []
              IngestRuns.queued_row {| message := "row is locked" |})
    as (_ & H2 & _ & H4); try (vm_compute; reflexivity).
  split; [exact H2|]. rewrite H4. vm_compute. reflexivity.
Defined.

(** X20: a missing embedding is no failure: when the embedding provider
    returns no embedding for any chunk of a text that is not blank, the
    worker built on the shared utils stores no section and still answers 200
    and marks the document [ready] (the document store taking the
    update). *)
Theorem ready_without_any_section :
  forall (c : Collaborators) (req : Request) (db : Db) (buffer : Buffer)
         (row : DocumentRow),
    storage_download c (storagePath req) = Some buffer ->
    negb (len (trim (text_or_empty (UtilsWorker.extractTextFromFile c buffer (mimetype req))))
          =? 0) = true ->
    (forall index chunk, embeddings_create c index chunk = Return []) ->
    documents db !! documentId req = Some row ->
    documents_update c (documentId req) PatchReady = None ->
    fst (UtilsWorker.POST c req db) = Stored (documentId req)
    /\ status_of (snd (UtilsWorker.POST c req db)) (documentId req) = Some "ready"
    /\ document_sections (snd (UtilsWorker.POST c req db)) = document_sections db.
Proof.
  intros c req db buffer row Hdl Htext Hnone Hrow Hupd.
  destruct (go_through_without_embeddings c (documentId req)
              (splitIntoChunks
                 (text_or_empty (UtilsWorker.extractTextFromFile c buffer (mimetype req)))
                 DEFAULT_MAX_CHUNK_SIZE) 0 Hnone) as [Hgo Hrows].
  destruct (utils_worker_success c req db buffer row Hdl Htext Hgo Hrow Hupd)
    as (H1 & H2 & H3).
  split; [exact H1|]. split; [exact H2|].
  rewrite H3, Hrows, app_nil_r. reflexivity.
Qed.

Lemma ready_without_any_section_witness :
  storage_download IngestRuns.mute_docx (storagePath docx_request) = Some []
  /\ embeddings_create IngestRuns.mute_docx 0%nat long_sentence = Return []
  /\ status_of (snd (UtilsWorker.POST IngestRuns.mute_docx docx_request queued_db)) 7
     = Some "ready"
  /\ document_sections (snd (UtilsWorker.POST IngestRuns.mute_docx docx_request queued_db))
     = [].
Proof.
  split; [reflexivity|]. split; [reflexivity|].
  destruct (ready_without_any_section IngestRuns.mute_docx docx_request queued_db []
              IngestRuns.queued_row)
    as (_ & H2 & H3); try (vm_compute; reflexivity).
  split; [exact H2 | exact H3].
Defined.

(** ** Storage paths *)

Section StoragePathFacts.

Import StoragePath.

#[local] Arguments is_white_space : simpl never.

Lemma separator_not_letter c :
  is_white_space c = true -> (65 <=? c) && (c <=? 90) = false.
Proof.
  unfold is_white_space. intros H.
  destruct ((65 <=? c) && (c <=? 90)) eqn:E; [|reflexivity]. exfalso.
  apply andb_true_iff in E as [E1 E2]. apply Z.leb_le in E1, E2.
  repeat (apply orb_true_iff in H as [H | H]);
    try (apply Z.eqb_eq in H; lia).
  apply andb_true_iff in H as [H1 H2]. apply Z.leb_le in H1, H2. lia.
Qed.

Lemma lower_letter_not_space d : 97 <= d <= 122 -> is_white_space d = false.
Proof.
  intros Hd. unfold is_white_space.
  repeat match goal with
         | |- context [d =? ?k] =>
             replace (d =? k) with false by (symmetry; apply Z.eqb_neq; lia)
         end.
  replace (8192 <=? d) with false by (symmetry; apply Z.leb_gt; lia).
  reflexivity.
Qed.

(** A kept code unit, lowered, is a separator or a slug character. *)
Lemma lowered_kept c :
  kept c = true ->
  is_separator (to_lower_ascii c) = true
  \/ (is_separator (to_lower_ascii c) = false /\ slug_char (to_lower_ascii c) = true).
Proof.
  intros H. unfold to_lower_ascii.
  destruct ((65 <=? c) && (c <=? 90)) eqn:Eup.
  - right. apply andb_true_iff in Eup as [E1 E2]. apply Z.leb_le in E1, E2. split.
    + unfold is_separator, UNDERSCORE, HYPHEN.
      rewrite (lower_letter_not_space (c + 32)) by lia.
      replace (c + 32 =? 95) with false by (symmetry; apply Z.eqb_neq; lia).
      replace (c + 32 =? 45) with false by (symmetry; apply Z.eqb_neq; lia).
      reflexivity.
    + unfold slug_char.
      replace (97 <=? c + 32) with true by (symmetry; apply Z.leb_le; lia).
      replace (c + 32 <=? 122) with true by (symmetry; apply Z.leb_le; lia).
      cbn [andb]. rewrite orb_true_r. reflexivity.
  - destruct (is_separator c) eqn:Es; [left; reflexivity|].
    right. split; [reflexivity|].
    unfold is_separator in Es. apply orb_false_iff in Es as [Es Eh].
    apply orb_false_iff in Es as [Ews Eu].
    unfold kept, is_word in H. rewrite Ews, Eh, Eup, Eu in H.
    unfold slug_char. rewrite Eh.
    destruct ((48 <=? c) && (c <=? 57)), ((97 <=? c) && (c <=? 122));
      cbn in H |- *; congruence.
Qed.

Lemma hyphen_is_separator c : (c =? HYPHEN) = true -> is_separator c = true.
Proof.
  intros H. unfold is_separator. rewrite H. apply orb_true_r.
Qed.

Lemma no_double_hyphen_cons2 c d u :
  no_double_hyphen (c :: d :: u)
  = negb ((c =? HYPHEN) && (d =? HYPHEN)) && no_double_hyphen (d :: u).
Proof. reflexivity. Qed.

Lemma collapse_head_in_run s :
  List.Forall (fun c => is_separator c = true
                        \/ (is_separator c = false /\ slug_char c = true)) s ->
  head (collapse_separators true s) <> Some HYPHEN.
Proof.
  induction 1 as [|c s Hc Hs IH]; [discriminate|].
  cbn [collapse_separators]. destruct (is_separator c) eqn:E; [exact IH|].
  cbn. intros [= ->]. rewrite (hyphen_is_separator HYPHEN eq_refl) in E. discriminate.
Qed.

Lemma collapse_shape s : forall in_run,
  List.Forall (fun c => is_separator c = true
                        \/ (is_separator c = false /\ slug_char c = true)) s ->
  List.Forall (fun c => slug_char c = true) (collapse_separators in_run s)
  /\ no_double_hyphen (collapse_separators in_run s) = true.
Proof.
  induction s as [|c s IH]; intros in_run Hall; [split; [constructor | reflexivity]|].
  inversion Hall as [|? ? Hc Hs]; subst.
  cbn [collapse_separators]. destruct (is_separator c) eqn:E.
  - destruct in_run; [apply IH, Hs|].
    destruct (IH true Hs) as [Hf Hn]. split; [constructor; [reflexivity | exact Hf]|].
    pose proof (collapse_head_in_run s Hs) as Hh.
    destruct (collapse_separators true s) as [|d u]; [reflexivity|].
    rewrite no_double_hyphen_cons2, Hn, andb_true_r.
    destruct (d =? HYPHEN) eqn:Ed; [|rewrite andb_false_r; reflexivity].
    exfalso. apply Hh. apply Z.eqb_eq in Ed. subst d. reflexivity.
  - destruct Hc as [Hc | [_ Hc]]; [congruence|].
    destruct (IH false Hs) as [Hf Hn]. split; [constructor; assumption|].
    destruct (collapse_separators false s) as [|d u]; [reflexivity|].
    rewrite no_double_hyphen_cons2, Hn, andb_true_r.
    destruct (c =? HYPHEN) eqn:Ec; [|reflexivity].
    rewrite (hyphen_is_separator c Ec) in E. discriminate.
Qed.

Lemma no_double_hyphen_tail c s :
  no_double_hyphen (c :: s) = true -> no_double_hyphen s = true.
Proof.
  destruct s as [|d u]; [reflexivity|].
  rewrite no_double_hyphen_cons2. intros H%andb_true_iff. apply H.
Qed.

Lemma strip_start_shape s :
  List.Forall (fun c => slug_char c = true) s -> no_double_hyphen s = true ->
  List.Forall (fun c => slug_char c = true) (strip_start_hyphens s)
  /\ no_double_hyphen (strip_start_hyphens s) = true
  /\ head (strip_start_hyphens s) <> Some HYPHEN.
Proof.
  induction 1 as [|c s Hc Hs IH]; intros Hn; [repeat split; [constructor | discriminate]|].
  cbn [strip_start_hyphens]. destruct (c =? HYPHEN) eqn:E.
  - apply IH, (no_double_hyphen_tail c s Hn).
  - repeat split; [constructor; assumption | exact Hn|].
    cbn. intros [= ->]. discriminate.
Qed.

Lemma strip_end_shape s :
  List.Forall (fun c => slug_char c = true) s -> no_double_hyphen s = true ->
  head s <> Some HYPHEN ->
  List.Forall (fun c => slug_char c = true) (strip_end_hyphens s)
  /\ no_double_hyphen (strip_end_hyphens s) = true
  /\ head (strip_end_hyphens s) <> Some HYPHEN
  /\ last (strip_end_hyphens s) <> Some HYPHEN.
Proof.
  intros Hall. revert Hall.
  assert (Hgen : List.Forall (fun c => slug_char c = true) s -> no_double_hyphen s = true ->
                 List.Forall (fun c => slug_char c = true) (strip_end_hyphens s)
                 /\ no_double_hyphen (strip_end_hyphens s) = true
                 /\ last (strip_end_hyphens s) <> Some HYPHEN
                 /\ (strip_end_hyphens s = []
                     \/ head (strip_end_hyphens s) = head s)).
  { induction 1 as [|c s Hc Hs IH]; intros Hn.
    - repeat split; [constructor | discriminate | left; reflexivity].
    - destruct (IH (no_double_hyphen_tail c s Hn)) as (Hf & Hd & Hl & Hh).
      cbn [strip_end_hyphens]. destruct (strip_end_hyphens s) as [|d u] eqn:Es.
      + destruct (c =? HYPHEN) eqn:Ec.
        * repeat split; [constructor | discriminate | left; reflexivity].
        * repeat split; [constructor; [exact Hc | constructor]| |right; reflexivity].
          cbn. intros [= ->]. discriminate.
      + split; [constructor; assumption|]. split; [|split; [|right; reflexivity]].
        * rewrite no_double_hyphen_cons2, Hd, andb_true_r.
          destruct Hh as [Hh | Hh]; [discriminate|].
          destruct s as [|d' u']; [discriminate|]. cbn in Hh. injection Hh as ->.
          rewrite no_double_hyphen_cons2 in Hn. apply andb_true_iff in Hn as [Hn _]. exact Hn.
        * rewrite last_cons_cons. exact Hl. }
  intros Hall Hn Hh. destruct (Hgen Hall Hn) as (Hf & Hd & Hl & Hhd).
  repeat split; try assumption.
  destruct Hhd as [-> | ->]; [discriminate | exact Hh].
Qed.

Lemma document_is_slug : slug_shaped (lit "document").
Proof.
  unfold slug_shaped. repeat split; try discriminate.
  apply List.Forall_forall. intros c Hc. cbn in Hc.
  repeat (destruct Hc as [<- | Hc]; [reflexivity|]). destruct Hc.
Qed.

Lemma slugify_shape nfkd toLowerCase value :
  lowers_ascii toLowerCase -> slug_shaped (slugify nfkd toLowerCase value).
Proof.
  intros Hlow. unfold slugify.
  set (filtered := List.filter kept (nfkd value)).
  assert (Hkept : List.Forall (fun c => kept c = true) (trim filtered)).
  { apply trim_Forall, List.Forall_forall. intros c Hc.
    apply filter_In in Hc. apply Hc. }
  assert (Hb : forallb kept (trim filtered) = true).
  { apply forallb_forall. rewrite List.Forall_forall in Hkept. exact Hkept. }
  rewrite (Hlow _ Hb).
  assert (Hlo : List.Forall
                  (fun c => is_separator c = true
                            \/ (is_separator c = false /\ slug_char c = true))
                  (List.map to_lower_ascii (trim filtered))).
  { apply List.Forall_map. eapply List.Forall_impl; [|exact Hkept].
    intros c Hc. apply lowered_kept, Hc. }
  destruct (collapse_shape _ false Hlo) as [H1 H2].
  destruct (strip_start_shape _ H1 H2) as (H3 & H4 & H5).
  destruct (strip_end_shape _ H3 H4 H5) as (H6 & H7 & H8 & H9).
  destruct (strip_end_hyphens _) as [|a u] eqn:E; [apply document_is_slug|].
  unfold slug_shaped. repeat split; try assumption. discriminate.
Qed.

Lemma lastIndexOf_none c s : lastIndexOf c s = -1 \/ 0 <= lastIndexOf c s.
Proof.
  induction s as [|h t IH]; [left; reflexivity|].
  cbn [lastIndexOf]. destruct (0 <=? lastIndexOf c t) eqn:E.
  - apply Z.leb_le in E. right. lia.
  - destruct (h =? c); [right; lia | left; reflexivity].
Qed.

(** Where [lastIndexOf] points: the text splits there, and the character
    does not occur after it. *)
Lemma lastIndexOf_split c s :
  (lastIndexOf c s = -1 /\ ~ In c s)
  \/ (0 <= lastIndexOf c s
      /\ exists e,
           slice_from s (lastIndexOf c s) = c :: e
           /\ slice_to s (lastIndexOf c s) ++ c :: e = s
           /\ ~ In c e).
Proof.
  induction s as [|h t IH].
  - left. split; [reflexivity | intros []].
  - cbn [lastIndexOf]. destruct IH as [[Hn Hnot] | (Hpos & e & Hfrom & Hto & Hnot)].
    + rewrite Hn. cbn. destruct (h =? c) eqn:E.
      * apply Z.eqb_eq in E. subst h. right. split; [lia|].
        exists t. unfold slice_from, slice_to. cbn. repeat split; assumption.
      * left. split; [reflexivity|]. intros [-> | Hin]; [|exact (Hnot Hin)].
        rewrite Z.eqb_refl in E. discriminate.
    + replace (0 <=? lastIndexOf c t) with true by (symmetry; apply Z.leb_le; exact Hpos).
      right. split; [lia|]. exists e.
      unfold slice_from, slice_to in *.
      replace (Z.to_nat (lastIndexOf c t + 1)) with (S (Z.to_nat (lastIndexOf c t))) by lia.
      cbn [skipn firstn app]. rewrite Hto. repeat split; assumption.
Qed.

End StoragePathFacts.

(** X21: whatever the name, [slugify] returns a non-empty slug made of
    lower-case letters, digits and single hyphens, with no hyphen at either
    end: words joined by hyphens, or the word document when nothing is
    left. *)
Theorem slugify_gives_a_slug :
  forall (nfkd toLowerCase : js_string -> js_string) (value : js_string),
    StoragePath.lowers_ascii toLowerCase ->
    StoragePath.slug_shaped (StoragePath.slugify nfkd toLowerCase value).
Proof.
  intros nfkd toLowerCase value Hlow. apply slugify_shape, Hlow.
Qed.

Lemma slugify_gives_a_slug_witness :
  StoragePath.lowers_ascii StoragePath.ascii_lower
  /\ StoragePath.slugify StoragePath.no_decomposition StoragePath.ascii_lower
       (lit "  My_File -- Name (v2)")
     = lit "my-file-name-v2"
  /\ StoragePath.slug_shaped (lit "my-file-name-v2").
Proof.
  assert (H : StoragePath.lowers_ascii StoragePath.ascii_lower) by (intros s _; reflexivity).
  split; [exact H|]. split; [reflexivity|].
  apply (slugify_gives_a_slug StoragePath.no_decomposition StoragePath.ascii_lower
           (lit "  My_File -- Name (v2)") H).
Defined.

(** X22: [buildStoragePath] cuts the file name at its last dot: the path is
    uploads/, the UUID, a hyphen, the slug of what stands before that dot,
    and the lower-cased rest from that dot on, which holds no other dot; a
    name without a dot gives no extension.  The slug part is always a
    slug. *)
Theorem storage_path_splits_at_last_dot :
  forall (nfkd toLowerCase : js_string -> js_string) (uuid filename : js_string),
    StoragePath.lowers_ascii toLowerCase ->
    (~ In StoragePath.DOT filename
     /\ StoragePath.buildStoragePath nfkd toLowerCase uuid filename
        = lit "uploads/" ++ uuid ++ [StoragePath.HYPHEN]
          ++ StoragePath.slugify nfkd toLowerCase filename
     /\ StoragePath.slug_shaped (StoragePath.slugify nfkd toLowerCase filename))
    \/ (exists base e,
          filename = base ++ StoragePath.DOT :: e
          /\ ~ In StoragePath.DOT e
          /\ StoragePath.buildStoragePath nfkd toLowerCase uuid filename
             = lit "uploads/" ++ uuid ++ [StoragePath.HYPHEN]
               ++ StoragePath.slugify nfkd toLowerCase base
               ++ toLowerCase (StoragePath.DOT :: e)
          /\ StoragePath.slug_shaped (StoragePath.slugify nfkd toLowerCase base)).
Proof.
  intros nfkd toLowerCase uuid filename Hlow. unfold StoragePath.buildStoragePath.
  destruct (lastIndexOf_split StoragePath.DOT filename)
    as [[Hn Hnot] | (Hpos & e & Hfrom & Hto & Hnot)].
  - left. rewrite Hn. cbn [Z.leb Z.compare]. rewrite app_nil_r.
    split; [exact Hnot|]. split; [reflexivity | apply slugify_shape, Hlow].
  - right.
    exists (StoragePath.slice_to filename (StoragePath.lastIndexOf StoragePath.DOT filename)), e.
    replace (0 <=? StoragePath.lastIndexOf StoragePath.DOT filename) with true
      by (symmetry; apply Z.leb_le; exact Hpos).
    rewrite Hfrom. split; [symmetry; exact Hto|]. split; [exact Hnot|].
    split; [reflexivity | apply slugify_shape, Hlow].
Qed.

Lemma storage_path_splits_at_last_dot_witness :
  StoragePath.lowers_ascii StoragePath.ascii_lower
  /\ StoragePath.buildStoragePath StoragePath.no_decomposition StoragePath.ascii_lower
       StoragePath.a_uuid (lit "  My_File -- Name (v2).final.PDF")
     = lit "uploads/3f2a-my-file-name-v2final.pdf"
  /\ (~ In StoragePath.DOT (lit "  My_File -- Name (v2).final.PDF")
      \/ exists base e,
           lit "  My_File -- Name (v2).final.PDF" = base ++ StoragePath.DOT :: e
           /\ ~ In StoragePath.DOT e).
Proof.
  assert (H : StoragePath.lowers_ascii StoragePath.ascii_lower) by (intros s _; reflexivity).
  split; [exact H|]. split; [reflexivity|].
  destruct (storage_path_splits_at_last_dot StoragePath.no_decomposition
              StoragePath.ascii_lower StoragePath.a_uuid
              (lit "  My_File -- Name (v2).final.PDF") H)
    as [(Hnot & _ & _) | (base & e & Heq & Hnot & _ & _)].
  - left. exact Hnot.
  - right. exists base, e. split; assumption.
Defined.

(** ** The upload routes *)

Section UploadFacts.

Import Upload.





End UploadFacts.

Example send_file_accepts_a_pdf :
  fst (Upload.SendFile.POST Upload.willing (Return Upload.a_form)) = Upload.accepted 7
  /\ List.map (fun c => match c with
                        | Upload.Upload path _ _ => path
                        | Upload.Insert row => Upload.storage_path row
                        | Upload.Publish _ job => Upload.storagePath job
                        end)
       (snd (Upload.SendFile.POST Upload.willing (Return Upload.a_form)))
     = [lit "uploads/3f2a-menu-2024.pdf"; lit "uploads/3f2a-menu-2024.pdf";
        lit "uploads/3f2a-menu-2024.pdf"].
Proof. split; reflexivity. Qed.

Example send_file_rejects_what_is_no_form :
  Upload.SendFile.POST Upload.willing (Throw "Failed to parse body as FormData.")
  = (Upload.server_error "Failed to parse body as FormData.", []).
Proof. reflexivity. Qed.

(** X23: the send-file route calls storage, database and queue only for a
    form that could be read and that passes every check: a request whose
    form cannot be read is answered 500 without any call, a 400 answer is
    given without any call, and a call is made only with a title that is
    not blank, a file of at most 15 MB and of a supported type, and metadata
    that parse.  The route registers a document only after its file was
    stored, and publishes a job only after the document was registered: the
    job then names the id that the database returned, the path under which
    the file was uploaded and the MIME type of the file, and the registered
    row is [queued] under that same path. *)
Theorem send_file_publishes_only_what_it_stored :
  forall (p : Upload.Platform) (request : Outcome Upload.FormData),
    (forall m, request = Throw m ->
       Upload.SendFile.POST p request = (Upload.server_error m, []))
    /\ (Upload.status_code (fst (Upload.SendFile.POST p request)) = 400 ->
        snd (Upload.SendFile.POST p request) = [])
    /\ (snd (Upload.SendFile.POST p request) <> [] ->
        exists form titleField file metadata,
          request = Return form
          /\ Upload.title_entry form = Upload.TextEntry titleField
          /\ len (trim titleField) <> 0
          /\ Upload.file_entry form = Upload.FileEntry file
          /\ Upload.size file <= Upload.MAX_FILE_SIZE_BYTES
          /\ Upload.supported (Upload.type file) = true
          /\ Upload.parseMetadata p (Upload.metadata_entry form) = Return metadata)
    /\ (forall row,
          In (Upload.Insert row) (snd (Upload.SendFile.POST p request)) ->
          exists form file rest,
            request = Return form
            /\ Upload.file_entry form = Upload.FileEntry file
            /\ snd (Upload.SendFile.POST p request)
               = Upload.Upload (Upload.storage_path row) (Upload.content file)
                   (Upload.type file) :: Upload.Insert row :: rest
            /\ Upload.storage_upload p (Upload.storage_path row) (Upload.content file)
                 (Upload.type file) = None
            /\ Upload.storage_path row
               = StoragePath.buildStoragePath (Upload.nfkd p) (Upload.toLowerCase p)
                   (Upload.randomUUID p) (Upload.name file)
            /\ Upload.status row = "queued"
            /\ Upload.mimetype row = Upload.type file)
    /\ (forall url job,
          In (Upload.Publish url job) (snd (Upload.SendFile.POST p request)) ->
          exists upload row stored_path stored_mimetype,
            snd (Upload.SendFile.POST p request)
            = [upload; Upload.Insert row; Upload.Publish url job]
            /\ Upload.documents_insert p row
               = Upload.InsertedRow (Upload.documentId job) stored_path stored_mimetype
            /\ Upload.storagePath job = Upload.storage_path row
            /\ Upload.job_mimetype job = Upload.mimetype row)
    /\ (forall id,
          fst (Upload.SendFile.POST p request) = Upload.accepted id ->
          exists url job,
            In (Upload.Publish url job) (snd (Upload.SendFile.POST p request))
            /\ Upload.documentId job = id
            /\ Upload.publishJSON p url job = None).
Proof.
  intros p request.
  assert (Hnone : forall r : Upload.JsonResponse,
             Upload.status_code r <> 202 ->
             (Upload.status_code (fst (r, @nil Upload.Call)) = 400 ->
              snd (r, @nil Upload.Call) = [])
             /\ (snd (r, @nil Upload.Call) <> [] ->
                 exists form titleField file metadata,
                   request = Return form
                   /\ Upload.title_entry form = Upload.TextEntry titleField
                   /\ len (trim titleField) <> 0
                   /\ Upload.file_entry form = Upload.FileEntry file
                   /\ Upload.size file <= Upload.MAX_FILE_SIZE_BYTES
                   /\ Upload.supported (Upload.type file) = true
                   /\ Upload.parseMetadata p (Upload.metadata_entry form) = Return metadata)
             /\ (forall row,
                   In (Upload.Insert row) (snd (r, @nil Upload.Call)) ->
                   exists form file rest,
                     request = Return form
                     /\ Upload.file_entry form = Upload.FileEntry file
                     /\ snd (r, @nil Upload.Call)
                        = Upload.Upload (Upload.storage_path row) (Upload.content file)
                            (Upload.type file) :: Upload.Insert row :: rest
                     /\ Upload.storage_upload p (Upload.storage_path row)
                          (Upload.content file) (Upload.type file) = None
                     /\ Upload.storage_path row
                        = StoragePath.buildStoragePath (Upload.nfkd p) (Upload.toLowerCase p)
                            (Upload.randomUUID p) (Upload.name file)
                     /\ Upload.status row = "queued"
                     /\ Upload.mimetype row = Upload.type file)
             /\ (forall url job,
                   In (Upload.Publish url job) (snd (r, @nil Upload.Call)) ->
                   exists upload row stored_path stored_mimetype,
                     snd (r, @nil Upload.Call)
                     = [upload; Upload.Insert row; Upload.Publish url job]
                     /\ Upload.documents_insert p row
                        = Upload.InsertedRow (Upload.documentId job) stored_path
                            stored_mimetype
                     /\ Upload.storagePath job = Upload.storage_path row
                     /\ Upload.job_mimetype job = Upload.mimetype row)
             /\ (forall id,
                   fst (r, @nil Upload.Call) = Upload.accepted id ->
                   exists url job,
                     In (Upload.Publish url job) (snd (r, @nil Upload.Call))
                     /\ Upload.documentId job = id
                     /\ Upload.publishJSON p url job = None)).
  { intros r Hr. cbn [fst snd]. split; [reflexivity|].
    split; [intros H; exfalso; apply H; reflexivity|].
    split; [intros row []|]. split; [intros url job []|].
    intros id ->. exfalso. apply Hr. reflexivity. }
  destruct request as [form | m0].
  2: { split; [intros m [= ->]; reflexivity|]. apply Hnone. discriminate. }
  split; [discriminate|]. cbn [Upload.SendFile.POST].
  destruct (Upload.title_entry form) as [|titleField|f] eqn:Etitle;
    try (apply Hnone; discriminate).
  destruct (len (trim titleField) =? 0) eqn:Eblank; try (apply Hnone; discriminate).
  apply Z.eqb_neq in Eblank.
  destruct (Upload.file_entry form) as [|t|fileField] eqn:Efile;
    try (apply Hnone; discriminate).
  destruct (Upload.MAX_FILE_SIZE_BYTES <? Upload.size fileField) eqn:Esize;
    try (apply Hnone; discriminate).
  destruct (Upload.supported (Upload.type fileField)) eqn:Esup; cbn [negb];
    try (apply Hnone; discriminate).
  destruct (Upload.parseMetadata p (Upload.metadata_entry form)) as [metadata|m] eqn:Emeta;
    try (apply Hnone; discriminate).
  apply Z.ltb_ge in Esize. cbn zeta.
  set (storagePath := StoragePath.buildStoragePath (Upload.nfkd p) (Upload.toLowerCase p)
                        (Upload.randomUUID p) (Upload.name fileField)).
  assert (Hchecked : exists form0 titleField0 file metadata0,
             @Return Upload.FormData form = Return form0
             /\ Upload.title_entry form0 = Upload.TextEntry titleField0
             /\ len (trim titleField0) <> 0
             /\ Upload.file_entry form0 = Upload.FileEntry file
             /\ Upload.size file <= Upload.MAX_FILE_SIZE_BYTES
             /\ Upload.supported (Upload.type file) = true
             /\ Upload.parseMetadata p (Upload.metadata_entry form0) = Return metadata0).
  { exists form, titleField, fileField, metadata. repeat split; assumption. }
  destruct (Upload.storage_upload p storagePath (Upload.content fileField)
              (Upload.type fileField)) as [uploadError|] eqn:Eup.
  { cbn [fst snd Upload.status_code Upload.server_error].
    split; [discriminate|]. split; [intros _; exact Hchecked|].
    split; [intros row [H | []]; discriminate|].
    split; [intros url job [H | []]; discriminate | discriminate]. }
  set (row0 := {| Upload.title := trim titleField;
                  Upload.filename := Upload.name fileField;
                  Upload.mimetype := Upload.type fileField;
                  Upload.storage_path := storagePath;
                  Upload.bytes := Upload.size fileField;
                  Upload.source := "upload";
                  Upload.metadata := metadata;
                  Upload.status := "queued" |}).
  assert (Hrow : forall rest row,
             In (Upload.Insert row)
               (Upload.Upload storagePath (Upload.content fileField) (Upload.type fileField)
                :: Upload.Insert row0 :: rest) ->
             (forall r, ~ In (Upload.Insert r) rest) ->
             exists form0 file rest0,
               @Return Upload.FormData form = Return form0
               /\ Upload.file_entry form0 = Upload.FileEntry file
               /\ Upload.Upload storagePath (Upload.content fileField) (Upload.type fileField)
                  :: Upload.Insert row0 :: rest
                  = Upload.Upload (Upload.storage_path row) (Upload.content file)
                      (Upload.type file) :: Upload.Insert row :: rest0
               /\ Upload.storage_upload p (Upload.storage_path row) (Upload.content file)
                    (Upload.type file) = None
               /\ Upload.storage_path row
                  = StoragePath.buildStoragePath (Upload.nfkd p) (Upload.toLowerCase p)
                      (Upload.randomUUID p) (Upload.name file)
               /\ Upload.status row = "queued"
               /\ Upload.mimetype row = Upload.type file).
  { intros rest row [H | [H | H]] Hrest; [discriminate | | exfalso; exact (Hrest row H)].
    injection H as <-. exists form, fileField, rest. repeat split; assumption. }
  destruct (Upload.documents_insert p row0) as [id sp sm | documentError] eqn:Eins.
  - set (url := Upload.worker_url (Upload.interpolated (Upload.NEXT_PUBLIC_BASE_URL p))).
    set (job0 := {| Upload.documentId := id; Upload.storagePath := storagePath;
                    Upload.job_mimetype := Upload.type fileField |}).
    assert (Hjob : forall url' job,
               In (Upload.Publish url' job)
                 [Upload.Upload storagePath (Upload.content fileField) (Upload.type fileField);
                  Upload.Insert row0; Upload.Publish url job0] ->
               exists upload row stored_path stored_mimetype,
                 [Upload.Upload storagePath (Upload.content fileField) (Upload.type fileField);
                  Upload.Insert row0; Upload.Publish url job0]
                 = [upload; Upload.Insert row; Upload.Publish url' job]
                 /\ Upload.documents_insert p row
                    = Upload.InsertedRow (Upload.documentId job) stored_path stored_mimetype
                 /\ Upload.storagePath job = Upload.storage_path row
                 /\ Upload.job_mimetype job = Upload.mimetype row).
    { intros url' job [H | [H | [H | []]]]; try discriminate.
      injection H as <- <-. eexists _, row0, sp, sm. repeat split. exact Eins. }
    assert (Hno : forall r, ~ In (Upload.Insert r) [Upload.Publish url job0])
      by (intros r [H | []]; discriminate).
    destruct (Upload.publishJSON p url job0) as [m|] eqn:Epub; cbn [fst snd].
    + split; [discriminate|]. split; [intros _; exact Hchecked|].
      split; [intros row H; apply (Hrow _ row H Hno)|].
      split; [exact Hjob | discriminate].
    + split; [discriminate|]. split; [intros _; exact Hchecked|].
      split; [intros row H; apply (Hrow _ row H Hno)|].
      split; [exact Hjob|].
      intros id' [= <-]. exists url, job0.
      split; [right; right; left; reflexivity | split; [reflexivity | exact Epub]].
  - cbn [fst snd]. split; [discriminate|]. split; [intros _; exact Hchecked|].
    split; [intros row H; apply (Hrow _ row H); intros r []|].
    split; [|discriminate].
    intros url job [H | [H | []]]; discriminate.
Qed.

Example enqueue_rejects_an_empty_file :
  Upload.Enqueue.POST Upload.willing (Return Upload.an_empty_file_body)
  = (Upload.bad_request "Missing fields.", []).
Proof. reflexivity. Qed.

